(** * PlexAutoSkip: the session engine of [resources/skipper.py]

    A shallow embedding of the [Skipper] class: the registry of tracked
    sessions, the admission filter, the interval checks of the control loop
    and the action threads with their recovery protocol.

    Conventions of the embedding.
    - Python [int] is [Z]; the [float] of the settings is a primitive
      binary64 [float]; wall-clock seconds are rationals ([Q]).
    - Python objects that are mutated after they were shared (the
      [MediaWrapper] of a session, reachable from the registry, from the
      control loop's snapshot and from the action threads) live in an object
      store and are passed around by reference.
    - [self.media_sessions] is an insertion-ordered dictionary: an
      association list from identities to references.
    - Methods that can raise return a [result]; methods that touch the
      registry, the store or the network run in the monad [M].
    - [Thread(target=f, args=...).start()] records the thread in [started];
      a thread body runs atomically when the scheduler picks it.
    - Logging is not modelled, except for the line that [logErrorMessage]
      writes.
    - [str.lower] is Python's: the methods that call it take it as the
      parameter [lower]. *)

From Stdlib Require Import ZArith QArith Floats Bool Ascii String Lia.
From stdpp Require Import base list strings functions gmap pretty.
From Equations Require Import Equations.
From Equations.Prop Require Import Logic.

Local Open Scope Z_scope.

(* ===================================================================== *)
(** ** Exceptions and results *)

Inductive exn : Type :=
| ParseError          (* xml.etree.ElementTree.ParseError *)
| BadRequest          (* plexapi.exceptions.BadRequest *)
| ReadTimeout         (* requests / urllib3 / socket timeouts *)
| ZeroDivisionError
| OverflowError
| TypeError
| AttributeError
| IndexError
| InvalidVersion      (* raised by parse_version *)
| OtherError.         (* any other Exception *)

Inductive result (A : Type) : Type :=
| Return (a : A)
| Raise (e : exn).
Arguments Return {A} a.
Arguments Raise {A} e.

(** Pure fallible code: the [result] monad. *)
Definition rbind {A B} (m : result A) (k : A -> result B) : result B :=
  match m with
  | Return a => k a
  | Raise e => Raise e
  end.

Declare Scope result_scope.
Delimit Scope result_scope with res.
Notation "'let?' x ':=' m 'in' k" := (rbind m (fun x => k))
  (at level 10, x name, m at level 100, k at level 200) : result_scope.

(** Python's short-circuit [a and b] on fallible booleans: the right
    operand is evaluated only when the left one is true. *)
Definition rand (a : result bool) (b : result bool) : result bool :=
  rbind a (fun x => if x then b else Return false).

(* ===================================================================== *)
(** ** Python values *)

(** Truthiness of an [int] and of a [str]. *)
Definition truthyZ (z : Z) : bool := negb (z =? 0).
Definition truthyS (s : string) : bool :=
  match s with EmptyString => false | _ => true end.
(** Truthiness of a [float]: false exactly for [0.0] and [-0.0]. *)
Definition truthyF (f : float) : bool := negb (PrimFloat.eqb f 0%float).

(** [x or y] on integers, as in [mediaWrapper.leftOffset or settings.leftOffset]. *)
Definition orZ (x y : Z) : Z := if truthyZ x then x else y.

(** [x in l] for a list [l]. *)
Definition inS (x : string) (l : list string) : bool := bool_decide (x ∈ l).
Definition inZ (x : Z) (l : list Z) : bool := bool_decide (x ∈ l).

(** An integer as an exact binary floating-point value (no rounding yet). *)
Definition Z2SF (z : Z) : spec_float :=
  match z with
  | Z0 => S754_zero false
  | Zpos p => S754_finite false p 0
  | Zneg p => S754_finite true p 0
  end.

(** [a / b] on two [int]s: true division, the exact quotient correctly
    rounded to binary64; [ZeroDivisionError] for [b = 0], [OverflowError]
    when the quotient is too large for a float. *)
Definition int_truediv (a b : Z) : result float :=
  if b =? 0 then Raise ZeroDivisionError
  else match SFdiv prec emax (Z2SF a) (Z2SF b) with
       | S754_infinity _ => Raise OverflowError
       | q => Return (SF2Prim q)
       end.

(** [str.lower()] is Python's, and lowers every cased character of a
    text: the engine takes it as a parameter ([lower], below). On a text
    whose cased characters are all ASCII letters it is [ascii_lower], which
    is what the examples, all of them on such texts, are run with. *)
Definition lower_ascii (c : ascii) : ascii :=
  let n := nat_of_ascii c in
  if (65 <=? n)%nat && (n <=? 90)%nat then ascii_of_nat (n + 32) else c.
Fixpoint ascii_lower (s : string) : string :=
  match s with
  | EmptyString => EmptyString
  | String c s' => String (lower_ascii c) (ascii_lower s')
  end.

(** [l[-n:]]: the last [n] elements of [l] (all of [l] when it is shorter). *)
Definition lastn {A} (n : nat) (l : list A) : list A :=
  drop (length l - n)%nat l.

(* ===================================================================== *)
(** ** Settings (resources.settings; only its names are used here) *)

Module MODE_TYPES.
Inductive t : Type := SKIP | VOLUME.
Definition eqb (a b : t) : bool :=
  match a, b with
  | SKIP, SKIP | VOLUME, VOLUME => true
  | _, _ => false
  end.
End MODE_TYPES.

Module SKIP_TYPES.
Inductive t : Type := NEVER | WATCHED | ALWAYS.
End SKIP_TYPES.

Module CustomEntries.
Record t : Type := {
  blockedUsers : list string;
  allowedUsers : list string;
  allowedClients : list string;
  blockedClients : list string;
  allowedSkipNext : list string;
  blockedSkipNext : list string;
  allowedKeys : list Z;
  blockedKeys : list Z
}.
End CustomEntries.

Module Settings.
Record t : Type := {
  leftOffset : Z;
  rightOffset : Z;
  mode : MODE_TYPES.t;
  types : list string;
  ignoredlibraries : list string;
  skipE01 : SKIP_TYPES.t;
  skipS01E01 : SKIP_TYPES.t;
  skiplastchapter : float;
  skipunwatched : bool;
  skipnext : bool;
  durationOffset : Z;
  volumelow : Z;
  volumehigh : Z;
  customEntries : CustomEntries.t
}.
End Settings.

(* ===================================================================== *)
(** ** Content, clients and sessions (plexapi objects, as far as the
       skipper reads them) *)

Module Media.
(** An attribute tested with [hasattr] is an [option]. [duration] is in
    milliseconds; [0] is the falsy duration. *)
Record t : Type := {
  type : string;
  librarySectionTitle : string;
  episodeNumber : option Z;
  seasonNumber : option Z;
  isWatched : bool;
  ratingKey : Z;
  parentRatingKey : option Z;
  grandparentRatingKey : option Z;
  duration : Z
}.
(** [a == b] on plexapi objects compares their keys. *)
Definition eqb (a b : t) : bool := ratingKey a =? ratingKey b.
End Media.

Module PlexClient.
(** [version] is the reported version string, empty when absent. *)
Record t : Type := {
  product : string;
  version : string;
  title : string;
  machineIdentifier : string;
  address : string;
  _baseurl : string;
  _proxyThroughServer : bool
}.
End PlexClient.

Module Session.
Record t : Type := { location : string }.
End Session.

Module PlexSession.
Record t : Type := {
  sessionKey : Z;
  session : option Session.t;
  viewOffset : Z;
  usernames : list string
}.
End PlexSession.

Module PlayQueue.
(** A play queue is truthy when its [__len__], the total count, is not
    zero; [items] is the window of items that was fetched. *)
Record t : Type := { playQueueTotalCount : Z; items : list Media.t }.
End PlayQueue.

Module Alert.
(** The fields [processAlert] reads from a notification:
    [data['type']] and the first [PlaySessionStateNotification]. *)
Record t : Type := {
  type : string;
  sessionKey : Z;
  state : string;
  clientIdentifier : string;
  playQueueID : Z
}.
End Alert.

(** The three marker sources of a session. *)
Module CustomMarker.
Record t : Type := { start : Z; end_ : Z; mode : MODE_TYPES.t; key : Z }.
End CustomMarker.

Module Chapter.
Record t : Type := { start : Z; end_ : Z; title : string }.
End Chapter.

Module Marker.
Record t : Type := { start : Z; end_ : Z; type : string }.
End Marker.

(* ===================================================================== *)
(** ** MediaWrapper (resources.mediaWrapper) *)

(** Modelled from the spec: [MediaWrapper.getSessionClientIdentifier] is
    defined outside [skipper.py]; the identity of a session is the composite
    of the server-assigned session key and the client identifier. *)
Definition PasId : Type := Z * string.
Definition getSessionClientIdentifier (sessionKey : Z) (clientIdentifier : string) : PasId :=
  (sessionKey, clientIdentifier).

Module MediaWrapper.
(** Modelled from the spec: the class [MediaWrapper] is defined outside
    [skipper.py]. Its attributes are the ones [Skipper] reads and
    writes, with the session state of the data model: position (ms),
    playback state, the [seeking] flag, the volume-lowering flag with the
    cached previous volume (absent until first lowered), the last-update
    timestamp, the owning client, the content metadata and the resolved
    marker sets. [leftOffset] and [rightOffset] are the per-session
    overrides, falsy ([0]) when there is none. *)
Record t : Type := mk {
  pasIdentifier : PasId;
  clientIdentifier : string;
  session : PlexSession.t;
  media : Media.t;
  player : option PlexClient.t;
  playQueueID : Z;
  state : string;
  viewOffset : Z;
  seeking : bool;
  leftOffset : Z;
  rightOffset : Z;
  mode : MODE_TYPES.t;
  customMarkers : list CustomMarker.t;
  chapters : list Chapter.t;
  markers : list Marker.t;
  lastchapter : option Chapter.t;
  loweringVolume : bool;
  cachedVolume : option Z;
  lastUpdate : Q;
  customOnly : bool
}.

(** Modelled from the spec: [updateOffset(offset, seeking, state=None)]
    syncs the position (and the playback state when one is given), sets
    the [seeking] flag and stamps the update with the current time. *)
Definition updateOffset (now : Q) (offset : Z) (seeking' : bool)
    (state' : option string) (w : t) : t :=
  mk (pasIdentifier w) (clientIdentifier w) (session w) (media w) (player w)
     (playQueueID w) (default (state w) state') offset seeking'
     (leftOffset w) (rightOffset w) (mode w) (customMarkers w) (chapters w)
     (markers w) (lastchapter w) (loweringVolume w) (cachedVolume w)
     now (customOnly w).

(** Modelled from the spec: [updateVolume(volume, previousVolume, lowering)]
    sets the lowering flag and the cached previous volume together, and
    clears them together. *)
Definition updateVolume (volume previousVolume : Z) (lowering : bool) (w : t) : t :=
  mk (pasIdentifier w) (clientIdentifier w) (session w) (media w) (player w)
     (playQueueID w) (state w) (viewOffset w) (seeking w)
     (leftOffset w) (rightOffset w) (mode w) (customMarkers w) (chapters w)
     (markers w) (lastchapter w) lowering
     (if lowering then Some previousVolume else None)
     (lastUpdate w) (customOnly w).

(** Modelled from the spec: [sinceLastUpdate], the seconds elapsed since
    the last update. *)
Definition sinceLastUpdate (now : Q) (w : t) : Q := (now - lastUpdate w)%Q.

(** [mediaWrapper.customOnly = True] *)
Definition set_customOnly (b : bool) (w : t) : t :=
  mk (pasIdentifier w) (clientIdentifier w) (session w) (media w) (player w)
     (playQueueID w) (state w) (viewOffset w) (seeking w)
     (leftOffset w) (rightOffset w) (mode w) (customMarkers w) (chapters w)
     (markers w) (lastchapter w) (loweringVolume w) (cachedVolume w)
     (lastUpdate w) b.

(** The client object is owned by the wrapper: mutating it in place is
    replacing it here. *)
Definition set_player (p : option PlexClient.t) (w : t) : t :=
  mk (pasIdentifier w) (clientIdentifier w) (session w) (media w) p
     (playQueueID w) (state w) (viewOffset w) (seeking w)
     (leftOffset w) (rightOffset w) (mode w) (customMarkers w) (chapters w)
     (markers w) (lastchapter w) (loweringVolume w) (cachedVolume w)
     (lastUpdate w) (customOnly w).
End MediaWrapper.

(* ===================================================================== *)
(** ** The insertion-ordered dictionary [media_sessions] *)

Module Dict.
Section Dict.
Context {V : Type}.
Definition t : Type := list (PasId * V).

Definition keys (d : t) : list PasId := map fst d.
Definition values (d : t) : list V := map snd d.
(** [k in d] *)
Definition mem (k : PasId) (d : t) : bool := bool_decide (k ∈ keys d).
(** [d[k]] *)
Fixpoint get (k : PasId) (d : t) : option V :=
  match d with
  | [] => None
  | (k', v) :: d' => if bool_decide (k' = k) then Some v else get k d'
  end.
(** [del d[k]] *)
Definition del (k : PasId) (d : t) : t :=
  List.filter (fun kv => negb (bool_decide (fst kv = k))) d.
(** [d[k] = v]: an existing key keeps its place, a new key goes last. *)
Fixpoint set (k : PasId) (v : V) (d : t) : t :=
  match d with
  | [] => [(k, v)]
  | (k', v') :: d' =>
      if bool_decide (k' = k) then (k, v) :: d' else (k', v') :: set k v d'
  end.
End Dict.
Arguments t V : clear implicits.
End Dict.

(* ===================================================================== *)
(** ** The skipper's state and its monad *)

Abbreviation ref := nat.

(** A started action thread: [Thread(target=self._seekTo, ...)] or
    [Thread(target=self._setVolume, ...)] with its arguments. *)
Inductive thread : Type :=
| SeekThread (mediaWrapper : ref) (targetOffset : Z)
| VolumeThread (mediaWrapper : ref) (volume : Z) (lowering : bool).

(** What leaves the process towards a client, and each call of
    [recoverPlayer], in the order they happen. *)
Inductive event : Type :=
| CmdSeekTo (player : PlexClient.t) (offset : Z)
| CmdSkipNext (player : PlexClient.t)
| CmdSetVolume (player : PlexClient.t) (volume : Z)
| Recover (player : PlexClient.t).

(** [media_sessions] and [ignored] are the attributes of [Skipper]; the
    others are the rest of the running process: the object store with its
    next free reference, the threads started and not yet run, the trace of
    remote commands and the wall clock. *)
Record Skipper : Type := mkSkipper {
  media_sessions : Dict.t ref;
  ignored : list PasId;
  objects : ref -> MediaWrapper.t;
  fresh_ref : ref;
  started : list thread;
  wire : list event;
  now : Q
}.

Definition set_media_sessions (d : Dict.t ref) (s : Skipper) : Skipper :=
  mkSkipper d (ignored s) (objects s) (fresh_ref s) (started s) (wire s) (now s).
Definition set_ignored (l : list PasId) (s : Skipper) : Skipper :=
  mkSkipper (media_sessions s) l (objects s) (fresh_ref s) (started s) (wire s) (now s).
Definition set_object (r : ref) (w : MediaWrapper.t) (s : Skipper) : Skipper :=
  mkSkipper (media_sessions s) (ignored s) (<[r := w]> (objects s)) (fresh_ref s)
            (started s) (wire s) (now s).
Definition set_fresh_ref (r : ref) (s : Skipper) : Skipper :=
  mkSkipper (media_sessions s) (ignored s) (objects s) r (started s) (wire s) (now s).
Definition set_started (l : list thread) (s : Skipper) : Skipper :=
  mkSkipper (media_sessions s) (ignored s) (objects s) (fresh_ref s) l (wire s) (now s).
Definition set_wire (l : list event) (s : Skipper) : Skipper :=
  mkSkipper (media_sessions s) (ignored s) (objects s) (fresh_ref s) (started s) l (now s).
Definition set_now (t : Q) (s : Skipper) : Skipper :=
  mkSkipper (media_sessions s) (ignored s) (objects s) (fresh_ref s) (started s) (wire s) t.

(** State and exceptions: what a method has done before it raises stays
    done. *)
Definition M (A : Type) : Type := Skipper -> result A * Skipper.

Definition ret {A} (a : A) : M A := fun s => (Return a, s).
Definition raise {A} (e : exn) : M A := fun s => (Raise e, s).
Definition bind {A B} (m : M A) (k : A -> M B) : M B :=
  fun s => match m s with
           | (Return a, s') => k a s'
           | (Raise e, s') => (Raise e, s')
           end.
Definition lift {A} (r : result A) : M A := fun s => (r, s).
Definition gets {A} (f : Skipper -> A) : M A := fun s => (Return (f s), s).
Definition modify (f : Skipper -> Skipper) : M unit := fun s => (Return tt, f s).
(** [try: m except: h] *)
Definition try_except {A} (m : M A) (h : exn -> M A) : M A :=
  fun s => match m s with
           | (Return a, s') => (Return a, s')
           | (Raise e, s') => h e s'
           end.

Declare Scope skipper_scope.
Delimit Scope skipper_scope with M.
Notation "x <- m ;; k" := (bind m (fun x => k))
  (at level 100, m at next level, right associativity) : skipper_scope.
Notation "m ;; k" := (bind m (fun _ => k))
  (at level 100, right associativity) : skipper_scope.
Local Open Scope skipper_scope.

(** Reading an object through its reference, and mutating it in place. *)
Definition deref (r : ref) : M MediaWrapper.t := gets (fun s => objects s r).
Definition mutate (r : ref) (f : MediaWrapper.t -> MediaWrapper.t) : M unit :=
  modify (fun s => set_object r (f (objects s r)) s).
(** [MediaWrapper(...)]: a new object. *)
Definition new_object (w : MediaWrapper.t) : M ref :=
  fun s => (Return (fresh_ref s), set_fresh_ref (S (fresh_ref s)) (set_object (fresh_ref s) w s)).
(** [Thread(...).start()] *)
Definition start_thread (t : thread) : M unit :=
  modify (fun s => set_started (started s ++ [t]) s).
Definition emit (e : event) : M unit :=
  modify (fun s => set_wire (wire s ++ [e]) s).

(* ===================================================================== *)
(** ** Versions (pkg_resources.parse_version)

    The release segment of a version: dotted decimal numbers. Two releases
    compare as tuples once their trailing zeros are dropped. Anything that
    is not of this form raises [InvalidVersion]; the other parts of a
    PEP 440 version are outside this model. *)

Module Version.
Definition t : Type := list N.

Definition digit (c : ascii) : option N :=
  let n := N_of_ascii c in
  if (48 <=? n)%N && (n <=? 57)%N then Some (n - 48)%N else None.

(** [int(s)] on a string of decimal digits *)
Fixpoint number_from (acc : N) (s : string) : option N :=
  match s with
  | EmptyString => Some acc
  | String c s' =>
      match digit c with
      | Some d => number_from (10 * acc + d)%N s'
      | None => None
      end
  end.
Definition number (s : string) : option N :=
  match s with
  | EmptyString => None
  | _ => number_from 0%N s
  end.

(** [s.split(".")] *)
Fixpoint split_dot (s : string) : list string :=
  match s with
  | EmptyString => [EmptyString]
  | String c s' =>
      if Ascii.eqb c "."%char then EmptyString :: split_dot s'
      else match split_dot s' with
           | x :: xs => String c x :: xs
           | [] => [String c EmptyString]
           end
  end.

Fixpoint numbers (l : list string) : option (list N) :=
  match l with
  | [] => Some []
  | x :: l' =>
      match number x, numbers l' with
      | Some n, Some ns => Some (n :: ns)
      | _, _ => None
      end
  end.

Fixpoint drop_zeros (l : list N) : list N :=
  match l with
  | 0%N :: l' => drop_zeros l'
  | _ => l
  end.
Definition strip (v : t) : t := rev (drop_zeros (rev v)).

(** Tuple comparison: the first difference decides, a proper prefix is
    smaller. *)
Fixpoint compare (a b : list N) : comparison :=
  match a, b with
  | [], [] => Eq
  | [], _ :: _ => Lt
  | _ :: _, [] => Gt
  | x :: a', y :: b' =>
      match (x ?= y)%N with
      | Eq => compare a' b'
      | c => c
      end
  end.

(** [a >= b] *)
Definition geb (a b : t) : bool :=
  match compare (strip a) (strip b) with
  | Lt => false
  | _ => true
  end.
End Version.

Definition parse_version (s : string) : result Version.t :=
  match Version.numbers (Version.split_dot s) with
  | Some v => Return v
  | None => Raise InvalidVersion
  end.

(* ===================================================================== *)
(** ** What the network answers

    One run of an action thread talks to the client, to the play-queue
    endpoint of the server and to the port table of the account. The
    answer to a request depends on the request, and for a client on the
    state of the client object (proxied or direct) at the time of the call. *)

Record Remote : Type := {
  (** [player.seekTo(offset)] *)
  seekTo_reply : PlexClient.t -> Z -> result unit;
  (** [player.skipNext()] *)
  skipNext_reply : PlexClient.t -> result unit;
  (** [player.setVolume(volume)] *)
  setVolume_reply : PlexClient.t -> Z -> result unit;
  (** [player.timeline]: no timeline ([None]), or a timeline with its
      [volume] (which can be [None]). One poll serves the reads of one
      attempt. *)
  timeline_reply : PlexClient.t -> result (option (option Z));
  (** [PlayQueue.get(server, playQueueID)] *)
  playQueue_reply : Z -> result PlayQueue.t;
  (** [server._myPlexClientPorts()] *)
  clientPorts_reply : result (gmap string Z)
}.

(* ===================================================================== *)
(** ** class Skipper: constants *)

Definition CLIENT_PORTS : gmap string Z :=
  list_to_map [
    ("Plex for Roku"%string, 8324);
    ("Plex for Android (TV)"%string, 32500);
    ("Plex for Android (Mobile)"%string, 32500);
    ("Plex for iOS"%string, 32500);
    ("Plex for Windows"%string, 32700);
    ("Plex for Mac"%string, 32700)
  ].

Definition BROKEN_CLIENTS : gmap string string :=
  list_to_map [
    ("Plex Web", "4.83.2");
    ("Plex for Windows", "1.46.1");
    ("Plex for Mac", "1.46.1");
    ("Plex for Linux", "1.46.1")
  ]%string.

Definition PROXY_ONLY : list string :=
  [ "Plex Web"; "Plex for Windows"; "Plex for Mac"; "Plex for Linux" ]%string.

Definition DEFAULT_CLIENT_PORT : Z := 32500.
Definition TIMEOUT : Z := 30.
Definition IGNORED_CAP : nat := 200.

(** [needle in haystack] on strings *)
Fixpoint contains (needle haystack : string) : bool :=
  String.prefix needle haystack
  || match haystack with
     | EmptyString => false
     | String _ rest => contains needle rest
     end.

Definition TROUBLESHOOT_URL : string :=
  "https://github.com/mdhiggins/PlexAutoSkip/wiki/Troubleshooting".

(** [ERRORS], in the order of the dictionary: the text looked for in the
    message of the exception, and the line logged for it. *)
Definition ERRORS : list (string * string) :=
  [ ("FrameworkException: Unable to find player with identifier",
     "BadRequest Error, see " ++ TROUBLESHOOT_URL ++ "#badrequest-error");
    ("HTTPError: HTTP Error 403: Forbidden",
     "Forbidden Error, see " ++ TROUBLESHOOT_URL ++ "#forbidden-error") ]%string.

(** [a > b] on seconds *)
Definition Qgtb (a b : Q) : bool := negb (Qle_bool a b).

(* ===================================================================== *)
(** ** class Skipper: methods *)

Section Skipper.
(** [self.settings] and the [customEntries] property *)
Variable settings : Settings.t.
Definition customEntries : CustomEntries.t := Settings.customEntries settings.
(** [str.lower] *)
Variable lower : string -> string.

(** [getMediaSession]: the first session of [server.sessions()] with the
    session key, [None] when there is none or when the request raised. *)
Definition getMediaSession (sessions : result (list PlexSession.t))
    (sessionKey : Z) : option PlexSession.t :=
  match sessions with
  | Return l => List.find (fun session => PlexSession.sessionKey session =? sessionKey) l
  | Raise _ => None
  end.

(** [mediaWrapper.player.title]: [AttributeError] on [None] *)
Definition player_title (mediaWrapper : MediaWrapper.t) : result string :=
  match MediaWrapper.player mediaWrapper with
  | Some player => Return (PlexClient.title player)
  | None => Raise AttributeError
  end.

(** [mediaWrapper.player.machineIdentifier] *)
Definition player_machineIdentifier (mediaWrapper : MediaWrapper.t) : result string :=
  match MediaWrapper.player mediaWrapper with
  | Some player => Return (PlexClient.machineIdentifier player)
  | None => Raise AttributeError
  end.

(* ------------------------------------------------------------------- *)
(** *** Interval checks *)

(** [start <= viewOffset <= end] *)
Definition within (start viewOffset end_ : Z) : bool :=
  (start <=? viewOffset) && (viewOffset <=? end_).

(** The guard of the last-chapter shortcut:
    [settings.skiplastchapter and mediaWrapper.lastchapter and
     (lastchapter.start / media.duration) > settings.skiplastchapter] *)
Definition lastchapter_enabled (mediaWrapper : MediaWrapper.t) : result bool :=
  if truthyF (Settings.skiplastchapter settings) then
    match MediaWrapper.lastchapter mediaWrapper with
    | Some lastchapter =>
        (let? ratio := int_truediv (Chapter.start lastchapter)
                         (Media.duration (MediaWrapper.media mediaWrapper)) in
         Return (PrimFloat.ltb (Settings.skiplastchapter settings) ratio))%res
    | None => Return false
    end
  else Return false.

(** [mediaWrapper.lastchapter and lastchapter.start <= viewOffset <= lastchapter.end] *)
Definition in_lastchapter (mediaWrapper : MediaWrapper.t) : bool :=
  match MediaWrapper.lastchapter mediaWrapper with
  | Some lastchapter =>
      within (Chapter.start lastchapter) (MediaWrapper.viewOffset mediaWrapper)
             (Chapter.end_ lastchapter)
  | None => false
  end.

Definition seekTo (mediaWrapper : ref) (targetOffset : Z) : M unit :=
  start_thread (SeekThread mediaWrapper targetOffset).

Definition setVolume (mediaWrapper : ref) (volume : Z) (lowering : bool) : M unit :=
  start_thread (VolumeThread mediaWrapper volume lowering).

Definition removeSession (mediaWrapper : ref) : M unit :=
  w <- deref mediaWrapper ;;
  d <- gets media_sessions ;;
  if Dict.mem (MediaWrapper.pasIdentifier w) d
  then modify (set_media_sessions (Dict.del (MediaWrapper.pasIdentifier w) d))
  else ret tt.

Definition checkMediaSkip (mediaWrapper : ref) (leftOffset rightOffset : Z) : M unit :=
  w <- deref mediaWrapper ;;
  let viewOffset := MediaWrapper.viewOffset w in
  let skipMarkers :=
    List.filter (fun m => MODE_TYPES.eqb (CustomMarker.mode m) MODE_TYPES.SKIP)
                (MediaWrapper.customMarkers w) in
  match List.find (fun marker => within (CustomMarker.start marker) viewOffset
                                        (CustomMarker.end_ marker)) skipMarkers with
  | Some marker => seekTo mediaWrapper (CustomMarker.end_ marker)
  | None =>
    if negb (MODE_TYPES.eqb (MediaWrapper.mode w) MODE_TYPES.SKIP) then ret tt
    else
      enabled <- lift (lastchapter_enabled w) ;;
      if enabled && in_lastchapter w
      then seekTo mediaWrapper (Media.duration (MediaWrapper.media w))
      else
        match List.find (fun chapter => within (Chapter.start chapter) viewOffset
                                               (Chapter.end_ chapter))
                        (MediaWrapper.chapters w) with
        | Some chapter => seekTo mediaWrapper (Chapter.end_ chapter)
        | None =>
          match List.find (fun marker => within (Marker.start marker + leftOffset)
                                                viewOffset (Marker.end_ marker))
                          (MediaWrapper.markers w) with
          | Some marker => seekTo mediaWrapper (Marker.end_ marker + rightOffset)
          | None => ret tt
          end
        end
  end.

Definition shouldLowerMediaVolume (w : MediaWrapper.t) (leftOffset rightOffset : Z)
    : result bool :=
  let viewOffset := MediaWrapper.viewOffset w in
  let customVolumeMarkers :=
    List.filter (fun m => MODE_TYPES.eqb (CustomMarker.mode m) MODE_TYPES.VOLUME)
                (MediaWrapper.customMarkers w) in
  if existsb (fun marker => within (CustomMarker.start marker) viewOffset
                                   (CustomMarker.end_ marker)) customVolumeMarkers
  then Return true
  else if negb (MODE_TYPES.eqb (MediaWrapper.mode w) MODE_TYPES.VOLUME) then Return false
  else
    (let? enabled := lastchapter_enabled w in
     if enabled && in_lastchapter w then Return true
     else if existsb (fun chapter => within (Chapter.start chapter) viewOffset
                                            (Chapter.end_ chapter))
                     (MediaWrapper.chapters w)
     then Return true
     else Return (existsb (fun marker => within (Marker.start marker + leftOffset)
                                                viewOffset
                                                (Marker.end_ marker + rightOffset))
                          (MediaWrapper.markers w)))%res.

(** The restore branch formats [mediaWrapper.cachedVolume] with [%d]
    before it starts the thread: [TypeError] when there is none. *)
Definition checkMediaVolume (mediaWrapper : ref) (leftOffset rightOffset : Z) : M unit :=
  w <- deref mediaWrapper ;;
  shouldLower <- lift (shouldLowerMediaVolume w leftOffset rightOffset) ;;
  if negb (MediaWrapper.loweringVolume w) && shouldLower
  then setVolume mediaWrapper (Settings.volumelow settings) shouldLower
  else if MediaWrapper.loweringVolume w && negb shouldLower
  then match MediaWrapper.cachedVolume w with
       | Some cachedVolume => setVolume mediaWrapper cachedVolume shouldLower
       | None => raise TypeError
       end
  else ret tt.

Definition shouldSkipNext (w : MediaWrapper.t) : result bool :=
  let allowedSkipNext := CustomEntries.allowedSkipNext customEntries in
  let blockedSkipNext := CustomEntries.blockedSkipNext customEntries in
  (let? notAllowed :=
     match allowedSkipNext with
     | [] => Return false
     | _ => let? title := player_title w in
            Return (negb (inS title allowedSkipNext)
                    && negb (inS (MediaWrapper.clientIdentifier w) allowedSkipNext))
     end in
   if notAllowed then Return false
   else
     let? blocked :=
       match blockedSkipNext with
       | [] => Return false
       | _ => let? title := player_title w in
              Return (inS title blockedSkipNext
                      || inS (MediaWrapper.clientIdentifier w) blockedSkipNext)
       end in
     if blocked then Return false
     else Return (Settings.skipnext settings))%res.

Definition checkMedia (mediaWrapper : ref) : M unit :=
  w <- deref mediaWrapper ;;
  if MediaWrapper.seeking w then ret tt
  else
    let leftOffset := orZ (MediaWrapper.leftOffset w) (Settings.leftOffset settings) in
    let rightOffset := orZ (MediaWrapper.rightOffset w) (Settings.rightOffset settings) in
    checkMediaSkip mediaWrapper leftOffset rightOffset ;;
    checkMediaVolume mediaWrapper leftOffset rightOffset ;;
    atEnd <- lift (rand (Return (MediaWrapper.viewOffset w >=?
                                 Media.duration (MediaWrapper.media w)
                                 - Settings.durationOffset settings))
                        (shouldSkipNext w)) ;;
    (if atEnd then seekTo mediaWrapper (Media.duration (MediaWrapper.media w))
     else ret tt) ;;
    t <- gets now ;;
    if Qgtb (MediaWrapper.sinceLastUpdate t w) (inject_Z TIMEOUT)
    then removeSession mediaWrapper
    else ret tt.

(** One pass of the loop of [start]:
    [for session in list(self.media_sessions.values()): self.checkMedia(session)] *)
Fixpoint checkAll (snapshot : list ref) : M unit :=
  match snapshot with
  | [] => ret tt
  | session :: rest => checkMedia session ;; checkAll rest
  end.
Definition tick : M unit :=
  d <- gets media_sessions ;;
  checkAll (Dict.values d).

(* ------------------------------------------------------------------- *)
(** *** Admission *)

Definition blockedClientUser (w : MediaWrapper.t) : result bool :=
  let usernames := PlexSession.usernames (MediaWrapper.session w) in
  let blockedUsers := CustomEntries.blockedUsers customEntries in
  let allowedUsers := CustomEntries.allowedUsers customEntries in
  let allowedClients := CustomEntries.allowedClients customEntries in
  let blockedClients := CustomEntries.blockedClients customEntries in
  (* Users *)
  if existsb (fun b => inS b usernames && truthyS b) blockedUsers then Return true
  else if match allowedUsers with [] => false | _ => true end
          && negb (existsb (fun u => inS u allowedUsers && truthyS u) usernames)
  then Return true
  else
    (* Clients/players *)
    (let? notAllowed :=
       match allowedClients with
       | [] => Return false
       | _ => let? title := player_title w in
              Return (negb (inS title allowedClients)
                      && negb (inS (MediaWrapper.clientIdentifier w) allowedClients))
       end in
     if notAllowed then Return true
     else
       let? blocked :=
         match blockedClients with
         | [] => Return false
         | _ => let? title := player_title w in
                Return (inS title blockedClients
                        || inS (MediaWrapper.clientIdentifier w) blockedClients)
         end in
       Return blocked)%res.

Definition isNEVER (x : SKIP_TYPES.t) : bool :=
  match x with SKIP_TYPES.NEVER => true | _ => false end.
Definition isWATCHED (x : SKIP_TYPES.t) : bool :=
  match x with SKIP_TYPES.WATCHED => true | _ => false end.

(** [hasattr(media, name) and media.name in keys] *)
Definition hasKeyIn (k : option Z) (keys : list Z) : bool :=
  match k with Some k => inZ k keys | None => false end.

Definition shouldAdd (w : MediaWrapper.t) : bool :=
  let media := MediaWrapper.media w in
  let allowedKeys := CustomEntries.allowedKeys customEntries in
  let blockedKeys := CustomEntries.blockedKeys customEntries in
  if negb (inS (Media.type media) (Settings.types settings)) then false
  else if truthyS (Media.librarySectionTitle media)
          && inS (lower (Media.librarySectionTitle media))
                 (Settings.ignoredlibraries settings)
  then false
  else
    (* First episodes *)
    let firstEpisode :=
      match Media.episodeNumber media with
      | Some episodeNumber =>
          if (episodeNumber =? 1)
             && (isNEVER (Settings.skipE01 settings)
                 || (isWATCHED (Settings.skipE01 settings)
                     && negb (Media.isWatched media)))
          then false
          else if match Media.seasonNumber media with
                  | Some seasonNumber => (seasonNumber =? 1) && (episodeNumber =? 1)
                  | None => false
                  end
                  && (isNEVER (Settings.skipS01E01 settings)
                      || (isWATCHED (Settings.skipS01E01 settings)
                          && negb (Media.isWatched media)))
          then false
          else true
      | None => true
      end in
    if negb firstEpisode then false
    else
      (* Keys *)
      let allowed := false in
      let allowed := if inZ (Media.ratingKey media) allowedKeys then true else allowed in
      if inZ (Media.ratingKey media) blockedKeys then false
      else
        let allowed :=
          if hasKeyIn (Media.parentRatingKey media) allowedKeys then true else allowed in
        if hasKeyIn (Media.parentRatingKey media) blockedKeys then false
        else
          let allowed :=
            if hasKeyIn (Media.grandparentRatingKey media) allowedKeys then true
            else allowed in
          if hasKeyIn (Media.grandparentRatingKey media) blockedKeys then false
          else if match allowedKeys with [] => false | _ => true end && negb allowed
          then false
          else
            (* Watched *)
            if negb (Settings.skipunwatched settings) && negb (Media.isWatched media)
            then false
            else true.

Definition validPlayer (player : PlexClient.t) : result bool :=
  match BROKEN_CLIENTS !! PlexClient.product player with
  | Some bad =>
      if truthyS bad && truthyS (PlexClient.version player)
      then (let? version := parse_version (PlexClient.version player) in
            let? threshold := parse_version bad in
            Return (negb (Version.geb version threshold)))%res
      else Return true
  | None => Return true
  end.

(** [purgeOldSessions]: the loop over [list(self.media_sessions.values())];
    [mediaWrapper.player.machineIdentifier] is read at each iteration. *)
Fixpoint purgeLoop (w : MediaWrapper.t) (snapshot : list ref) : M unit :=
  match snapshot with
  | [] => ret tt
  | sessionMediaWrapper :: rest =>
      sw <- deref sessionMediaWrapper ;;
      machineIdentifier <- lift (player_machineIdentifier w) ;;
      if String.eqb (MediaWrapper.clientIdentifier sw) machineIdentifier
      then removeSession sessionMediaWrapper
      else purgeLoop w rest
  end.
Definition purgeOldSessions (mediaWrapper : ref) : M unit :=
  w <- deref mediaWrapper ;;
  d <- gets media_sessions ;;
  purgeLoop w (Dict.values d).

Definition ignoreSession (mediaWrapper : ref) : M unit :=
  purgeOldSessions mediaWrapper ;;
  w <- deref mediaWrapper ;;
  modify (fun s => set_ignored (ignored s ++ [MediaWrapper.pasIdentifier w]) s) ;;
  modify (fun s => set_ignored (lastn IGNORED_CAP (ignored s)) s).

Definition addSession (mediaWrapper : ref) : M unit :=
  w <- deref mediaWrapper ;;
  usable <- match MediaWrapper.player w with
            | Some player => lift (validPlayer player)
            | None => ret false
            end ;;
  if usable then
    purgeOldSessions mediaWrapper ;;
    checkMedia mediaWrapper ;;
    w <- deref mediaWrapper ;;
    modify (fun s => set_media_sessions
                       (Dict.set (MediaWrapper.pasIdentifier w) mediaWrapper
                                 (media_sessions s)) s)
  else ignoreSession mediaWrapper.

(** The constructor [MediaWrapper(mediaSession, clientIdentifier, state,
    playQueueID, server, tags, mode, custom, logger)] is defined outside
    [skipper.py]: it is a parameter, and it may raise. *)
Variable newMediaWrapper :
  PlexSession.t -> string -> string -> Z -> result MediaWrapper.t.

(** [processAlert(data)], with what [server.sessions()] answers when it
    is asked. *)
Definition processAlert (data : Alert.t) (sessions : result (list PlexSession.t))
    : M unit :=
  if String.eqb (Alert.type data) "playing" then
    let sessionKey := Alert.sessionKey data in
    let state := Alert.state data in
    let clientIdentifier := Alert.clientIdentifier data in
    let playQueueID := Alert.playQueueID data in
    let pasIdentifier := getSessionClientIdentifier sessionKey clientIdentifier in
    ign <- gets ignored ;;
    if bool_decide (pasIdentifier ∈ ign) then ret tt
    else
      try_except
        (match getMediaSession sessions sessionKey with
         | Some mediaSession =>
           match PlexSession.session mediaSession with
           | Some session =>
             if String.eqb (Session.location session) "lan" then
               d <- gets media_sessions ;;
               if negb (Dict.mem pasIdentifier d) then
                 w <- lift (newMediaWrapper mediaSession clientIdentifier state playQueueID) ;;
                 wrapper <- new_object w ;;
                 blocked <- lift (blockedClientUser w) ;;
                 if negb blocked then
                   if shouldAdd w then addSession wrapper
                   else if (0 <? length (MediaWrapper.customMarkers w))%nat then
                     mutate wrapper (MediaWrapper.set_customOnly true) ;;
                     addSession wrapper
                   else ignoreSession wrapper
                 else ret tt
               else
                 match Dict.get pasIdentifier d with
                 | Some tracked =>
                     t <- gets now ;;
                     mutate tracked
                       (MediaWrapper.updateOffset t (PlexSession.viewOffset mediaSession)
                                                  false (Some state))
                 | None => ret tt
                 end
             else ret tt
           | None => ret tt
           end
         | None => ret tt
         end)
        (fun _ => ret tt)
  else ret tt.

(* ------------------------------------------------------------------- *)
(** *** Action threads and recovery *)

Variable net : Remote.

(** [recoverPlayer(player, protocol)]. The client object is the one the
    wrapper holds: rewriting its endpoint in place is seen through the
    wrapper. *)
Definition recoverPlayer (mediaWrapper : ref) (player : PlexClient.t)
    (protocol : string) : M (option PlexClient.t) :=
  emit (Recover player) ;;
  if inS (PlexClient.product player) PROXY_ONLY then ret None
  else if negb (PlexClient._proxyThroughServer player) then ret None
  else
    ports <- lift (clientPorts_reply net) ;;
    let port :=
      default (default DEFAULT_CLIENT_PORT (CLIENT_PORTS !! PlexClient.product player))
              (ports !! PlexClient.machineIdentifier player) in
    let baseurl := (protocol ++ PlexClient.address player ++ ":" ++ pretty port)%string in
    let player' :=
      {| PlexClient.product := PlexClient.product player;
         PlexClient.version := PlexClient.version player;
         PlexClient.title := PlexClient.title player;
         PlexClient.machineIdentifier := PlexClient.machineIdentifier player;
         PlexClient.address := PlexClient.address player;
         PlexClient._baseurl := baseurl;
         PlexClient._proxyThroughServer := false |} in
    mutate mediaWrapper (MediaWrapper.set_player (Some player')) ;;
    ret (Some player').

(** [pq and pq.items[-1] == mediaWrapper.media], with [pq] the play queue
    or [None] when fetching it raised. *)
Definition lastOfPlayQueue (w : MediaWrapper.t) : result bool :=
  match playQueue_reply net (MediaWrapper.playQueueID w) with
  | Return pq =>
      if truthyZ (PlayQueue.playQueueTotalCount pq) then
        match last (PlayQueue.items pq) with
        | Some item => Return (Media.eqb item (MediaWrapper.media w))
        | None => Raise IndexError
        end
      else Return false
  | Raise _ => Return false
  end.

(** The body of the inner [try] of [seekPlayerTo]. *)
Definition seekPlayerTo_try (player : PlexClient.t) (mediaWrapper : ref)
    (targetOffset : Z) : M bool :=
  t <- gets now ;;
  mutate mediaWrapper (MediaWrapper.updateOffset t targetOffset true None) ;;
  w <- deref mediaWrapper ;;
  if Settings.skipnext settings
     && (targetOffset >=? Media.duration (MediaWrapper.media w)
                          - Settings.durationOffset settings)
  then
    atLast <- (if truthyZ (MediaWrapper.playQueueID w)
               then lift (lastOfPlayQueue w)
               else ret false) ;;
    if atLast then
      emit (CmdSeekTo player targetOffset) ;;
      lift (seekTo_reply net player targetOffset) ;;
      ret true
    else
      emit (CmdSkipNext player) ;;
      lift (skipNext_reply net player) ;;
      ret true
  else
    emit (CmdSeekTo player targetOffset) ;;
    lift (seekTo_reply net player targetOffset) ;;
    ret true.

(** The depth of the recovery still possible for a client. *)
Definition rank (player : option PlexClient.t) : nat :=
  match player with
  | None => 0
  | Some p => if PlexClient._proxyThroughServer p then 2 else 1
  end.

(** Recovery lowers the rank: the recursion of the commands is bounded. *)
Ltac recovery_decreases H :=
  revert H; unfold recoverPlayer, bind, emit, modify, ret, lift, mutate, rank; simpl;
  repeat match goal with
         | |- context [if ?c then _ else _] => destruct c eqn:?; simpl
         | |- context [match clientPorts_reply ?n with _ => _ end] =>
             destruct (clientPorts_reply n); simpl
         end;
  intros H; inversion H; subst; simpl;
  repeat match goal with
         | |- context [if ?c then _ else _] => destruct c eqn:?; simpl
         end;
  try lia; try congruence.

(** The clamp that opens [seekPlayerTo]:
    [if media.duration and targetOffset > media.duration: targetOffset = media.duration] *)
Definition clampTarget (w : MediaWrapper.t) (targetOffset : Z) : Z :=
  let duration := Media.duration (MediaWrapper.media w) in
  if truthyZ duration && (targetOffset >? duration) then duration else targetOffset.

Equations? seekPlayerTo (player : option PlexClient.t) (mediaWrapper : ref)
    (targetOffset : Z) (s : Skipper) : result bool * Skipper
    by wf (rank player) lt :=
  seekPlayerTo None mediaWrapper targetOffset s := (Return false, s);
  seekPlayerTo (Some p) mediaWrapper targetOffset s
    with inspect (seekPlayerTo_try p mediaWrapper
                    (clampTarget (objects s mediaWrapper) targetOffset) s) := {
    | exist _ (Return b, s1) _ := (Return b, s1);
    | exist _ (Raise ParseError, s1) _ := (Return true, s1);
    | exist _ (Raise BadRequest, s1) _
        with inspect (recoverPlayer mediaWrapper p "http://" s1) := {
        | exist _ (Return recovered, s2) Hrec :=
            seekPlayerTo recovered mediaWrapper
              (clampTarget (objects s mediaWrapper) targetOffset) s2;
        | exist _ (Raise e, s2) _ := (Raise e, s2) };
    | exist _ (Raise e, s1) _ := (Raise e, s1) }.
Proof. recovery_decreases Hrec. Qed.

(** [_seekTo]: both handlers evict the session. *)
Definition _seekTo (mediaWrapper : ref) (targetOffset : Z) : M unit :=
  try_except
    (w <- deref mediaWrapper ;;
     seekPlayerTo (MediaWrapper.player w) mediaWrapper targetOffset ;;
     ret tt)
    (fun _ => removeSession mediaWrapper).

(** The body of the inner [try] of [setPlayerVolume]. *)
Definition setPlayerVolume_try (player : PlexClient.t) (mediaWrapper : ref)
    (volume : Z) (lowering : bool) : M bool :=
  let previousVolume :=
    if lowering then Settings.volumehigh settings else Settings.volumelow settings in
  timeline <- lift (timeline_reply net player) ;;
  let previousVolume :=
    match timeline with
    | Some (Some timelineVolume) => timelineVolume
    | _ => previousVolume
    end in
  mutate mediaWrapper (MediaWrapper.updateVolume volume previousVolume lowering) ;;
  emit (CmdSetVolume player volume) ;;
  lift (setVolume_reply net player volume) ;;
  ret true.

Equations? setPlayerVolume (player : option PlexClient.t) (mediaWrapper : ref)
    (volume : Z) (lowering : bool) (s : Skipper) : result bool * Skipper
    by wf (rank player) lt :=
  setPlayerVolume None mediaWrapper volume lowering s := (Return false, s);
  setPlayerVolume (Some p) mediaWrapper volume lowering s
    with inspect (setPlayerVolume_try p mediaWrapper volume lowering s) := {
    | exist _ (Return b, s1) _ := (Return b, s1);
    | exist _ (Raise ParseError, s1) _ := (Return true, s1);
    | exist _ (Raise BadRequest, s1) _
        with inspect (recoverPlayer mediaWrapper p "http://" s1) := {
        | exist _ (Return recovered, s2) Hrec :=
            setPlayerVolume recovered mediaWrapper volume lowering s2;
        | exist _ (Raise e, s2) _ := (Raise e, s2) };
    | exist _ (Raise e, s1) _ := (Raise e, s1) }.
Proof. recovery_decreases Hrec. Qed.

(** [_setVolume]: both handlers evict the session. *)
Definition _setVolume (mediaWrapper : ref) (volume : Z) (lowering : bool) : M unit :=
  try_except
    (w <- deref mediaWrapper ;;
     setPlayerVolume (MediaWrapper.player w) mediaWrapper volume lowering ;;
     ret tt)
    (fun _ => removeSession mediaWrapper).

(** The body of a started thread. *)
Definition runThread (t : thread) : M unit :=
  match t with
  | SeekThread mediaWrapper targetOffset => _seekTo mediaWrapper targetOffset
  | VolumeThread mediaWrapper volume lowering => _setVolume mediaWrapper volume lowering
  end.

End Skipper.

(* ------------------------------------------------------------------- *)
(** *** The log of a rejected command *)

(** A line of the log: [log.error(msg)], or [log.exception(msg)] (an error
    with the traceback). *)
Inductive logged : Type :=
| LogError (msg : string)
| LogException (msg : string).

Definition logged_text (l : logged) : string :=
  match l with
  | LogError msg | LogException msg => msg
  end.

(** [logErrorMessage(exception, default)], with [args] the arguments of
    the exception: the line it writes to the log. [exception.args[0]] is an
    [IndexError] for an exception without arguments. *)
Definition logErrorMessage (args : list string) (default : string) : result logged :=
  match args with
  | [] => Raise IndexError
  | message :: _ =>
      match List.find (fun e => contains (fst e) message) ERRORS with
      | Some e => Return (LogError (snd e))
      | None => Return (LogException (default ++ ", see " ++ TROUBLESHOOT_URL))
      end
  end.

(* ===================================================================== *)
(** ** The running process

    What can happen next: the listener delivers a notification, the loop of
    [start] makes one pass over the sessions, a started thread runs (against
    what the network answers at that time), or time passes. *)

Inductive label : Type :=
| Notify (data : Alert.t) (sessions : result (list PlexSession.t))
| Tick
| Run (i : nat) (net : Remote)
| Wait (seconds : Q).

Section Process.
Variable settings : Settings.t.
Variable lower : string -> string.
Variable newMediaWrapper : PlexSession.t -> string -> string -> Z -> result MediaWrapper.t.

Definition step (l : label) : M unit :=
  match l with
  | Notify data sessions => processAlert settings lower newMediaWrapper data sessions
  | Tick => tick settings
  | Run i net =>
      pending <- gets started ;;
      match pending !! i with
      | Some t =>
          modify (set_started (take i pending ++ drop (S i) pending)) ;;
          runThread settings net t
      | None => ret tt
      end
  | Wait seconds => modify (fun s => set_now (now s + seconds)%Q s)
  end.

(** A run of the process; an exception that escapes a step ends it. *)
Fixpoint exec (ls : list label) : M unit :=
  match ls with
  | [] => ret tt
  | l :: ls' => step l ;; exec ls'
  end.

End Process.

(* ===================================================================== *)
(** ** Concrete sessions used in the examples below *)

Module Scenario.
Local Open Scope string_scope.

Definition entries : CustomEntries.t :=
  {| CustomEntries.blockedUsers := []; CustomEntries.allowedUsers := [];
     CustomEntries.allowedClients := []; CustomEntries.blockedClients := [];
     CustomEntries.allowedSkipNext := []; CustomEntries.blockedSkipNext := [];
     CustomEntries.allowedKeys := []; CustomEntries.blockedKeys := [] |}.

(** Skip mode, skip-next enabled, [durationOffset] 5000, no last-chapter
    threshold. *)
Definition settings : Settings.t :=
  {| Settings.leftOffset := 0; Settings.rightOffset := 0;
     Settings.mode := MODE_TYPES.SKIP;
     Settings.types := ["episode"; "movie"]; Settings.ignoredlibraries := [];
     Settings.skipE01 := SKIP_TYPES.ALWAYS; Settings.skipS01E01 := SKIP_TYPES.ALWAYS;
     Settings.skiplastchapter := 0%float;
     Settings.skipunwatched := true; Settings.skipnext := true;
     Settings.durationOffset := 5000;
     Settings.volumelow := 20; Settings.volumehigh := 100;
     Settings.customEntries := entries |}.

(** The same with the last-chapter shortcut enabled at one half. *)
Definition settings_lastchapter : Settings.t :=
  {| Settings.leftOffset := 0; Settings.rightOffset := 0;
     Settings.mode := MODE_TYPES.SKIP;
     Settings.types := ["episode"; "movie"]; Settings.ignoredlibraries := [];
     Settings.skipE01 := SKIP_TYPES.ALWAYS; Settings.skipS01E01 := SKIP_TYPES.ALWAYS;
     Settings.skiplastchapter := 0.5%float;
     Settings.skipunwatched := true; Settings.skipnext := false;
     Settings.durationOffset := 5000;
     Settings.volumelow := 20; Settings.volumehigh := 100;
     Settings.customEntries := entries |}.

(** An episode of ten minutes. *)
Definition episode : Media.t :=
  {| Media.type := "episode"; Media.librarySectionTitle := "TV Shows";
     Media.episodeNumber := Some 2; Media.seasonNumber := Some 1;
     Media.isWatched := true; Media.ratingKey := 101;
     Media.parentRatingKey := Some 11; Media.grandparentRatingKey := Some 1;
     Media.duration := 600000 |}.

Definition client (product version : string) (proxied : bool) : PlexClient.t :=
  {| PlexClient.product := product; PlexClient.version := version;
     PlexClient.title := "Living room"; PlexClient.machineIdentifier := "client-1";
     PlexClient.address := "10.0.0.7"; PlexClient._baseurl := "https://server:32400";
     PlexClient._proxyThroughServer := proxied |}.

Definition roku : PlexClient.t := client "Plex for Roku" "7.0" true.

Definition plexSession (location : string) : PlexSession.t :=
  {| PlexSession.sessionKey := 7;
     PlexSession.session := Some {| Session.location := location |};
     PlexSession.viewOffset := 590000; PlexSession.usernames := ["ann"] |}.

(** A session of [player] at [viewOffset], with no marker of any source. *)
Definition wrapper (player : option PlexClient.t) (viewOffset : Z) (seeking : bool)
    : MediaWrapper.t :=
  {| MediaWrapper.pasIdentifier := getSessionClientIdentifier 7 "client-1";
     MediaWrapper.clientIdentifier := "client-1";
     MediaWrapper.session := plexSession "lan";
     MediaWrapper.media := episode;
     MediaWrapper.player := player;
     MediaWrapper.playQueueID := 55;
     MediaWrapper.state := "playing";
     MediaWrapper.viewOffset := viewOffset;
     MediaWrapper.seeking := seeking;
     MediaWrapper.leftOffset := 0; MediaWrapper.rightOffset := 0;
     MediaWrapper.mode := MODE_TYPES.SKIP;
     MediaWrapper.customMarkers := []; MediaWrapper.chapters := [];
     MediaWrapper.markers := []; MediaWrapper.lastchapter := None;
     MediaWrapper.loweringVolume := false; MediaWrapper.cachedVolume := None;
     MediaWrapper.lastUpdate := 0%Q; MediaWrapper.customOnly := false |}.

(** The credits marker 550000-590000 lies inside the last chapter
    540000-600000. *)
Definition wrapper_credits (viewOffset : Z) : MediaWrapper.t :=
  {| MediaWrapper.pasIdentifier := getSessionClientIdentifier 7 "client-1";
     MediaWrapper.clientIdentifier := "client-1";
     MediaWrapper.session := plexSession "lan";
     MediaWrapper.media := episode;
     MediaWrapper.player := Some roku;
     MediaWrapper.playQueueID := 55;
     MediaWrapper.state := "playing";
     MediaWrapper.viewOffset := viewOffset;
     MediaWrapper.seeking := false;
     MediaWrapper.leftOffset := 0; MediaWrapper.rightOffset := 0;
     MediaWrapper.mode := MODE_TYPES.SKIP;
     MediaWrapper.customMarkers := []; MediaWrapper.chapters := [];
     MediaWrapper.markers :=
       [{| Marker.start := 550000; Marker.end_ := 590000; Marker.type := "credits" |}];
     MediaWrapper.lastchapter :=
       Some {| Chapter.start := 540000; Chapter.end_ := 600000; Chapter.title := "End" |};
     MediaWrapper.loweringVolume := false; MediaWrapper.cachedVolume := None;
     MediaWrapper.lastUpdate := 0%Q; MediaWrapper.customOnly := false |}.

(** A session with a custom lower-volume range over its first two
    seconds. *)
Definition wrapper_quiet (viewOffset : Z) : MediaWrapper.t :=
  {| MediaWrapper.pasIdentifier := getSessionClientIdentifier 7 "client-1";
     MediaWrapper.clientIdentifier := "client-1";
     MediaWrapper.session := plexSession "lan";
     MediaWrapper.media := episode;
     MediaWrapper.player := Some roku;
     MediaWrapper.playQueueID := 55;
     MediaWrapper.state := "playing";
     MediaWrapper.viewOffset := viewOffset;
     MediaWrapper.seeking := false;
     MediaWrapper.leftOffset := 0; MediaWrapper.rightOffset := 0;
     MediaWrapper.mode := MODE_TYPES.SKIP;
     MediaWrapper.customMarkers :=
       [{| CustomMarker.start := 0; CustomMarker.end_ := 2000;
           CustomMarker.mode := MODE_TYPES.VOLUME; CustomMarker.key := 101 |}];
     MediaWrapper.chapters := [];
     MediaWrapper.markers := []; MediaWrapper.lastchapter := None;
     MediaWrapper.loweringVolume := false; MediaWrapper.cachedVolume := None;
     MediaWrapper.lastUpdate := 0%Q; MediaWrapper.customOnly := false |}.

(** The right offset moves the end of a skip two seconds back. *)
Definition settings_offsets : Settings.t :=
  {| Settings.leftOffset := 0; Settings.rightOffset := -2000;
     Settings.mode := MODE_TYPES.SKIP;
     Settings.types := ["episode"; "movie"]; Settings.ignoredlibraries := [];
     Settings.skipE01 := SKIP_TYPES.ALWAYS; Settings.skipS01E01 := SKIP_TYPES.ALWAYS;
     Settings.skiplastchapter := 0%float;
     Settings.skipunwatched := true; Settings.skipnext := true;
     Settings.durationOffset := 5000;
     Settings.volumelow := 20; Settings.volumehigh := 100;
     Settings.customEntries := entries |}.

(** A session with an intro marker over its first second. *)
Definition wrapper_intro (viewOffset : Z) : MediaWrapper.t :=
  {| MediaWrapper.pasIdentifier := getSessionClientIdentifier 7 "client-1";
     MediaWrapper.clientIdentifier := "client-1";
     MediaWrapper.session := plexSession "lan";
     MediaWrapper.media := episode;
     MediaWrapper.player := Some roku;
     MediaWrapper.playQueueID := 55;
     MediaWrapper.state := "playing";
     MediaWrapper.viewOffset := viewOffset;
     MediaWrapper.seeking := false;
     MediaWrapper.leftOffset := 0; MediaWrapper.rightOffset := 0;
     MediaWrapper.mode := MODE_TYPES.SKIP;
     MediaWrapper.customMarkers := []; MediaWrapper.chapters := [];
     MediaWrapper.markers :=
       [{| Marker.start := 0; Marker.end_ := 1000; Marker.type := "intro" |}];
     MediaWrapper.lastchapter := None;
     MediaWrapper.loweringVolume := false; MediaWrapper.cachedVolume := None;
     MediaWrapper.lastUpdate := 0%Q; MediaWrapper.customOnly := false |}.

(** The process with the one object [w], tracked or not, at time [now]. *)
Definition process (tracked : bool) (w : MediaWrapper.t) (now : Q) : Skipper :=
  {| media_sessions := if tracked then [(MediaWrapper.pasIdentifier w, 0%nat)] else [];
     ignored := [];
     objects := fun _ => w;
     fresh_ref := 1%nat;
     started := [];
     wire := [];
     now := now |}.

(** A network on which every client call gets the reply [r]; the client
    reports volume 80, and the play queue ends with [lastItem] when there is
    one and cannot be fetched otherwise. *)
Definition network (r : result unit) (lastItem : option Media.t) : Remote :=
  {| seekTo_reply := fun _ _ => r;
     skipNext_reply := fun _ => r;
     setVolume_reply := fun _ _ => r;
     timeline_reply := fun _ => Return (Some (Some 80));
     playQueue_reply := fun _ =>
       match lastItem with
       | Some item => Return {| PlayQueue.playQueueTotalCount := 1;
                                PlayQueue.items := [item] |}
       | None => Raise OtherError
       end;
     clientPorts_reply := Return ∅ |}.

(** The episode's own key is on the allow list and the key of its show is
    on the block list. *)
Definition entries_keys : CustomEntries.t :=
  {| CustomEntries.blockedUsers := []; CustomEntries.allowedUsers := [];
     CustomEntries.allowedClients := []; CustomEntries.blockedClients := [];
     CustomEntries.allowedSkipNext := []; CustomEntries.blockedSkipNext := [];
     CustomEntries.allowedKeys := [101]; CustomEntries.blockedKeys := [1] |}.

Definition settings_keys : Settings.t :=
  {| Settings.leftOffset := 0; Settings.rightOffset := 0;
     Settings.mode := MODE_TYPES.SKIP;
     Settings.types := ["episode"; "movie"]; Settings.ignoredlibraries := [];
     Settings.skipE01 := SKIP_TYPES.ALWAYS; Settings.skipS01E01 := SKIP_TYPES.ALWAYS;
     Settings.skiplastchapter := 0%float;
     Settings.skipunwatched := true; Settings.skipnext := true;
     Settings.durationOffset := 5000;
     Settings.volumelow := 20; Settings.volumehigh := 100;
     Settings.customEntries := entries_keys |}.

End Scenario.

(** Further sessions and processes of the examples. *)
Module Cases.
Local Open Scope string_scope.

(** A constructor of wrappers for the examples: the session of the
    notification on the Roku client, playing the episode, with no marker. *)
Definition newMediaWrapper (mediaSession : PlexSession.t) (clientIdentifier state : string)
    (playQueueID : Z) : result MediaWrapper.t :=
  Return
    {| MediaWrapper.pasIdentifier :=
         getSessionClientIdentifier (PlexSession.sessionKey mediaSession) clientIdentifier;
       MediaWrapper.clientIdentifier := clientIdentifier;
       MediaWrapper.session := mediaSession;
       MediaWrapper.media := Scenario.episode;
       MediaWrapper.player := Some Scenario.roku;
       MediaWrapper.playQueueID := playQueueID;
       MediaWrapper.state := state;
       MediaWrapper.viewOffset := PlexSession.viewOffset mediaSession;
       MediaWrapper.seeking := false;
       MediaWrapper.leftOffset := 0; MediaWrapper.rightOffset := 0;
       MediaWrapper.mode := MODE_TYPES.SKIP;
       MediaWrapper.customMarkers := []; MediaWrapper.chapters := [];
       MediaWrapper.markers := []; MediaWrapper.lastchapter := None;
       MediaWrapper.loweringVolume := false; MediaWrapper.cachedVolume := None;
       MediaWrapper.lastUpdate := 0%Q; MediaWrapper.customOnly := false |}.

(** A notification for the session 7 on the client [client-1]. *)
Definition playing : Alert.t :=
  {| Alert.type := "playing"; Alert.sessionKey := 7; Alert.state := "playing";
     Alert.clientIdentifier := "client-1"; Alert.playQueueID := 55 |}.

(** A clip whose duration is not known, with one chapter. *)
Definition untimed : MediaWrapper.t :=
  {| MediaWrapper.pasIdentifier := getSessionClientIdentifier 7 "client-1";
     MediaWrapper.clientIdentifier := "client-1";
     MediaWrapper.session := Scenario.plexSession "lan";
     MediaWrapper.media :=
       {| Media.type := "clip"; Media.librarySectionTitle := "";
          Media.episodeNumber := None; Media.seasonNumber := None;
          Media.isWatched := false; Media.ratingKey := 300;
          Media.parentRatingKey := None; Media.grandparentRatingKey := None;
          Media.duration := 0 |};
     MediaWrapper.player := Some Scenario.roku;
     MediaWrapper.playQueueID := 0;
     MediaWrapper.state := "playing";
     MediaWrapper.viewOffset := 1000;
     MediaWrapper.seeking := false;
     MediaWrapper.leftOffset := 0; MediaWrapper.rightOffset := 0;
     MediaWrapper.mode := MODE_TYPES.SKIP;
     MediaWrapper.customMarkers := []; MediaWrapper.chapters := [];
     MediaWrapper.markers := [];
     MediaWrapper.lastchapter :=
       Some {| Chapter.start := 0; Chapter.end_ := 5000; Chapter.title := "Only" |};
     MediaWrapper.loweringVolume := false; MediaWrapper.cachedVolume := None;
     MediaWrapper.lastUpdate := 0%Q; MediaWrapper.customOnly := false |}.

(** The session 7 of the Roku client is tracked (object 0) when the same
    client starts the session 8 (object 1, not tracked yet). *)
Definition session8 : MediaWrapper.t :=
  {| MediaWrapper.pasIdentifier := getSessionClientIdentifier 8 "client-1";
     MediaWrapper.clientIdentifier := "client-1";
     MediaWrapper.session := Scenario.plexSession "lan";
     MediaWrapper.media := Scenario.episode;
     MediaWrapper.player := Some Scenario.roku;
     MediaWrapper.playQueueID := 56;
     MediaWrapper.state := "playing";
     MediaWrapper.viewOffset := 0;
     MediaWrapper.seeking := false;
     MediaWrapper.leftOffset := 0; MediaWrapper.rightOffset := 0;
     MediaWrapper.mode := MODE_TYPES.SKIP;
     MediaWrapper.customMarkers := []; MediaWrapper.chapters := [];
     MediaWrapper.markers := []; MediaWrapper.lastchapter := None;
     MediaWrapper.loweringVolume := false; MediaWrapper.cachedVolume := None;
     MediaWrapper.lastUpdate := 1%Q; MediaWrapper.customOnly := false |}.

Definition replay : Skipper :=
  {| media_sessions := [(getSessionClientIdentifier 7 "client-1", 0%nat)];
     ignored := [];
     objects := fun r => match r with
                         | O => Scenario.wrapper (Some Scenario.roku) 1000 false
                         | _ => session8
                         end;
     fresh_ref := 2%nat;
     started := [];
     wire := [];
     now := 1%Q |}.

(** A process that tracks nothing yet. *)
Definition idle : Skipper := Scenario.process false (Scenario.wrapper None 0 false) 1%Q.


(** A film that was not watched yet. *)
Definition premiere : MediaWrapper.t :=
  {| MediaWrapper.pasIdentifier := getSessionClientIdentifier 9 "client-1";
     MediaWrapper.clientIdentifier := "client-1";
     MediaWrapper.session := Scenario.plexSession "lan";
     MediaWrapper.media :=
       {| Media.type := "movie"; Media.librarySectionTitle := "Movies";
          Media.episodeNumber := None; Media.seasonNumber := None;
          Media.isWatched := false; Media.ratingKey := 400;
          Media.parentRatingKey := None; Media.grandparentRatingKey := None;
          Media.duration := 5400000 |};
     MediaWrapper.player := Some Scenario.roku;
     MediaWrapper.playQueueID := 57;
     MediaWrapper.state := "playing";
     MediaWrapper.viewOffset := 0;
     MediaWrapper.seeking := false;
     MediaWrapper.leftOffset := 0; MediaWrapper.rightOffset := 0;
     MediaWrapper.mode := MODE_TYPES.SKIP;
     MediaWrapper.customMarkers := []; MediaWrapper.chapters := [];
     MediaWrapper.markers := []; MediaWrapper.lastchapter := None;
     MediaWrapper.loweringVolume := false; MediaWrapper.cachedVolume := None;
     MediaWrapper.lastUpdate := 1%Q; MediaWrapper.customOnly := false |}.
End Cases.

(* ===================================================================== *)
(** ** What the interval checks are compared with *)

Section Covers.
Variable w : MediaWrapper.t.

(** A custom skip range, a chapter range, and a server marker (padded on
    the left) that contain the position of [w]. *)
Definition covers_custom (m : CustomMarker.t) : Prop :=
  In m (MediaWrapper.customMarkers w) /\ CustomMarker.mode m = MODE_TYPES.SKIP /\
  CustomMarker.start m <= MediaWrapper.viewOffset w <= CustomMarker.end_ m.

Definition covers_chapter (c : Chapter.t) : Prop :=
  In c (MediaWrapper.chapters w) /\
  Chapter.start c <= MediaWrapper.viewOffset w <= Chapter.end_ c.

Definition covers_marker (leftOffset : Z) (m : Marker.t) : Prop :=
  In m (MediaWrapper.markers w) /\
  Marker.start m + leftOffset <= MediaWrapper.viewOffset w <= Marker.end_ m.

(** The tests of the loops of [checkMediaSkip]. *)
Definition customRange (m : CustomMarker.t) : bool :=
  within (CustomMarker.start m) (MediaWrapper.viewOffset w) (CustomMarker.end_ m).
Definition chapterRange (c : Chapter.t) : bool :=
  within (Chapter.start c) (MediaWrapper.viewOffset w) (Chapter.end_ c).
Definition markerRange (leftOffset : Z) (m : Marker.t) : bool :=
  within (Marker.start m + leftOffset) (MediaWrapper.viewOffset w) (Marker.end_ m).
Definition skipMarkers : list CustomMarker.t :=
  List.filter (fun m => MODE_TYPES.eqb (CustomMarker.mode m) MODE_TYPES.SKIP)
              (MediaWrapper.customMarkers w).
End Covers.

(** The state after one more thread was started. *)
Definition with_thread (t : thread) (s : Skipper) : Skipper :=
  set_started (started s ++ [t]) s.

(* ===================================================================== *)
(** ** What the admission filter is compared with *)

(** The content's own key and, where the content has them, the keys of its
    parent and of its grandparent. *)
Definition ancestryKeys (media : Media.t) : list Z :=
  Media.ratingKey media
  :: option_list (Media.parentRatingKey media)
  ++ option_list (Media.grandparentRatingKey media).

(** One of the three keys is on the list. *)
Definition keyHit (media : Media.t) (keys : list Z) : Prop :=
  exists k, k ∈ ancestryKeys media /\ k ∈ keys.

(** The same settings with empty key lists. *)
Definition without_key_lists (settings : Settings.t) : Settings.t :=
  let c := Settings.customEntries settings in
  {| Settings.leftOffset := Settings.leftOffset settings;
     Settings.rightOffset := Settings.rightOffset settings;
     Settings.mode := Settings.mode settings;
     Settings.types := Settings.types settings;
     Settings.ignoredlibraries := Settings.ignoredlibraries settings;
     Settings.skipE01 := Settings.skipE01 settings;
     Settings.skipS01E01 := Settings.skipS01E01 settings;
     Settings.skiplastchapter := Settings.skiplastchapter settings;
     Settings.skipunwatched := Settings.skipunwatched settings;
     Settings.skipnext := Settings.skipnext settings;
     Settings.durationOffset := Settings.durationOffset settings;
     Settings.volumelow := Settings.volumelow settings;
     Settings.volumehigh := Settings.volumehigh settings;
     Settings.customEntries :=
       {| CustomEntries.blockedUsers := CustomEntries.blockedUsers c;
          CustomEntries.allowedUsers := CustomEntries.allowedUsers c;
          CustomEntries.allowedClients := CustomEntries.allowedClients c;
          CustomEntries.blockedClients := CustomEntries.blockedClients c;
          CustomEntries.allowedSkipNext := CustomEntries.allowedSkipNext c;
          CustomEntries.blockedSkipNext := CustomEntries.blockedSkipNext c;
          CustomEntries.allowedKeys := [];
          CustomEntries.blockedKeys := [] |} |}.

(** A session is served from the local network: the lookup of its session
    key succeeds and the session reports the location [lan]. *)
Definition lan_session (sessions : result (list PlexSession.t)) (sessionKey : Z) : Prop :=
  exists mediaSession session,
    getMediaSession sessions sessionKey = Some mediaSession /\
    PlexSession.session mediaSession = Some session /\
    Session.location session = "lan"%string.

(** [s'] is [s] with some sessions evicted, and nothing else changed. *)
Definition only_evicts (s s' : Skipper) : Prop :=
  exists d, s' = set_media_sessions d s /\
            forall k, k ∈ Dict.keys d -> k ∈ Dict.keys (media_sessions s).

(** The client's product is in the table of broken clients and its version
    is at or above the version of the table. *)
Definition broken_client (p : PlexClient.t) : Prop :=
  exists bad version threshold,
    BROKEN_CLIENTS !! PlexClient.product p = Some bad /\
    parse_version (PlexClient.version p) = Return version /\
    parse_version bad = Return threshold /\
    Version.geb version threshold = true.

(* ===================================================================== *)
(** ** What the action threads are compared with *)

(** The session of [id] is no longer in the registry. *)
Definition evicted (id : PasId) (s : Skipper) : Skipper :=
  set_media_sessions (Dict.del id (media_sessions s)) s.

(** The session a thread acts on. *)
Definition thread_ref (th : thread) : ref :=
  match th with
  | SeekThread r _ => r
  | VolumeThread r _ _ => r
  end.

(** One attempt of the command of a thread on the client [q]: the body of
    the inner [try] of [seekPlayerTo] (with the target as clamped when the
    thread started in [s0]) or of [setPlayerVolume]. *)
Definition attempt (settings : Settings.t) (net : Remote) (th : thread) (s0 : Skipper)
    (q : PlexClient.t) : M bool :=
  match th with
  | SeekThread r targetOffset =>
      seekPlayerTo_try settings net q r (clampTarget (objects s0 r) targetOffset)
  | VolumeThread r volume lowering =>
      setPlayerVolume_try settings net q r volume lowering
  end.

(** The client after [recoverPlayer] rewrote its endpoint. *)
Definition direct (ports : gmap string Z) (protocol : string) (p : PlexClient.t)
    : PlexClient.t :=
  {| PlexClient.product := PlexClient.product p;
     PlexClient.version := PlexClient.version p;
     PlexClient.title := PlexClient.title p;
     PlexClient.machineIdentifier := PlexClient.machineIdentifier p;
     PlexClient.address := PlexClient.address p;
     PlexClient._baseurl :=
       (protocol ++ PlexClient.address p ++ ":"
        ++ pretty (default (default DEFAULT_CLIENT_PORT
                                    (CLIENT_PORTS !! PlexClient.product p))
                           (ports !! PlexClient.machineIdentifier p)))%string;
     PlexClient._proxyThroughServer := false |}.

(** A command sent to a client, as opposed to a call of [recoverPlayer]. *)
Definition is_command (e : event) : bool :=
  match e with
  | Recover _ => false
  | _ => true
  end.

(** The command a seek to [targetOffset] sends to the client [q]: a skip to
    the next item at the end of the content when skip-next is on, unless
    the content is the last item of its play queue. *)
Definition seekCommand (settings : Settings.t) (net : Remote) (w : MediaWrapper.t)
    (q : PlexClient.t) (targetOffset : Z) : result event :=
  if Settings.skipnext settings
     && (targetOffset >=? Media.duration (MediaWrapper.media w)
                          - Settings.durationOffset settings)
  then
    (let? atLast := if truthyZ (MediaWrapper.playQueueID w)
                    then lastOfPlayQueue net w else Return false in
     Return (if atLast then CmdSeekTo q targetOffset else CmdSkipNext q))%res
  else Return (CmdSeekTo q targetOffset).

(** What the client answers to a command. *)
Definition reply_to (net : Remote) (e : event) : result unit :=
  match e with
  | CmdSeekTo q offset => seekTo_reply net q offset
  | CmdSkipNext q => skipNext_reply net q
  | CmdSetVolume q volume => setVolume_reply net q volume
  | Recover _ => Return tt
  end.

(** The volume that [setPlayerVolume] caches: the one of the timeline, or
    the configured default for the direction. *)
Definition previousVolume (settings : Settings.t) (lowering : bool)
    (timeline : option (option Z)) : Z :=
  match timeline with
  | Some (Some timelineVolume) => timelineVolume
  | _ => if lowering then Settings.volumehigh settings else Settings.volumelow settings
  end.

(** The events a seek of the session [w] to [targetOffset] may leave on the
    wire: a seek to the clamped target, a skip to the next item, a
    recovery. *)
Definition seek_event (w : MediaWrapper.t) (targetOffset : Z) (e : event) : Prop :=
  match e with
  | CmdSeekTo _ offset => offset = clampTarget w targetOffset
  | CmdSkipNext _ | Recover _ => True
  | CmdSetVolume _ _ => False
  end.

(* ===================================================================== *)
(** ** What the control loop is compared with *)

(** [s'] is [s] with the threads [ths] started in addition. *)
Definition with_threads (ths : list thread) (s : Skipper) : Skipper :=
  set_started (started s ++ ths) s.

(** The session has had no update for longer than the timeout. *)
Definition stale (now : Q) (w : MediaWrapper.t) : Prop :=
  (inject_Z TIMEOUT < MediaWrapper.sinceLastUpdate now w)%Q.

(** The play queue of the session can be fetched and its last item is the
    content of the session. *)
Definition queue_ends_here (net : Remote) (w : MediaWrapper.t) : Prop :=
  MediaWrapper.playQueueID w <> 0 /\
  exists pq item,
    playQueue_reply net (MediaWrapper.playQueueID w) = Return pq /\
    PlayQueue.playQueueTotalCount pq <> 0 /\
    last (PlayQueue.items pq) = Some item /\
    Media.eqb item (MediaWrapper.media w) = true.

(** The session has no play queue, or it cannot be fetched, or it is empty,
    or its last item is another content. *)
Definition queue_goes_on (net : Remote) (w : MediaWrapper.t) : Prop :=
  MediaWrapper.playQueueID w = 0 \/
  (exists e, playQueue_reply net (MediaWrapper.playQueueID w) = Raise e) \/
  (exists pq,
     playQueue_reply net (MediaWrapper.playQueueID w) = Return pq /\
     (PlayQueue.playQueueTotalCount pq = 0 \/
      exists item, last (PlayQueue.items pq) = Some item /\
                   Media.eqb item (MediaWrapper.media w) = false)).

(* ===================================================================== *)
(** ** What the volume check is compared with *)

(** The volume state of a session: lowered or not, and the cached volume. *)
Definition volume_state (w : MediaWrapper.t) : bool * option Z :=
  (MediaWrapper.loweringVolume w, MediaWrapper.cachedVolume w).



(* ===================================================================== *)
(** ** What the filters, the registry and the runs are compared with *)

(** The same content, watched; and the same session with its content
    watched. *)
Definition watchedMedia (media : Media.t) : Media.t :=
  {| Media.type := Media.type media;
     Media.librarySectionTitle := Media.librarySectionTitle media;
     Media.episodeNumber := Media.episodeNumber media;
     Media.seasonNumber := Media.seasonNumber media;
     Media.isWatched := true;
     Media.ratingKey := Media.ratingKey media;
     Media.parentRatingKey := Media.parentRatingKey media;
     Media.grandparentRatingKey := Media.grandparentRatingKey media;
     Media.duration := Media.duration media |}.

Definition watched (w : MediaWrapper.t) : MediaWrapper.t :=
  MediaWrapper.mk
    (MediaWrapper.pasIdentifier w) (MediaWrapper.clientIdentifier w)
    (MediaWrapper.session w) (watchedMedia (MediaWrapper.media w)) (MediaWrapper.player w)
    (MediaWrapper.playQueueID w) (MediaWrapper.state w) (MediaWrapper.viewOffset w)
    (MediaWrapper.seeking w) (MediaWrapper.leftOffset w) (MediaWrapper.rightOffset w)
    (MediaWrapper.mode w) (MediaWrapper.customMarkers w) (MediaWrapper.chapters w)
    (MediaWrapper.markers w) (MediaWrapper.lastchapter w) (MediaWrapper.loweringVolume w)
    (MediaWrapper.cachedVolume w) (MediaWrapper.lastUpdate w) (MediaWrapper.customOnly w).

(** A first-episode rule lets the content through: the rule is not
    [NEVER], and under [WATCHED] the content was watched. *)
Definition rule_passes (rule : SKIP_TYPES.t) (media : Media.t) : Prop :=
  rule <> SKIP_TYPES.NEVER /\
  (rule = SKIP_TYPES.WATCHED -> Media.isWatched media = true).

(** A name that occurs in both lists; the empty name does not count
    ([any] tests the names themselves). *)
Definition shared_name (l1 l2 : list string) : Prop :=
  exists u, u ∈ l1 /\ u ∈ l2 /\ u <> ""%string.

(** The client of the session is on the list, by the title of its player
    or by its identifier. *)
Definition client_on (w : MediaWrapper.t) (p : PlexClient.t) (l : list string) : Prop :=
  PlexClient.title p ∈ l \/ MediaWrapper.clientIdentifier w ∈ l.

(** A custom lower-volume range that contains the position of [w], and a
    server marker, padded on both sides, that does. *)
Definition covers_custom_volume (w : MediaWrapper.t) (m : CustomMarker.t) : Prop :=
  In m (MediaWrapper.customMarkers w) /\ CustomMarker.mode m = MODE_TYPES.VOLUME /\
  CustomMarker.start m <= MediaWrapper.viewOffset w <= CustomMarker.end_ m.

Definition covers_marker_padded (w : MediaWrapper.t) (leftOffset rightOffset : Z)
    (m : Marker.t) : Prop :=
  In m (MediaWrapper.markers w) /\
  Marker.start m + leftOffset <= MediaWrapper.viewOffset w <= Marker.end_ m + rightOffset.

(** The registry is well formed: no identity is filed twice, and every
    entry refers to an object that exists and is filed under the identity
    of that object. *)
Definition registry_ok (s : Skipper) : Prop :=
  NoDup (Dict.keys (media_sessions s)) /\
  forall k r, (k, r) ∈ media_sessions s ->
    MediaWrapper.pasIdentifier (objects s r) = k /\ (r < fresh_ref s)%nat.

(** [s'] comes from [s] without an admission: sessions may have been
    evicted and objects updated, but no session was added or ignored, no
    object was created and no object changed its identity. *)
Definition evolves (s s' : Skipper) : Prop :=
  media_sessions s' `sublist_of` media_sessions s
  /\ ignored s' = ignored s
  /\ fresh_ref s' = fresh_ref s
  /\ forall r, MediaWrapper.pasIdentifier (objects s' r)
               = MediaWrapper.pasIdentifier (objects s r).

(** From [s] to [s'] at most [n] threads were started, all of them on the
    session object [r]; nothing was sent, and no object, nor the ignore
    list, nor the clock has changed. *)
Definition spawns (r : ref) (n : nat) (s s' : Skipper) : Prop :=
  (exists ths, started s' = started s ++ ths /\ (length ths <= n)%nat /\
               forall th, th ∈ ths -> thread_ref th = r)
  /\ wire s' = wire s /\ objects s' = objects s /\ ignored s' = ignored s
  /\ now s' = now s /\ fresh_ref s' = fresh_ref s.

(** The state after the session object [r] was filed in the registry, and
    after its identity was put on the ignore list. *)
Definition filed (r : ref) (s : Skipper) : Skipper :=
  set_media_sessions
    (Dict.set (MediaWrapper.pasIdentifier (objects s r)) r (media_sessions s)) s.

Definition put_aside (r : ref) (s : Skipper) : Skipper :=
  set_ignored (lastn IGNORED_CAP (ignored s ++ [MediaWrapper.pasIdentifier (objects s r)])) s.

(** [s0] is [s] with one more object, made from [w]: the object has the
    next free reference and the identity of [w]. *)
Definition allocated (w : MediaWrapper.t) (s s0 : Skipper) : Prop :=
  media_sessions s0 = media_sessions s /\ ignored s0 = ignored s
  /\ started s0 = started s /\ wire s0 = wire s /\ now s0 = now s
  /\ fresh_ref s0 = S (fresh_ref s)
  /\ (forall r, r <> fresh_ref s -> objects s0 r = objects s r)
  /\ MediaWrapper.pasIdentifier (objects s0 (fresh_ref s)) = MediaWrapper.pasIdentifier w.

(** The outcome of an admission of the object [r], started in [s0]: after
    evictions and the start of threads on [r], the object was filed, or put
    aside, or neither (the admission raised). *)
Definition admission (r : ref) (s0 s' : Skipper) : Prop :=
  exists s1, evolves s0 s1 /\ spawns r 3 s0 s1 /\
    (s' = s1 \/ s' = filed r s1 \/ s' = put_aside r s1).

(** The constructor names a wrapper after the session and the client it is
    made for. *)
Definition names_sessions
    (newMediaWrapper : PlexSession.t -> string -> string -> Z -> result MediaWrapper.t)
    : Prop :=
  forall mediaSession clientIdentifier state playQueueID w,
    newMediaWrapper mediaSession clientIdentifier state playQueueID = Return w ->
    MediaWrapper.pasIdentifier w
    = getSessionClientIdentifier (PlexSession.sessionKey mediaSession) clientIdentifier.

(** No identity is both tracked and ignored. *)
Definition tracked_apart (s : Skipper) : Prop :=
  forall k, k ∈ Dict.keys (media_sessions s) -> k ∉ ignored s.

(** From [s] to [s'] at most [n] threads were started for each session
    object of [l], and none for another; nothing was sent, and no object,
    nor the ignore list, nor the clock has changed. *)
Definition pass (l : list ref) (n : nat) (s s' : Skipper) : Prop :=
  (exists ths, started s' = started s ++ ths /\ (length ths <= n * length l)%nat /\
               forall th, th ∈ ths -> thread_ref th ∈ l)
  /\ wire s' = wire s /\ objects s' = objects s /\ ignored s' = ignored s
  /\ now s' = now s /\ fresh_ref s' = fresh_ref s.

(** The session object [r] is due for eviction: not seeking, and stale. *)
Definition expired (s : Skipper) (r : ref) : Prop :=
  MediaWrapper.seeking (objects s r) = false /\ stale (now s) (objects s r).

(** The command of a thread, without the eviction that follows it when an
    exception escapes: [seekPlayerTo] or [setPlayerVolume] on the player of
    the session. *)
Definition thread_command (settings : Settings.t) (net : Remote) (th : thread)
    : M bool :=
  fun s =>
    match th with
    | SeekThread r t =>
        seekPlayerTo settings net (MediaWrapper.player (objects s r)) r t s
    | VolumeThread r v l =>
        setPlayerVolume settings net (MediaWrapper.player (objects s r)) r v l s
    end.

(** From [s] to [s'] only the session object [r] and the wire have
    changed, and [r] has kept its identity. *)
Definition touches_only (r : ref) (s s' : Skipper) : Prop :=
  (forall r', r' <> r -> objects s' r' = objects s r')
  /\ MediaWrapper.pasIdentifier (objects s' r) = MediaWrapper.pasIdentifier (objects s r)
  /\ media_sessions s' = media_sessions s /\ ignored s' = ignored s
  /\ started s' = started s /\ now s' = now s /\ fresh_ref s' = fresh_ref s.

(** The last-chapter shortcut is configured and the session has a last
    chapter, but its content has no duration. *)
Definition divides_by_zero (settings : Settings.t) (w : MediaWrapper.t) : Prop :=
  truthyF (Settings.skiplastchapter settings) = true
  /\ (exists lastchapter, MediaWrapper.lastchapter w = Some lastchapter)
  /\ Media.duration (MediaWrapper.media w) = 0.

(** A step of the control loop alone: a pass over the sessions, or time
    passing. *)
Definition loop_step (l : label) : Prop :=
  match l with
  | Tick | Wait _ => True
  | _ => False
  end.

(** No two tracked sessions are on the same client. *)
Definition clients_distinct (s : Skipper) : Prop :=
  NoDup (map (fun r => MediaWrapper.clientIdentifier (objects s r))
             (Dict.values (media_sessions s))).

(** The session object [r] is ready for [addSession]: it exists, it has a
    usable player, and it is the session of that player. *)
Definition admissible (s : Skipper) (r : ref) (p : PlexClient.t) : Prop :=
  (r < fresh_ref s)%nat
  /\ MediaWrapper.player (objects s r) = Some p
  /\ validPlayer p = Return true
  /\ MediaWrapper.clientIdentifier (objects s r) = PlexClient.machineIdentifier p.

(* ===================================================================== *)
(** * Properties *)

Ltac munfold :=
  unfold deref, mutate, start_thread, emit in *;
  unfold bind, ret, raise, lift, gets, modify, try_except in *; cbv beta iota in *.

Lemma within_spec a v b : within a v b = true <-> a <= v <= b.
Proof. unfold within. rewrite andb_true_iff, !Z.leb_le. tauto. Qed.

Lemma mode_eqb_spec a b : MODE_TYPES.eqb a b = true <-> a = b.
Proof. destruct a, b; simpl; split; congruence. Qed.

(** A loop that returns at its first match finds one whenever one exists. *)
Lemma find_complete {A} (f : A -> bool) (l : list A) :
  (exists x, In x l /\ f x = true) -> exists y, List.find f l = Some y.
Proof.
  intros (x & Hin & Hx). destruct (List.find f l) eqn:E; eauto.
  rewrite (find_none _ _ E x Hin) in Hx. discriminate.
Qed.

Lemma find_absent {A} (f : A -> bool) (l : list A) :
  (forall x, In x l -> f x = false) -> List.find f l = None.
Proof.
  intros H. destruct (List.find f l) eqn:E; auto.
  apply find_some in E as [Hin Hx]. rewrite (H _ Hin) in Hx. discriminate.
Qed.

(** ** The seeking guard *)

(** C4: a check of a session whose [seeking] flag is set returns at once:
    no thread is started (no seek, no volume change, no skip-next), nothing
    is sent and the registry is left as it is. *)
Theorem checkMedia_seeking_returns (settings : Settings.t) (r : ref) (s : Skipper) :
  MediaWrapper.seeking (objects s r) = true ->
  checkMedia settings r s = (Return tt, s).
Proof.
  intros Hseek. unfold checkMedia. munfold. rewrite Hseek. reflexivity.
Qed.

Lemma checkMedia_seeking_returns_witness :
  let s := Scenario.process true (Scenario.wrapper (Some Scenario.roku) 590000 true) 100%Q in
  checkMedia Scenario.settings 0%nat s = (Return tt, s).
Proof.
  intros s. apply (checkMedia_seeking_returns Scenario.settings 0%nat s). reflexivity.
Defined.

(** ** Precedence of the marker sources in the skip check *)

Section SkipCheck.
Variable settings : Settings.t.
Variables (r : ref) (leftOffset rightOffset : Z) (s : Skipper).
Let w := objects s r.

Lemma custom_found m : List.find (customRange w) (skipMarkers w) = Some m -> covers_custom w m.
Proof.
  intros E. apply find_some in E as [Hin Hr].
  apply filter_In in Hin as [Hin Hm].
  split; [auto | split; [now apply mode_eqb_spec | now apply within_spec]].
Qed.

Lemma custom_find_some :
  (exists m, covers_custom w m) -> exists m, List.find (customRange w) (skipMarkers w) = Some m.
Proof.
  intros (m & Hin & Hm & Hr). apply find_complete. exists m. split.
  - apply filter_In. split; auto. now apply mode_eqb_spec.
  - now apply within_spec.
Qed.

Lemma custom_find_none :
  (forall m, ~ covers_custom w m) -> List.find (customRange w) (skipMarkers w) = None.
Proof.
  intros H. apply find_absent. intros m Hin.
  apply filter_In in Hin as [Hin Hm].
  destruct ((customRange w) m) eqn:E; auto. exfalso. apply (H m).
  split; [auto | split; [now apply mode_eqb_spec | now apply within_spec]].
Qed.

Lemma chapter_found c :
  List.find (chapterRange w) (MediaWrapper.chapters w) = Some c -> covers_chapter w c.
Proof.
  intros E. apply find_some in E as [Hin Hr]. split; auto. now apply within_spec.
Qed.

Lemma chapter_find_none :
  (forall c, ~ covers_chapter w c) ->
  List.find (chapterRange w) (MediaWrapper.chapters w) = None.
Proof.
  intros H. apply find_absent. intros c Hin.
  destruct ((chapterRange w) c) eqn:E; auto. exfalso. apply (H c).
  split; auto. now apply within_spec.
Qed.

Lemma marker_found m :
  List.find (markerRange w leftOffset) (MediaWrapper.markers w) = Some m -> covers_marker w leftOffset m.
Proof.
  intros E. apply find_some in E as [Hin Hr]. split; auto. now apply within_spec.
Qed.

(** The skip check, as the sequence of its four sources. *)
Lemma checkMediaSkip_unfold :
  checkMediaSkip settings r leftOffset rightOffset s =
  match List.find (customRange w) (skipMarkers w) with
  | Some m => (Return tt, with_thread (SeekThread r (CustomMarker.end_ m)) s)
  | None =>
    if negb (MODE_TYPES.eqb (MediaWrapper.mode w) MODE_TYPES.SKIP) then (Return tt, s)
    else match lastchapter_enabled settings w with
         | Raise e => (Raise e, s)
         | Return enabled =>
           if enabled && in_lastchapter w
           then (Return tt,
                 with_thread (SeekThread r (Media.duration (MediaWrapper.media w))) s)
           else match List.find (chapterRange w) (MediaWrapper.chapters w) with
                | Some c => (Return tt, with_thread (SeekThread r (Chapter.end_ c)) s)
                | None =>
                  match List.find (markerRange w leftOffset) (MediaWrapper.markers w) with
                  | Some m =>
                      (Return tt,
                       with_thread (SeekThread r (Marker.end_ m + rightOffset)) s)
                  | None => (Return tt, s)
                  end
                end
         end
  end.
Proof.
  unfold checkMediaSkip, seekTo. munfold.
  fold w. fold (customRange w) (skipMarkers w).
  destruct (List.find (customRange w) (skipMarkers w)); [reflexivity|].
  destruct (negb _); [reflexivity|].
  destruct (lastchapter_enabled settings w) as [enabled|e]; [|reflexivity].
  destruct (enabled && in_lastchapter w); [reflexivity|].
  fold (chapterRange w). destruct (List.find (chapterRange w) _); [reflexivity|].
  fold (markerRange w leftOffset). destruct (List.find (markerRange w leftOffset) _); reflexivity.
Qed.

End SkipCheck.

(** C2, as amended: the skip check tries its sources in the order custom
    skip ranges, last-chapter shortcut, generated chapter ranges, server
    markers, and the first source that matches decides the seek target,
    whatever the later sources contain. *)
Theorem checkMediaSkip_precedence (settings : Settings.t) (r : ref)
    (leftOffset rightOffset : Z) (s : Skipper) :
  let w := objects s r in
  let check := checkMediaSkip settings r leftOffset rightOffset s in
  let standard :=
    (forall m, ~ covers_custom w m) /\ MediaWrapper.mode w = MODE_TYPES.SKIP in
  let noShortcut :=
    exists enabled, lastchapter_enabled settings w = Return enabled /\
                    enabled && in_lastchapter w = false in
  ((exists m, covers_custom w m) ->
   exists m, covers_custom w m /\
             check = (Return tt, with_thread (SeekThread r (CustomMarker.end_ m)) s))
  /\
  (standard -> lastchapter_enabled settings w = Return true -> in_lastchapter w = true ->
   check = (Return tt, with_thread (SeekThread r (Media.duration (MediaWrapper.media w))) s))
  /\
  (standard -> noShortcut -> (exists c, covers_chapter w c) ->
   exists c, covers_chapter w c /\
             check = (Return tt, with_thread (SeekThread r (Chapter.end_ c)) s))
  /\
  (standard -> noShortcut -> (forall c, ~ covers_chapter w c) ->
   (exists m, covers_marker w leftOffset m) ->
   exists m, covers_marker w leftOffset m /\
             check = (Return tt, with_thread (SeekThread r (Marker.end_ m + rightOffset)) s)).
Proof.
  intros w check standard noShortcut. subst check standard noShortcut w.
  rewrite checkMediaSkip_unfold.
  split; [|split; [|split]].
  - intros Hex. destruct (custom_find_some r s Hex) as [m Hm].
    exists m. rewrite Hm. split; [|reflexivity]. now apply custom_found.
  - intros [Hno Hmode] Hen Hin.
    rewrite (custom_find_none r s Hno), Hmode, Hen, Hin. reflexivity.
  - intros [Hno Hmode] (enabled & Hen & Hoff) (c & Hc).
    rewrite (custom_find_none r s Hno), Hmode, Hen, Hoff. simpl.
    destruct (find_complete (chapterRange (objects s r))
                (MediaWrapper.chapters (objects s r))) as [c' Hc'].
    { exists c. destruct Hc as [Hin Hr]. split; auto. now apply within_spec. }
    rewrite Hc'. exists c'. split; [|reflexivity]. now apply chapter_found.
  - intros [Hno Hmode] (enabled & Hen & Hoff) Hnoc (m & Hm).
    rewrite (custom_find_none r s Hno), Hmode, Hen, Hoff. simpl.
    rewrite (chapter_find_none r s Hnoc).
    destruct (find_complete (markerRange (objects s r) leftOffset)
                (MediaWrapper.markers (objects s r))) as [m' Hm'].
    { exists m. destruct Hm as [Hin Hr]. split; auto. now apply within_spec. }
    rewrite Hm'. exists m'. split; [|reflexivity]. now apply (marker_found r leftOffset s).
Qed.

(** At 560000 the credits marker (target 590000) and the last chapter
    (target: the duration, 600000) both match: the shortcut wins. *)
Lemma checkMediaSkip_precedence_witness :
  let s := Scenario.process true (Scenario.wrapper_credits 560000) 1%Q in
  checkMediaSkip Scenario.settings_lastchapter 0%nat 0 0 s
  = (Return tt, with_thread (SeekThread 0%nat 600000) s).
Proof.
  intros s.
  destruct (checkMediaSkip_precedence Scenario.settings_lastchapter 0%nat 0 0 s)
    as (_ & Hshortcut & _).
  apply Hshortcut.
  - split; [|reflexivity]. intros m (Hin & _). destruct Hin.
  - vm_compute. reflexivity.
  - reflexivity.
Defined.

(** C2, as stated, fails: the position 560000 is inside a server marker
    whose target is 590000 and inside the last chapter; were markers to
    take precedence over the shortcut the seek would go to 590000, and it
    goes to the end of the content. *)
Lemma marker_does_not_precede_lastchapter :
  let s := Scenario.process true (Scenario.wrapper_credits 560000) 1%Q in
  let w := objects s 0%nat in
  (exists m, covers_marker w 0 m /\ Marker.end_ m + 0 = 590000) /\
  (forall m, ~ covers_custom w m) /\ (forall c, ~ covers_chapter w c) /\
  started (snd (checkMediaSkip Scenario.settings_lastchapter 0%nat 0 0 s))
  = [SeekThread 0%nat 600000].
Proof.
  intros s w. split; [|split; [|split]].
  - eexists. split; [split; [left; reflexivity | vm_compute; split; discriminate]
                    | reflexivity].
  - intros m (Hin & _). destruct Hin.
  - intros c (Hin & _). destruct Hin.
  - vm_compute. reflexivity.
Qed.

(** ** Key-based admission *)

Section Admission.
Variable settings : Settings.t.
Variable lower : string -> string.
Variable w : MediaWrapper.t.
Let media := MediaWrapper.media w.
Let allowedKeys := CustomEntries.allowedKeys (Settings.customEntries settings).
Let blockedKeys := CustomEntries.blockedKeys (Settings.customEntries settings).

Lemma hasKeyIn_spec (k : option Z) (keys : list Z) :
  hasKeyIn k keys = true <-> exists x, k = Some x /\ x ∈ keys.
Proof.
  unfold hasKeyIn, inZ. destruct k as [x|].
  - rewrite bool_decide_eq_true. split; [eauto | now intros (? & [= <-] & ?)].
  - split; [discriminate | now intros (? & ? & _)].
Qed.

Lemma in_option_list (x : Z) (o : option Z) : x ∈ option_list o <-> o = Some x.
Proof.
  destruct o as [y|]; simpl.
  - rewrite list_elem_of_singleton. split; congruence.
  - split; [intros H; inversion H | discriminate].
Qed.

Lemma keyHit_spec (keys : list Z) :
  keyHit media keys <->
  inZ (Media.ratingKey media) keys
  || hasKeyIn (Media.parentRatingKey media) keys
  || hasKeyIn (Media.grandparentRatingKey media) keys = true.
Proof.
  rewrite !orb_true_iff, !hasKeyIn_spec. unfold inZ, keyHit, ancestryKeys.
  rewrite bool_decide_eq_true. split.
  - intros (k & Hk & Hin).
    rewrite elem_of_cons, elem_of_app, !in_option_list in Hk.
    destruct Hk as [-> | [Hk | Hk]]; eauto.
  - intros [[H | (x & Hx & H)] | (x & Hx & H)].
    + exists (Media.ratingKey media). split; [left | assumption].
    + exists x. split; [|assumption].
      rewrite elem_of_cons, elem_of_app, !in_option_list. auto.
    + exists x. split; [|assumption].
      rewrite elem_of_cons, elem_of_app, !in_option_list. auto.
Qed.

(** What the stage of the keys lets through. *)
Lemma shouldAdd_true_keys :
  shouldAdd settings lower w = true ->
  inZ (Media.ratingKey media) blockedKeys
  || hasKeyIn (Media.parentRatingKey media) blockedKeys
  || hasKeyIn (Media.grandparentRatingKey media) blockedKeys = false
  /\ (allowedKeys = [] \/
      inZ (Media.ratingKey media) allowedKeys
      || hasKeyIn (Media.parentRatingKey media) allowedKeys
      || hasKeyIn (Media.grandparentRatingKey media) allowedKeys = true).
Proof.
  unfold shouldAdd, customEntries. fold media allowedKeys blockedKeys.
  generalize (inZ (Media.ratingKey media) blockedKeys)
             (hasKeyIn (Media.parentRatingKey media) blockedKeys)
             (hasKeyIn (Media.grandparentRatingKey media) blockedKeys).
  generalize (inZ (Media.ratingKey media) allowedKeys)
             (hasKeyIn (Media.parentRatingKey media) allowedKeys)
             (hasKeyIn (Media.grandparentRatingKey media) allowedKeys).
  intros a1 a2 a3 b1 b2 b3.
  destruct (negb (inS _ _)); [discriminate|].
  destruct (truthyS _ && _); [discriminate|].
  destruct (negb _); [discriminate|].
  destruct b1, b2, b3; try discriminate; simpl.
  all: destruct allowedKeys; auto.
  all: destruct a1, a2, a3; simpl; try discriminate; auto.
Qed.

(** Without a block hit and with an allow hit, the stage of the keys has
    no say. *)
Lemma shouldAdd_keys_pass :
  inZ (Media.ratingKey media) blockedKeys
  || hasKeyIn (Media.parentRatingKey media) blockedKeys
  || hasKeyIn (Media.grandparentRatingKey media) blockedKeys = false ->
  inZ (Media.ratingKey media) allowedKeys
  || hasKeyIn (Media.parentRatingKey media) allowedKeys
  || hasKeyIn (Media.grandparentRatingKey media) allowedKeys = true ->
  shouldAdd settings lower w = shouldAdd (without_key_lists settings) lower w.
Proof.
  unfold shouldAdd, customEntries, without_key_lists. simpl.
  fold media allowedKeys blockedKeys.
  intros Hb Ha. apply orb_false_elim in Hb as [Hb Hb3].
  apply orb_false_elim in Hb as [Hb1 Hb2]. rewrite Hb1, Hb2, Hb3.
  assert (Hin : forall k, inZ k [] = false) by (intros k; apply bool_decide_eq_false, not_elem_of_nil).
  assert (Hhas : forall k, hasKeyIn k [] = false) by (intros [k|]; simpl; auto).
  rewrite ?Hin, ?Hhas.
  destruct (inZ (Media.ratingKey media) allowedKeys),
           (hasKeyIn (Media.parentRatingKey media) allowedKeys),
           (hasKeyIn (Media.grandparentRatingKey media) allowedKeys);
    try discriminate; simpl; rewrite ?andb_false_r; reflexivity.
Qed.

End Admission.

(** C6: in the admission by keys, a block-list hit on the content's own
    key, on its parent's or on its grandparent's rejects the session, also
    when one of these keys is on the allow list; with an allow list
    configured and none of the three keys on it the session is rejected;
    and an allow hit only counts once every block check has failed: an
    admitted session has no block hit, and with an allow hit and no block
    hit the decision is the one taken without any key list. *)
Theorem shouldAdd_key_lists (settings : Settings.t) (lower : string -> string)
    (w : MediaWrapper.t) :
  let media := MediaWrapper.media w in
  let allowedKeys := CustomEntries.allowedKeys (Settings.customEntries settings) in
  let blockedKeys := CustomEntries.blockedKeys (Settings.customEntries settings) in
  (keyHit media blockedKeys -> shouldAdd settings lower w = false)
  /\ (allowedKeys <> [] -> ~ keyHit media allowedKeys -> shouldAdd settings lower w = false)
  /\ (shouldAdd settings lower w = true ->
      ~ keyHit media blockedKeys /\ (allowedKeys = [] \/ keyHit media allowedKeys))
  /\ (~ keyHit media blockedKeys -> keyHit media allowedKeys ->
      shouldAdd settings lower w = shouldAdd (without_key_lists settings) lower w).
Proof.
  intros media allowedKeys blockedKeys. subst media allowedKeys blockedKeys.
  set (media := MediaWrapper.media w).
  set (allowedKeys := CustomEntries.allowedKeys (Settings.customEntries settings)).
  set (blockedKeys := CustomEntries.blockedKeys (Settings.customEntries settings)).
  assert (Hadmit : shouldAdd settings lower w = true ->
                   ~ keyHit media blockedKeys /\ (allowedKeys = [] \/ keyHit media allowedKeys)).
  { intros H. apply shouldAdd_true_keys in H as [Hb Ha]. split.
    - intros Hhit. apply (keyHit_spec w) in Hhit.
      subst media blockedKeys. rewrite Hhit in Hb. discriminate.
    - destruct Ha as [Ha | Ha]; [now left | right; now apply (keyHit_spec w)]. }
  split; [|split; [|split]].
  - intros Hhit. destruct (shouldAdd settings lower w) eqn:E; [|reflexivity].
    destruct (Hadmit eq_refl) as [Hno _]. contradiction.
  - intros Hne Hno. destruct (shouldAdd settings lower w) eqn:E; [|reflexivity].
    destruct (Hadmit eq_refl) as [_ [Hnil | Hhit]]; contradiction.
  - exact Hadmit.
  - intros Hno Hhit. apply shouldAdd_keys_pass.
    + destruct (_ || _ || _) eqn:E; [|reflexivity].
      exfalso. apply Hno. now apply (keyHit_spec w).
    + now apply (keyHit_spec w).
Qed.

(** The episode 101 of the show 1: its own key is allowed, the key of the
    show is blocked, and the session is rejected. *)
Lemma shouldAdd_key_lists_witness :
  keyHit Scenario.episode [101] /\
  shouldAdd Scenario.settings_keys ascii_lower (Scenario.wrapper (Some Scenario.roku) 590000 false)
  = false.
Proof.
  split.
  - exists 101. split; [left | left].
  - apply (proj1 (shouldAdd_key_lists Scenario.settings_keys ascii_lower
                    (Scenario.wrapper (Some Scenario.roku) 590000 false))).
    exists 1. split; [|left]. right. right. left.
Defined.

(** ** Events of sessions that are not on the local network *)

(** C10: a "playing" event creates or updates a session only when the
    lookup of its session succeeds and reports the location [lan]. An event
    for which it does not is dropped: the registry, the ignore list and
    every tracked session are left as they were, so that a later event for
    the same identity is evaluated as if this one had never arrived. *)
Theorem processAlert_outside_lan (settings : Settings.t) (lower : string -> string)
    (newMediaWrapper : PlexSession.t -> string -> string -> Z -> result MediaWrapper.t)
    (data : Alert.t) (sessions : result (list PlexSession.t)) (s : Skipper) :
  ~ lan_session sessions (Alert.sessionKey data) ->
  processAlert settings lower newMediaWrapper data sessions s = (Return tt, s).
Proof.
  intros Hnot. unfold processAlert.
  destruct (String.eqb (Alert.type data) "playing"); [|reflexivity].
  munfold. destruct (bool_decide _); [reflexivity|].
  destruct (getMediaSession sessions (Alert.sessionKey data)) as [mediaSession|] eqn:Hget;
    [|reflexivity].
  destruct (PlexSession.session mediaSession) as [session|] eqn:Hsession; [|reflexivity].
  destruct (String.eqb (Session.location session) "lan") eqn:Hlan; [|reflexivity].
  exfalso. apply Hnot. exists mediaSession, session.
  repeat split; auto. now apply String.eqb_eq.
Qed.

(** A first event for a session that is served over a relay. *)
Lemma processAlert_outside_lan_witness :
  let s := Scenario.process false (Scenario.wrapper (Some Scenario.roku) 0 false) 1%Q in
  let data := {| Alert.type := "playing"; Alert.sessionKey := 7; Alert.state := "playing";
                 Alert.clientIdentifier := "client-1"; Alert.playQueueID := 55 |} in
  processAlert Scenario.settings ascii_lower (fun _ _ _ _ => Raise OtherError) data
               (Return [Scenario.plexSession "wan"]) s
  = (Return tt, s).
Proof.
  intros s data.
  apply (processAlert_outside_lan Scenario.settings ascii_lower (fun _ _ _ _ => Raise OtherError)
           data (Return [Scenario.plexSession "wan"]) s).
  intros (mediaSession & session & Hget & Hsession & Hlan).
  vm_compute in Hget. injection Hget as <-.
  vm_compute in Hsession. injection Hsession as <-.
  vm_compute in Hlan. discriminate.
Defined.

(** ** The registry *)

Lemma set_media_sessions_id (s : Skipper) : set_media_sessions (media_sessions s) s = s.
Proof. destruct s; reflexivity. Qed.

Lemma only_evicts_refl (s : Skipper) : only_evicts s s.
Proof. exists (media_sessions s). split; [symmetry; apply set_media_sessions_id | auto]. Qed.

Lemma Dict_keys_del {V} (k k' : PasId) (d : Dict.t V) :
  k' ∈ Dict.keys (Dict.del k d) <-> k' ∈ Dict.keys d /\ k' <> k.
Proof.
  unfold Dict.keys, Dict.del. rewrite !list_elem_of_In, !in_map_iff. split.
  - intros ([k0 v] & <- & Hin). apply filter_In in Hin as [Hin Hne]. simpl in *.
    split; [exists (k0, v); auto|].
    apply negb_true_iff, bool_decide_eq_false in Hne. exact Hne.
  - intros [([k0 v] & <- & Hin) Hne]. exists (k0, v). split; [reflexivity|].
    apply filter_In. split; [assumption|]. simpl in *.
    now apply negb_true_iff, bool_decide_eq_false.
Qed.

Lemma removeSession_eq (r : ref) (s : Skipper) :
  removeSession r s =
  (Return tt,
   if Dict.mem (MediaWrapper.pasIdentifier (objects s r)) (media_sessions s)
   then set_media_sessions
          (Dict.del (MediaWrapper.pasIdentifier (objects s r)) (media_sessions s)) s
   else s).
Proof.
  unfold removeSession. munfold.
  destruct (Dict.mem (MediaWrapper.pasIdentifier (objects s r)) (media_sessions s));
    reflexivity.
Qed.

Lemma removeSession_evicts (r : ref) (s : Skipper) :
  exists s', removeSession r s = (Return tt, s') /\ only_evicts s s'.
Proof.
  eexists. split; [apply removeSession_eq|].
  destruct (Dict.mem (MediaWrapper.pasIdentifier (objects s r)) (media_sessions s));
    [|apply only_evicts_refl].
  eexists. split; [reflexivity|]. intros k Hk. now apply Dict_keys_del in Hk.
Qed.

Lemma purgeLoop_evicts (w : MediaWrapper.t) (p : PlexClient.t) (l : list ref) (s : Skipper) :
  MediaWrapper.player w = Some p ->
  exists s', purgeLoop w l s = (Return tt, s') /\ only_evicts s s'.
Proof.
  intros Hp. induction l as [|r l IH]; simpl.
  - eexists. split; [reflexivity | apply only_evicts_refl].
  - munfold. unfold player_machineIdentifier. rewrite Hp.
    destruct (String.eqb _ _); [apply removeSession_evicts | exact IH].
Qed.

Lemma purgeOldSessions_evicts (r : ref) (p : PlexClient.t) (s : Skipper) :
  MediaWrapper.player (objects s r) = Some p ->
  exists s', purgeOldSessions r s = (Return tt, s') /\ only_evicts s s'.
Proof.
  intros Hp. unfold purgeOldSessions. munfold. now apply (purgeLoop_evicts _ p).
Qed.

(** The identity that was appended last survives the cap. *)
Lemma lastn_keeps_last {A} (n : nat) (l : list A) (x : A) :
  (0 < n)%nat -> x ∈ lastn n (l ++ [x]).
Proof.
  intros Hn. unfold lastn. rewrite length_app. simpl.
  rewrite drop_app_le by lia. apply elem_of_app. right. left.
Qed.

Lemma ignoreSession_spec (r : ref) (p : PlexClient.t) (s : Skipper) :
  MediaWrapper.player (objects s r) = Some p ->
  exists s1, only_evicts s s1 /\
    ignoreSession r s =
    (Return tt,
     set_ignored (lastn IGNORED_CAP (ignored s ++ [MediaWrapper.pasIdentifier (objects s r)]))
                 s1).
Proof.
  intros Hp. unfold ignoreSession.
  destruct (purgeOldSessions_evicts r p s Hp) as (s1 & Hpurge & Hev).
  exists s1. split; [assumption|]. munfold. rewrite Hpurge.
  destruct Hev as (d & -> & _). reflexivity.
Qed.

Lemma broken_client_invalid (p : PlexClient.t) :
  broken_client p -> validPlayer p = Return false.
Proof.
  intros (bad & version & threshold & Hbad & Hv & Hb & Hge).
  unfold validPlayer. rewrite Hbad.
  assert (Hne : forall x v, parse_version x = Return v -> truthyS x = true).
  { intros [|c x] v0; [discriminate | reflexivity]. }
  rewrite (Hne _ _ Hv), (Hne _ _ Hb). simpl. rewrite Hv, Hb. simpl. now rewrite Hge.
Qed.

Lemma addSession_broken (settings : Settings.t) (r : ref) (p : PlexClient.t) (s : Skipper) :
  MediaWrapper.player (objects s r) = Some p ->
  broken_client p ->
  exists s', addSession settings r s = (Return tt, s') /\
             (forall k, k ∈ Dict.keys (media_sessions s') ->
                        k ∈ Dict.keys (media_sessions s)) /\
             MediaWrapper.pasIdentifier (objects s r) ∈ ignored s'.
Proof.
  intros Hp Hbroken. unfold addSession. munfold. rewrite Hp.
  rewrite (broken_client_invalid p Hbroken).
  destruct (ignoreSession_spec r p s Hp) as (s1 & (d & -> & Hd) & ->).
  eexists. split; [reflexivity|]. split; [exact Hd|].
  simpl. apply lastn_keeps_last. unfold IGNORED_CAP. lia.
Qed.

(** Whatever the event, a client that is broken is not admitted. *)
Lemma processAlert_broken (settings : Settings.t) (lower : string -> string)
    (newMediaWrapper : PlexSession.t -> string -> string -> Z -> result MediaWrapper.t)
    (data : Alert.t) (sessions : result (list PlexSession.t)) (s : Skipper) :
  (forall mediaSession c st q w,
     newMediaWrapper mediaSession c st q = Return w ->
     exists p, MediaWrapper.player w = Some p /\ broken_client p) ->
  forall k,
    k ∈ Dict.keys (media_sessions
                     (snd (processAlert settings lower newMediaWrapper data sessions s))) ->
    k ∈ Dict.keys (media_sessions s).
Proof.
  intros Hnew k. unfold processAlert.
  destruct (String.eqb (Alert.type data) "playing"); [|auto].
  munfold. destruct (bool_decide _); [auto|].
  destruct (getMediaSession sessions (Alert.sessionKey data)) as [mediaSession|]; [|auto].
  destruct (PlexSession.session mediaSession) as [session|]; [|auto].
  destruct (String.eqb (Session.location session) "lan"); [|auto].
  destruct (negb _).
  - destruct (newMediaWrapper _ _ _ _) as [w|e] eqn:Hw; [|auto].
    destruct (Hnew _ _ _ _ _ Hw) as (p & Hp & Hbroken).
    unfold new_object.
    set (s1 := set_fresh_ref (S (fresh_ref s)) (set_object (fresh_ref s) w s)).
    assert (Hobj : objects s1 (fresh_ref s) = w) by apply fn_lookup_insert.
    destruct (blockedClientUser settings w) as [blocked|e]; [|auto].
    destruct blocked; simpl; [auto|].
    destruct (shouldAdd settings lower w).
    + destruct (addSession_broken settings (fresh_ref s) p s1) as (s' & -> & Hk & _);
        [now rewrite Hobj | assumption | exact (Hk k)].
    + destruct (0 <? _)%nat.
      * set (s2 := set_object _ _ s1).
        destruct (addSession_broken settings (fresh_ref s) p s2) as (s' & -> & Hk & _);
          [ | assumption | exact (Hk k)].
        subst s2. simpl. rewrite !fn_lookup_insert. exact Hp.
      * destruct (ignoreSession_spec (fresh_ref s) p s1) as (s' & (d & -> & Hd) & ->);
          [now rewrite Hobj | exact (Hd k)].
  - destruct (Dict.get _ _); auto.
Qed.

(** ** Broken clients *)

(** C9: a session whose client is in the table of broken clients, with a
    version at or above the one of the table, is not admitted: [addSession]
    adds no entry to the registry and puts the identity on the ignore list,
    and no event whose session has such a client adds an entry. Versions
    compare as tuples of numbers: "Plex for Windows" is rejected at 1.46.1
    and accepted, and tracked, at 1.46.0. *)
Theorem broken_client_not_admitted :
  (forall (settings : Settings.t) (r : ref) (p : PlexClient.t) (s : Skipper),
     MediaWrapper.player (objects s r) = Some p ->
     broken_client p ->
     validPlayer p = Return false /\
     exists s', addSession settings r s = (Return tt, s') /\
                (forall k, k ∈ Dict.keys (media_sessions s') ->
                           k ∈ Dict.keys (media_sessions s)) /\
                MediaWrapper.pasIdentifier (objects s r) ∈ ignored s')
  /\
  (forall (settings : Settings.t) (lower : string -> string)
          (newMediaWrapper : PlexSession.t -> string -> string -> Z -> result MediaWrapper.t)
          (data : Alert.t) (sessions : result (list PlexSession.t)) (s : Skipper),
     (forall mediaSession c st q w,
        newMediaWrapper mediaSession c st q = Return w ->
        exists p, MediaWrapper.player w = Some p /\ broken_client p) ->
     forall k,
       k ∈ Dict.keys (media_sessions
                        (snd (processAlert settings lower newMediaWrapper data sessions s))) ->
       k ∈ Dict.keys (media_sessions s))
  /\
  (let p := Scenario.client "Plex for Windows" "1.46.1" true in
   let s := Scenario.process false (Scenario.wrapper (Some p) 1000 false) 1%Q in
   validPlayer p = Return false /\
   media_sessions (snd (addSession Scenario.settings 0%nat s)) = [])
  /\
  (let p := Scenario.client "Plex for Windows" "1.46.0" true in
   let s := Scenario.process false (Scenario.wrapper (Some p) 1000 false) 1%Q in
   validPlayer p = Return true /\
   media_sessions (snd (addSession Scenario.settings 0%nat s))
   = [(getSessionClientIdentifier 7 "client-1", 0%nat)]).
Proof.
  split; [|split; [|split]].
  - intros settings r p s Hp Hbroken. split.
    + now apply broken_client_invalid.
    + now apply (addSession_broken settings r p s).
  - exact processAlert_broken.
  - split; vm_compute; reflexivity.
  - split; vm_compute; reflexivity.
Qed.

(** "Plex for Mac" at 1.50, above the 1.46.1 of the table. *)
Lemma broken_client_not_admitted_witness :
  let p := Scenario.client "Plex for Mac" "1.50" true in
  let s := Scenario.process false (Scenario.wrapper (Some p) 1000 false) 1%Q in
  broken_client p /\ validPlayer p = Return false.
Proof.
  intros p s.
  assert (Hbroken : broken_client p).
  { exists "1.46.1"%string, [1; 50]%N, [1; 46; 1]%N. repeat split; vm_compute; reflexivity. }
  split; [assumption|].
  apply (proj1 broken_client_not_admitted Scenario.settings 0%nat p s);
    [reflexivity | assumption].
Defined.

(** ** The action threads *)

Section Threads.
Variable settings : Settings.t.
Variable net : Remote.

(** One level of the recursion of [seekPlayerTo] and of [setPlayerVolume]. *)
Lemma seekPlayerTo_Some (p : PlexClient.t) (r : ref) (t : Z) (s : Skipper) :
  seekPlayerTo settings net (Some p) r t s =
  match seekPlayerTo_try settings net p r (clampTarget (objects s r) t) s with
  | (Return b, s1) => (Return b, s1)
  | (Raise ParseError, s1) => (Return true, s1)
  | (Raise BadRequest, s1) =>
      match recoverPlayer net r p "http://" s1 with
      | (Return recovered, s2) =>
          seekPlayerTo settings net recovered r (clampTarget (objects s r) t) s2
      | (Raise e, s2) => (Raise e, s2)
      end
  | (Raise e, s1) => (Raise e, s1)
  end.
Proof.
  simp seekPlayerTo.
  destruct (Logic.inspect (seekPlayerTo_try settings net p r (clampTarget (objects s r) t) s))
    as [[[b|e] s1] Heq]; [|destruct e]; simp seekPlayerTo;
    try (rewrite Heq; reflexivity).
  destruct (Logic.inspect (recoverPlayer net r p "http://" s1)) as [[[q|e] s2] Hrec];
    simp seekPlayerTo; rewrite Heq, Hrec; reflexivity.
Qed.

Lemma setPlayerVolume_Some (p : PlexClient.t) (r : ref) (v : Z) (l : bool) (s : Skipper) :
  setPlayerVolume settings net (Some p) r v l s =
  match setPlayerVolume_try settings net p r v l s with
  | (Return b, s1) => (Return b, s1)
  | (Raise ParseError, s1) => (Return true, s1)
  | (Raise BadRequest, s1) =>
      match recoverPlayer net r p "http://" s1 with
      | (Return recovered, s2) => setPlayerVolume settings net recovered r v l s2
      | (Raise e, s2) => (Raise e, s2)
      end
  | (Raise e, s1) => (Raise e, s1)
  end.
Proof.
  simp setPlayerVolume.
  destruct (Logic.inspect (setPlayerVolume_try settings net p r v l s))
    as [[[b|e] s1] Heq]; [|destruct e]; simp setPlayerVolume;
    try (rewrite Heq; reflexivity).
  destruct (Logic.inspect (recoverPlayer net r p "http://" s1)) as [[[q|e] s2] Hrec];
    simp setPlayerVolume; rewrite Heq, Hrec; reflexivity.
Qed.

Lemma seekPlayerTo_None (r : ref) (t : Z) (s : Skipper) :
  seekPlayerTo settings net None r t s = (Return false, s).
Proof. now simp seekPlayerTo. Qed.

Lemma setPlayerVolume_None (r : ref) (v : Z) (l : bool) (s : Skipper) :
  setPlayerVolume settings net None r v l s = (Return false, s).
Proof. now simp setPlayerVolume. Qed.

(** [recoverPlayer], case by case. *)
Lemma recoverPlayer_eq (r : ref) (p : PlexClient.t) (protocol : string) (s : Skipper) :
  recoverPlayer net r p protocol s =
  let s1 := set_wire (wire s ++ [Recover p]) s in
  if inS (PlexClient.product p) PROXY_ONLY || negb (PlexClient._proxyThroughServer p)
  then (Return None, s1)
  else match clientPorts_reply net with
       | Return ports =>
           (Return (Some (direct ports protocol p)),
            set_object r (MediaWrapper.set_player (Some (direct ports protocol p))
                            (objects s r)) s1)
       | Raise e => (Raise e, s1)
       end.
Proof.
  unfold recoverPlayer. munfold. simpl.
  destruct (inS _ _); [reflexivity|].
  destruct (PlexClient._proxyThroughServer p); simpl; [|reflexivity].
  destruct (clientPorts_reply net); reflexivity.
Qed.

(** Recovery never touches the registry, and a client it yields is direct. *)
Lemma recoverPlayer_spec (r : ref) (p : PlexClient.t) (protocol : string)
    (s s2 : Skipper) (rec : result (option PlexClient.t)) :
  recoverPlayer net r p protocol s = (rec, s2) ->
  wire s2 = wire s ++ [Recover p] /\ media_sessions s2 = media_sessions s /\
  (forall q, rec = Return (Some q) -> PlexClient._proxyThroughServer q = false) /\
  MediaWrapper.pasIdentifier (objects s2 r) = MediaWrapper.pasIdentifier (objects s r) /\
  MediaWrapper.media (objects s2 r) = MediaWrapper.media (objects s r).
Proof.
  rewrite recoverPlayer_eq. cbv zeta.
  destruct (_ || _); [intros [= <- <-]; simpl; repeat split; auto; discriminate|].
  destruct (clientPorts_reply net) as [ports|e]; intros [= <- <-]; simpl.
  - rewrite fn_lookup_insert. repeat split; auto. now intros q [= <-].
  - repeat split; auto. discriminate.
Qed.

Lemma recoverPlayer_direct (r : ref) (q : PlexClient.t) (protocol : string) (s : Skipper) :
  PlexClient._proxyThroughServer q = false ->
  recoverPlayer net r q protocol s = (Return None, set_wire (wire s ++ [Recover q]) s).
Proof.
  intros Hq. rewrite recoverPlayer_eq. cbv zeta. rewrite Hq.
  now rewrite orb_true_r.
Qed.

End Threads.

Section Attempts.
Variable settings : Settings.t.
Variable net : Remote.

Lemma seekPlayerTo_try_eq (q : PlexClient.t) (r : ref) (t : Z) (s : Skipper) :
  seekPlayerTo_try settings net q r t s =
  let s0 := set_object r (MediaWrapper.updateOffset (now s) t true None (objects s r)) s in
  match seekCommand settings net (objects s r) q t with
  | Return c =>
      (match reply_to net c with Return _ => Return true | Raise e => Raise e end,
       set_wire (wire s ++ [c]) s0)
  | Raise e => (Raise e, s0)
  end.
Proof.
  unfold seekPlayerTo_try, seekCommand. munfold. simpl. rewrite fn_lookup_insert. simpl.
  destruct (Settings.skipnext settings && _); simpl.
  - destruct (truthyZ (MediaWrapper.playQueueID (objects s r))); simpl.
    + unfold lastOfPlayQueue. simpl.
      destruct (playQueue_reply net _) as [pq|e]; simpl.
      * destruct (truthyZ (PlayQueue.playQueueTotalCount pq)); simpl.
        -- destruct (last (PlayQueue.items pq)) as [item|]; simpl; [|reflexivity].
           destruct (Media.eqb item _); simpl;
             [destruct (seekTo_reply net q t) | destruct (skipNext_reply net q)];
             reflexivity.
        -- destruct (skipNext_reply net q); reflexivity.
      * destruct (skipNext_reply net q); reflexivity.
    + destruct (skipNext_reply net q); reflexivity.
  - destruct (seekTo_reply net q t); reflexivity.
Qed.

Lemma setPlayerVolume_try_eq (q : PlexClient.t) (r : ref) (v : Z) (l : bool) (s : Skipper) :
  setPlayerVolume_try settings net q r v l s =
  match timeline_reply net q with
  | Return timeline =>
      (match setVolume_reply net q v with Return _ => Return true | Raise e => Raise e end,
       set_wire (wire s ++ [CmdSetVolume q v])
         (set_object r (MediaWrapper.updateVolume v (previousVolume settings l timeline) l
                          (objects s r)) s))
  | Raise e => (Raise e, s)
  end.
Proof.
  unfold setPlayerVolume_try, previousVolume. munfold.
  destruct (timeline_reply net q) as [timeline|e]; [|reflexivity]. simpl.
  destruct (setVolume_reply net q v); reflexivity.
Qed.

Lemma seekCommand_cases (w : MediaWrapper.t) (q : PlexClient.t) (t : Z) (c : event) :
  seekCommand settings net w q t = Return c -> c = CmdSeekTo q t \/ c = CmdSkipNext q.
Proof.
  unfold seekCommand.
  destruct (Settings.skipnext settings && _); [|intros [= <-]; auto].
  destruct (if truthyZ _ then _ else _) as [[|]|]; simpl; intros [= <-]; auto.
Qed.

(** An attempt sends at most one command, to the client it is given, and
    leaves the registry and the identity and content of the session as they
    are. *)
Lemma attempt_spec (th : thread) (s0 : Skipper) (q : PlexClient.t) (s s1 : Skipper)
    (out : result bool) :
  attempt settings net th s0 q s = (out, s1) ->
  let r := thread_ref th in
  media_sessions s1 = media_sessions s /\
  MediaWrapper.pasIdentifier (objects s1 r) = MediaWrapper.pasIdentifier (objects s r) /\
  MediaWrapper.media (objects s1 r) = MediaWrapper.media (objects s r) /\
  exists evs, wire s1 = wire s ++ evs /\ (length evs <= 1)%nat /\
              Forall (fun e => is_command e = true) evs.
Proof.
  destruct th as [r t | r v l]; simpl.
  - rewrite seekPlayerTo_try_eq. cbv zeta.
    destruct (seekCommand _ _ _ _ _) as [c|e] eqn:E; intros [= <- <-]; simpl;
      rewrite fn_lookup_insert; repeat split; auto.
    + exists [c]. repeat split; auto. constructor; [|constructor].
      destruct (seekCommand_cases _ _ _ _ E) as [-> | ->]; reflexivity.
    + exists []. rewrite app_nil_r. repeat split; auto.
  - rewrite setPlayerVolume_try_eq.
    destruct (timeline_reply net q) as [timeline|e]; intros [= <- <-]; simpl.
    + rewrite fn_lookup_insert. repeat split; auto.
      exists [CmdSetVolume q v]. repeat split; auto.
    + repeat split; auto. exists []. rewrite app_nil_r. repeat split; auto.
Qed.

End Attempts.

Lemma Dict_del_absent {V} (k : PasId) (d : Dict.t V) :
  Dict.mem k d = false -> Dict.del k d = d.
Proof.
  unfold Dict.mem, Dict.del, Dict.keys. intros H. apply bool_decide_eq_false in H.
  induction d as [|[k' v] d IH]; [reflexivity|]. simpl in *.
  rewrite not_elem_of_cons in H. destruct H as [Hne Hd].
  rewrite bool_decide_eq_false_2 by congruence. simpl. now rewrite IH.
Qed.

Lemma removeSession_evicted (r : ref) (s : Skipper) :
  removeSession r s = (Return tt, evicted (MediaWrapper.pasIdentifier (objects s r)) s).
Proof.
  rewrite removeSession_eq. unfold evicted.
  destruct (Dict.mem _ (media_sessions s)) eqn:E; [reflexivity|].
  now rewrite (Dict_del_absent _ _ E), set_media_sessions_id.
Qed.

Lemma clampTarget_idem (w w' : MediaWrapper.t) (t : Z) :
  MediaWrapper.media w' = MediaWrapper.media w ->
  clampTarget w' (clampTarget w t) = clampTarget w t.
Proof.
  intros Hm. unfold clampTarget, truthyZ. rewrite Hm.
  set (d := Media.duration (MediaWrapper.media w)).
  destruct (d =? 0); simpl; [reflexivity|].
  destruct (t >? d) eqn:Hgt; [|now rewrite Hgt].
  now rewrite Z.gtb_ltb, Z.ltb_irrefl.
Qed.

Section Protocol.
Variable settings : Settings.t.
Variable net : Remote.

(** The body of a thread: the command with its recovery, and the eviction
    when an exception escapes it. *)
Lemma runThread_eq (th : thread) (s : Skipper) :
  runThread settings net th s =
  match
    match th with
    | SeekThread r t =>
        seekPlayerTo settings net (MediaWrapper.player (objects s r)) r t s
    | VolumeThread r v l =>
        setPlayerVolume settings net (MediaWrapper.player (objects s r)) r v l s
    end
  with
  | (Return _, s') => (Return tt, s')
  | (Raise _, s') => removeSession (thread_ref th) s'
  end.
Proof.
  destruct th as [r t | r v l]; simpl; unfold _seekTo, _setVolume; munfold.
  - destruct (seekPlayerTo _ _ _ _ _ _) as [[b|e] s']; reflexivity.
  - destruct (setPlayerVolume _ _ _ _ _ _ _) as [[b|e] s']; reflexivity.
Qed.

(** The command of a thread on a client that is already direct: one
    attempt, and no second one. *)
Lemma command_direct (th : thread) (s0 : Skipper) (q : PlexClient.t) (s : Skipper) :
  PlexClient._proxyThroughServer q = false ->
  MediaWrapper.media (objects s (thread_ref th))
  = MediaWrapper.media (objects s0 (thread_ref th)) ->
  match th with
  | SeekThread r t =>
      seekPlayerTo settings net (Some q) r (clampTarget (objects s0 r) t) s
  | VolumeThread r v l => setPlayerVolume settings net (Some q) r v l s
  end =
  match attempt settings net th s0 q s with
  | (Return b, s3) => (Return b, s3)
  | (Raise ParseError, s3) => (Return true, s3)
  | (Raise BadRequest, s3) => (Return false, set_wire (wire s3 ++ [Recover q]) s3)
  | (Raise e, s3) => (Raise e, s3)
  end.
Proof.
  intros Hq Hmedia. destruct th as [r t | r v l]; simpl in *.
  - rewrite seekPlayerTo_Some, (clampTarget_idem _ _ _ Hmedia).
    destruct (seekPlayerTo_try _ _ _ _ _ _) as [[b|[]] s3]; try reflexivity.
    rewrite (recoverPlayer_direct net r q _ s3 Hq). now simp seekPlayerTo.
  - rewrite setPlayerVolume_Some.
    destruct (setPlayerVolume_try _ _ _ _ _ _ _) as [[b|[]] s3]; try reflexivity.
    rewrite (recoverPlayer_direct net r q _ s3 Hq). now simp setPlayerVolume.
Qed.

End Protocol.

Section Frame.
Variable settings : Settings.t.
Variable net : Remote.

(** A relation between states that holds across every piece of a thread
    holds across the thread. *)
Lemma runThread_preserves (R : Skipper -> Skipper -> Prop) (th : thread) (s : Skipper) :
  (forall s1, R s1 s1) ->
  (forall s1 s2 s3, R s1 s2 -> R s2 s3 -> R s1 s3) ->
  (forall q s1, R s1 (snd (attempt settings net th s q s1))) ->
  (forall p s1, R s1 (snd (recoverPlayer net (thread_ref th) p "http://" s1))) ->
  (forall e s1, R s1 (set_wire (wire s1 ++ [e]) s1)) ->
  (forall id s1, R s1 (evicted id s1)) ->
  R s (snd (runThread settings net th s)).
Proof.
  intros Hrefl Htrans Hattempt Hrecover Hemit Hevict.
  set (r := thread_ref th).
  set (command := fun player s1 =>
         match th with
         | SeekThread r t =>
             seekPlayerTo settings net player r (clampTarget (objects s r) t) s1
         | VolumeThread r v l => setPlayerVolume settings net player r v l s1
         end).
  assert (Hdirect : forall q s2,
            PlexClient._proxyThroughServer q = false ->
            MediaWrapper.media (objects s2 r) = MediaWrapper.media (objects s r) ->
            R s2 (snd (command (Some q) s2))).
  { intros q s2 Hq Hmedia. subst command. cbv beta.
    rewrite (command_direct settings net th s q s2 Hq Hmedia).
    pose proof (Hattempt q s2) as H3.
    destruct (attempt settings net th s q s2) as [[b|[]] s3]; cbn [snd] in H3 |- *;
      try exact H3.
    eapply Htrans; [exact H3 | apply Hemit]. }
  assert (Hcommand : forall p, R s (snd (command (Some p) s))).
  { intros p. pose proof (Hattempt p s) as H1.
    pose proof (attempt_spec settings net th s p s) as Hspec1.
    assert (Hunroll : command (Some p) s =
              match attempt settings net th s p s with
              | (Return b, s1) => (Return b, s1)
              | (Raise ParseError, s1) => (Return true, s1)
              | (Raise BadRequest, s1) =>
                  match recoverPlayer net r p "http://" s1 with
                  | (Return recovered, s2) => command recovered s2
                  | (Raise e, s2) => (Raise e, s2)
                  end
              | (Raise e, s1) => (Raise e, s1)
              end).
    { subst command r. destruct th as [r t | r v l]; cbn [attempt thread_ref].
      - rewrite seekPlayerTo_Some, clampTarget_idem by reflexivity. reflexivity.
      - apply setPlayerVolume_Some. }
    rewrite Hunroll.
    destruct (attempt settings net th s p s) as [[b|[]] s1]; cbn [snd] in H1 |- *;
      try exact H1.
    destruct (Hspec1 s1 _ eq_refl) as (_ & _ & Hmedia1 & _). fold r in Hmedia1.
    pose proof (Hrecover p s1) as H2. fold r in H2.
    pose proof (recoverPlayer_spec net r p "http://" s1) as Hspec2.
    destruct (recoverPlayer net r p "http://" s1) as [[[q|]|e] s2]; cbn [snd] in H2 |- *.
    - destruct (Hspec2 s2 _ eq_refl) as (_ & _ & Hq & _ & Hmedia2).
      eapply Htrans; [exact H1|]. eapply Htrans; [exact H2|].
      apply Hdirect; [now apply Hq | now rewrite Hmedia2].
    - subst command. cbv beta.
      destruct th; rewrite ?seekPlayerTo_None, ?setPlayerVolume_None;
        (eapply Htrans; [exact H1 | exact H2]).
    - eapply Htrans; [exact H1 | exact H2]. }
  assert (Hrun : runThread settings net th s =
                 match command (MediaWrapper.player (objects s r)) s with
                 | (Return _, s') => (Return tt, s')
                 | (Raise _, s') => removeSession r s'
                 end).
  { rewrite runThread_eq. subst command r. destruct th as [r t | r v l]; cbn [thread_ref].
    - destruct (MediaWrapper.player (objects s r)) as [p|].
      + rewrite !seekPlayerTo_Some, clampTarget_idem by reflexivity. reflexivity.
      + now rewrite !seekPlayerTo_None.
    - reflexivity. }
  rewrite Hrun.
  assert (Hcmd : R s (snd (command (MediaWrapper.player (objects s r)) s))).
  { destruct (MediaWrapper.player (objects s r)) as [p|]; [apply Hcommand|].
    subst command. cbv beta.
    destruct th; rewrite ?seekPlayerTo_None, ?setPlayerVolume_None; apply Hrefl. }
  destruct (command _ s) as [[b|e] s']; cbn [snd] in *; [exact Hcmd|].
  rewrite removeSession_evicted. eapply Htrans; [exact Hcmd | apply Hevict].
Qed.

End Frame.

(** ** Recovery and eviction *)

(** C3, as amended: a command (seek or volume) that the client rejects
    with [BadRequest] leads to one call of [recoverPlayer], and when that
    yields a client the same command is attempted once more, on that
    client, and never a third time. The session is evicted exactly when an
    exception other than [ParseError] and [BadRequest] escapes an attempt
    or the recovery (a timeout, a network error); when the recovery yields
    no client, or when the second attempt is rejected as well, the command
    gives up and the session stays in the registry. *)
Theorem recovery_protocol (settings : Settings.t) (net : Remote) (th : thread)
    (s : Skipper) (p : PlexClient.t) :
  let r := thread_ref th in
  let id := MediaWrapper.pasIdentifier (objects s r) in
  let kept s' :=
    runThread settings net th s = (Return tt, s') /\
    media_sessions s' = media_sessions s in
  let gone s' :=
    runThread settings net th s = (Return tt, evicted id s') /\
    media_sessions (evicted id s') = Dict.del id (media_sessions s) in
  MediaWrapper.player (objects s r) = Some p ->
  exists out1 s1,
    attempt settings net th s p s = (out1, s1) /\
    match out1 with
    | Return _ | Raise ParseError => kept s1
    | Raise BadRequest =>
        exists rec s2,
          recoverPlayer net r p "http://" s1 = (rec, s2) /\
          match rec with
          | Return None => kept s2
          | Return (Some q) =>
              exists out2 s3,
                attempt settings net th s q s2 = (out2, s3) /\
                match out2 with
                | Return _ | Raise ParseError => kept s3
                | Raise BadRequest => kept (set_wire (wire s3 ++ [Recover q]) s3)
                | Raise _ => gone s3
                end
          | Raise _ => gone s2
          end
    | Raise _ => gone s1
    end.
Proof.
  intros r id kept gone Hp.
  destruct (attempt settings net th s p s) as [out1 s1] eqn:E1.
  exists out1, s1. split; [reflexivity|].
  destruct (attempt_spec settings net th s p s s1 out1 E1) as (Hreg1 & Hid1 & Hmedia1 & _).
  fold r in Hid1, Hmedia1.
  assert (Hrun : runThread settings net th s =
                 match
                   match out1 with
                   | Return b => (Return b, s1)
                   | Raise ParseError => (Return true, s1)
                   | Raise BadRequest =>
                       match recoverPlayer net r p "http://" s1 with
                       | (Return recovered, s2) =>
                           match th with
                           | SeekThread r t =>
                               seekPlayerTo settings net recovered r
                                 (clampTarget (objects s r) t) s2
                           | VolumeThread r v l =>
                               setPlayerVolume settings net recovered r v l s2
                           end
                       | (Raise e, s2) => (Raise e, s2)
                       end
                   | Raise e => (Raise e, s1)
                   end
                 with
                 | (Return _, s') => (Return tt, s')
                 | (Raise _, s') => removeSession r s'
                 end).
  { rewrite runThread_eq. subst r. destruct th as [r t | r v l]; simpl in *; rewrite Hp.
    - rewrite seekPlayerTo_Some, E1. destruct out1 as [b|[]]; reflexivity.
    - rewrite setPlayerVolume_Some, E1. destruct out1 as [b|[]]; reflexivity. }
  assert (Hgone : forall s', media_sessions s' = media_sessions s ->
                    MediaWrapper.pasIdentifier (objects s' r) = id ->
                    removeSession r s' = (Return tt, evicted id s') /\
                    media_sessions (evicted id s') = Dict.del id (media_sessions s)).
  { intros s' Hreg Hid. rewrite removeSession_evicted, Hid. split; [reflexivity|].
    simpl. now rewrite Hreg. }
  destruct out1 as [b|e1].
  { split; [exact Hrun | exact Hreg1]. }
  destruct e1; try (unfold gone; rewrite Hrun; apply Hgone; [exact Hreg1 | exact Hid1]).
  { split; [exact Hrun | exact Hreg1]. }
  destruct (recoverPlayer net r p "http://" s1) as [rec s2] eqn:E2.
  exists rec, s2. split; [reflexivity|].
  destruct (recoverPlayer_spec net r p _ s1 s2 rec E2) as (_ & Hreg2 & Hdirect & Hid2 & Hmedia2).
  destruct rec as [[q|]|e2].
  - destruct (attempt settings net th s q s2) as [out2 s3] eqn:E3.
    exists out2, s3. split; [reflexivity|].
    destruct (attempt_spec settings net th s q s2 s3 out2 E3) as (Hreg3 & Hid3 & _).
    fold r in Hid3.
    assert (Hmedia : MediaWrapper.media (objects s2 r) = MediaWrapper.media (objects s r))
      by (rewrite Hmedia2; exact Hmedia1).
    assert (Hcmd := command_direct settings net th s q s2 (Hdirect q eq_refl) Hmedia).
    rewrite E3 in Hcmd. rewrite Hcmd in Hrun.
    assert (Hreg : media_sessions s3 = media_sessions s) by congruence.
    assert (Hid : MediaWrapper.pasIdentifier (objects s3 r) = id)
      by (rewrite Hid3, Hid2; exact Hid1).
    destruct out2 as [b|[]];
      try (split; [exact Hrun | exact Hreg]);
      unfold gone; rewrite Hrun; now apply Hgone.
  - split; [|congruence]. rewrite Hrun.
    destruct th; simpl; [now simp seekPlayerTo | now simp setPlayerVolume].
  - unfold gone. rewrite Hrun. apply Hgone; [congruence|].
    rewrite Hid2. exact Hid1.
Qed.

(** A client behind the server's proxy that rejects every command: the seek
    is attempted on the proxied client, once more on the direct one, and
    the session stays. *)
Lemma recovery_protocol_witness :
  let s := Scenario.process true (Scenario.wrapper (Some Scenario.roku) 1000 false) 1%Q in
  let net := Scenario.network (Raise BadRequest) None in
  let q := direct ∅ "http://" Scenario.roku in
  let s' := snd (runThread Scenario.settings net (SeekThread 0%nat 300000) s) in
  wire s' = [CmdSeekTo Scenario.roku 300000; Recover Scenario.roku;
             CmdSeekTo q 300000; Recover q]
  /\ media_sessions s' = media_sessions s.
Proof.
  intros s net q s'.
  destruct (recovery_protocol Scenario.settings net (SeekThread 0%nat 300000) s
              Scenario.roku eq_refl) as (out1 & s1 & E1 & H).
  vm_compute in E1. injection E1 as <- <-.
  destruct H as (rec & s2 & E2 & H).
  vm_compute in E2. injection E2 as <- <-.
  destruct H as (out2 & s3 & E3 & H).
  vm_compute in E3. injection E3 as <- <-.
  destruct H as [Hrun Hkept]. subst s'. rewrite Hrun. split; [|exact Hkept].
  vm_compute. reflexivity.
Defined.

(** C3, as stated, fails: a client of a product that cannot be reached
    directly rejects the seek; the one recovery yields no client, and the
    session is still in the registry after the thread has ended. *)
Lemma no_client_no_eviction :
  let p := Scenario.client "Plex for Windows" "1.40.0" true in
  let s := Scenario.process true (Scenario.wrapper (Some p) 1000 false) 1%Q in
  let net := Scenario.network (Raise BadRequest) None in
  let s' := snd (runThread Scenario.settings net (SeekThread 0%nat 300000) s) in
  recoverPlayer net 0%nat p "http://" s = (Return None, set_wire [Recover p] s)
  /\ wire s' = [CmdSeekTo p 300000; Recover p]
  /\ Dict.mem (MediaWrapper.pasIdentifier (objects s 0%nat)) (media_sessions s') = true.
Proof.
  intros p s net s'. split; [|split].
  - rewrite recoverPlayer_eq. reflexivity.
  - vm_compute. reflexivity.
  - vm_compute. reflexivity.
Qed.

(** ** What a seek thread sends *)

Section SeekWire.
Variable settings : Settings.t.
Variable net : Remote.

Lemma seekCommand_raises (w : MediaWrapper.t) (q : PlexClient.t) (t : Z) (e : exn) :
  seekCommand settings net w q t = Raise e -> e = IndexError.
Proof.
  unfold seekCommand, lastOfPlayQueue.
  destruct (Settings.skipnext settings && _); [|discriminate].
  destruct (truthyZ (MediaWrapper.playQueueID w)); [|discriminate].
  destruct (playQueue_reply net _) as [pq|]; [|discriminate].
  destruct (truthyZ _); [|discriminate].
  destruct (last _); simpl; [discriminate | congruence].
Qed.

(** The command depends on the session through its content and its play
    queue only. *)
Lemma seekCommand_ext (w w' : MediaWrapper.t) (q : PlexClient.t) (t : Z) :
  MediaWrapper.media w' = MediaWrapper.media w ->
  MediaWrapper.playQueueID w' = MediaWrapper.playQueueID w ->
  seekCommand settings net w' q t = seekCommand settings net w q t.
Proof.
  intros Hm Hq. unfold seekCommand, lastOfPlayQueue. now rewrite Hm, Hq.
Qed.

(** The trace of a seek on a client: the command first, and after it only
    recoveries and the same command again. *)
Lemma seekPlayerTo_wire (p : PlexClient.t) (r : ref) (t : Z) (s : Skipper) :
  let w := objects s r in
  exists rest,
    wire (snd (seekPlayerTo settings net (Some p) r t s))
    = wire s ++ match seekCommand settings net w p (clampTarget w t) with
                | Return c => c :: rest
                | Raise _ => rest
                end
    /\ Forall (seek_event w t) rest.
Proof.
  intros w. rewrite seekPlayerTo_Some, seekPlayerTo_try_eq. cbv zeta. fold w.
  destruct (seekCommand settings net w p (clampTarget w t)) as [c|e] eqn:Ec.
  2: { apply seekCommand_raises in Ec as ->. exists []. simpl.
       rewrite app_nil_r. split; [reflexivity | constructor]. }
  destruct (reply_to net c) as [|[]];
    try (exists []; simpl; split; [reflexivity | constructor]).
  rewrite recoverPlayer_eq. cbv zeta.
  destruct (_ || _).
  { simp seekPlayerTo. exists [Recover p]. simpl. rewrite <- app_assoc.
    split; [reflexivity | repeat constructor]. }
  destruct (clientPorts_reply net) as [ports|e].
  2: { exists [Recover p]. simpl. rewrite <- app_assoc.
       split; [reflexivity | repeat constructor]. }
  set (q := direct ports "http://" p).
  set (s2 := set_object r _ _).
  assert (Hobj : objects s2 r
                 = MediaWrapper.set_player (Some q)
                     (MediaWrapper.updateOffset (now s) (clampTarget w t) true None w)).
  { subst s2. simpl. now rewrite !fn_lookup_insert. }
  assert (Hmedia : MediaWrapper.media (objects s2 r) = MediaWrapper.media w)
    by now rewrite Hobj.
  assert (Hqueue : MediaWrapper.playQueueID (objects s2 r) = MediaWrapper.playQueueID w)
    by now rewrite Hobj.
  pose proof (command_direct settings net (SeekThread r t) s q s2 eq_refl Hmedia) as Hcmd.
  cbn [attempt] in Hcmd. fold w in Hcmd. rewrite Hcmd.
  rewrite seekPlayerTo_try_eq. cbv zeta.
  rewrite (seekCommand_ext w _ _ _ Hmedia Hqueue).
  destruct (seekCommand settings net w q (clampTarget w t)) as [c2|e] eqn:Ec2.
  2: { apply seekCommand_raises in Ec2 as ->. exists [Recover p]. simpl.
       rewrite <- app_assoc. split; [reflexivity | repeat constructor]. }
  assert (Hc2 : seek_event w t c2).
  { destruct (seekCommand_cases _ _ _ _ _ _ Ec2) as [-> | ->]; simpl; auto. }
  destruct (reply_to net c2) as [|[]]; simpl; rewrite <- ?app_assoc; simpl;
    try (exists [Recover p; c2]; split; [reflexivity | repeat constructor; assumption]).
  exists [Recover p; c2; Recover q]. split; [reflexivity | repeat constructor; assumption].
Qed.

End SeekWire.

(** A thread leaves on the wire what its command leaves there. *)
Lemma runThread_seek_wire (settings : Settings.t) (net : Remote) (r : ref) (t : Z)
    (s : Skipper) :
  wire (snd (runThread settings net (SeekThread r t) s))
  = wire (snd (seekPlayerTo settings net (MediaWrapper.player (objects s r)) r t s)).
Proof.
  rewrite runThread_eq.
  destruct (seekPlayerTo _ _ _ _ _ _) as [[b|e] s']; [reflexivity|].
  now rewrite removeSession_evicted.
Qed.

(** ** The clamp of the seek target *)

(** C5, as amended: a seek thread sends no offset but its target clamped
    from above: a target beyond the duration of the content (when the
    duration is known, that is not zero) becomes the duration, and any
    other target, a negative one too, is sent as it is. *)
Theorem seek_target_clamped (settings : Settings.t) (net : Remote) (r : ref) (t : Z)
    (s : Skipper) :
  let w := objects s r in
  let duration := Media.duration (MediaWrapper.media w) in
  (exists evs,
     wire (snd (runThread settings net (SeekThread r t) s)) = wire s ++ evs /\
     forall q offset, CmdSeekTo q offset ∈ evs -> offset = clampTarget w t)
  /\ (duration <> 0 -> t > duration -> clampTarget w t = duration)
  /\ (t <= duration -> clampTarget w t = t)
  /\ (duration = 0 -> clampTarget w t = t).
Proof.
  intros w duration. split.
  - rewrite runThread_seek_wire. fold w.
    destruct (MediaWrapper.player w) as [p|].
    + destruct (seekPlayerTo_wire settings net p r t s) as (rest & -> & Hrest).
      fold w in Hrest |- *.
      destruct (seekCommand settings net w p (clampTarget w t)) as [c|e] eqn:Ec.
      * exists (c :: rest). split; [reflexivity|]. intros q offset Hin.
        apply elem_of_cons in Hin as [Heq | Hin].
        -- subst c. destruct (seekCommand_cases _ _ _ _ _ _ Ec) as [[= _ ->] | [=]].
           reflexivity.
        -- rewrite Forall_forall in Hrest. exact (Hrest _ Hin).
      * exists rest. split; [reflexivity|]. intros q offset Hin.
        rewrite Forall_forall in Hrest. exact (Hrest _ Hin).
    + simp seekPlayerTo. exists []. simpl. rewrite app_nil_r.
      split; [reflexivity|]. intros q offset Hin. inversion Hin.
  - unfold clampTarget, truthyZ. fold duration.
    repeat split; intros.
    + destruct (Z.eqb_spec duration 0); [contradiction|]. simpl.
      destruct (Z.gtb_spec t duration); [reflexivity | lia].
    + destruct (Z.gtb_spec t duration); [lia|]. now rewrite andb_false_r.
    + destruct (Z.eqb_spec duration 0); [reflexivity | contradiction].
Qed.

(** C5, as stated, fails: with a right offset of -2000 the intro marker
    0-1000 gives the target -1000; the tick starts the seek and the thread
    sends -1000 to the client, not 0. *)
Lemma negative_target_is_sent :
  let s := Scenario.process true (Scenario.wrapper_intro 500) 1%Q in
  let net := Scenario.network (Return tt) None in
  let mk := fun _ _ _ _ => Raise OtherError in
  started (snd (tick Scenario.settings_offsets s)) = [SeekThread 0%nat (-1000)]
  /\ wire (snd (exec Scenario.settings_offsets ascii_lower mk [Tick; Run 0 net] s))
     = [CmdSeekTo Scenario.roku (-1000)].
Proof. split; vm_compute; reflexivity. Qed.

(** ** The control loop *)

Lemma with_threads_nil (s : Skipper) : with_threads [] s = s.
Proof. unfold with_threads. rewrite app_nil_r. destruct s; reflexivity. Qed.

Lemma with_threads_app (ths ths' : list thread) (s : Skipper) :
  with_threads ths' (with_threads ths s) = with_threads (ths ++ ths') s.
Proof. unfold with_threads. simpl. now rewrite app_assoc. Qed.

Section Loop.
Variable settings : Settings.t.

(** The skip check and the volume check start threads and do nothing else. *)
Lemma checkMediaSkip_starts (r : ref) (leftOffset rightOffset : Z) (s : Skipper) :
  exists ths, snd (checkMediaSkip settings r leftOffset rightOffset s) = with_threads ths s.
Proof.
  rewrite checkMediaSkip_unfold.
  repeat match goal with
         | |- context [match ?x with _ => _ end] => destruct x
         end; simpl;
    first [ exists []; symmetry; apply with_threads_nil | eexists [_]; reflexivity ].
Qed.

Lemma checkMediaVolume_starts (r : ref) (leftOffset rightOffset : Z) (s : Skipper) :
  exists ths, snd (checkMediaVolume settings r leftOffset rightOffset s) = with_threads ths s.
Proof.
  unfold checkMediaVolume, setVolume. munfold.
  destruct (shouldLowerMediaVolume _ _ _ _) as [shouldLower|e]; simpl.
  2: { exists []. symmetry. apply with_threads_nil. }
  destruct (negb _ && shouldLower); [eexists [_]; reflexivity|].
  destruct (_ && negb shouldLower); [|exists []; symmetry; apply with_threads_nil].
  destruct (MediaWrapper.cachedVolume _); simpl;
    [eexists [_]; reflexivity | exists []; symmetry; apply with_threads_nil].
Qed.

(** A check of a session that is not seeking: the threads of the skip and
    volume checks, the seek to the end when the end check fires, and the
    eviction when the session is stale. *)
Lemma checkMedia_active (r : ref) (s : Skipper) :
  let w := objects s r in
  let duration := Media.duration (MediaWrapper.media w) in
  MediaWrapper.seeking w = false ->
  exists ths,
    match checkMedia settings r s with
    | (Return _, s') =>
        exists atEnd,
          rand (Return (MediaWrapper.viewOffset w
                        >=? duration - Settings.durationOffset settings))
               (shouldSkipNext settings w) = Return atEnd /\
          let s3 := with_threads (ths ++ if atEnd then [SeekThread r duration] else []) s in
          s' = if Qgtb (MediaWrapper.sinceLastUpdate (now s) w) (inject_Z TIMEOUT)
               then evicted (MediaWrapper.pasIdentifier w) s3
               else s3
    | (Raise _, s') => s' = with_threads ths s
    end.
Proof.
  intros w duration Hseek. unfold checkMedia. munfold. fold w. rewrite Hseek.
  destruct (checkMediaSkip_starts r (orZ (MediaWrapper.leftOffset w) (Settings.leftOffset settings))
              (orZ (MediaWrapper.rightOffset w) (Settings.rightOffset settings)) s)
    as [ths1 H1].
  destruct (checkMediaSkip _ _ _ _ _) as [[[]|e] s1]; simpl in H1; subst s1.
  2: { exists ths1. reflexivity. }
  destruct (checkMediaVolume_starts r (orZ (MediaWrapper.leftOffset w) (Settings.leftOffset settings))
              (orZ (MediaWrapper.rightOffset w) (Settings.rightOffset settings))
              (with_threads ths1 s))
    as [ths2 H2].
  destruct (checkMediaVolume _ _ _ _ _) as [[[]|e] s2]; simpl in H2; subst s2.
  2: { exists (ths1 ++ ths2). now rewrite with_threads_app. }
  rewrite with_threads_app. exists (ths1 ++ ths2).
  fold duration.
  destruct (rand _ _) as [atEnd|e]; [|reflexivity].
  destruct atEnd; unfold seekTo; munfold; simpl;
    (destruct (Qgtb _ _); rewrite ?removeSession_evicted; eexists;
     (split; [reflexivity|]); unfold evicted, with_threads; simpl;
     rewrite <- ?app_assoc, ?app_nil_r; reflexivity).
Qed.

End Loop.

(** ** The end of playback *)

Lemma shouldSkipNext_enabled (settings : Settings.t) (w : MediaWrapper.t) :
  shouldSkipNext settings w = Return true -> Settings.skipnext settings = true.
Proof.
  unfold shouldSkipNext.
  repeat match goal with
         | |- context [rbind ?m _] => destruct m as [[|]|]; simpl; try discriminate
         end.
  congruence.
Qed.

Lemma queue_goes_on_skips (net : Remote) (w : MediaWrapper.t) :
  queue_goes_on net w ->
  (if truthyZ (MediaWrapper.playQueueID w) then lastOfPlayQueue net w else Return false)
  = Return false.
Proof.
  unfold lastOfPlayQueue, truthyZ.
  intros [Hid | [[e He] | (pq & Hpq & [Hcount | (item & Hlast & Hne)])]].
  - now rewrite Hid.
  - rewrite He. now destruct (MediaWrapper.playQueueID w =? 0).
  - rewrite Hpq, Hcount. now destruct (MediaWrapper.playQueueID w =? 0).
  - rewrite Hpq, Hlast. simpl. rewrite Hne.
    destruct (MediaWrapper.playQueueID w =? 0),
             (PlayQueue.playQueueTotalCount pq =? 0); reflexivity.
Qed.

Lemma queue_ends_here_seeks (net : Remote) (w : MediaWrapper.t) :
  queue_ends_here net w ->
  (if truthyZ (MediaWrapper.playQueueID w) then lastOfPlayQueue net w else Return false)
  = Return true.
Proof.
  unfold lastOfPlayQueue, truthyZ.
  intros (Hid & pq & item & Hpq & Hcount & Hlast & Heq).
  rewrite Hpq, Hlast. simpl. rewrite Heq.
  apply Z.eqb_neq in Hid, Hcount. now rewrite Hid, Hcount.
Qed.

(** C1, as amended: a check of a session that is not seeking, whose
    position has reached the duration minus [durationOffset] (595000 of
    600000 with an offset of 5000) and for whose client skip-next is
    permitted, starts a seek thread to the end of the content when the skip
    and volume checks before it raise nothing; that thread first sends a
    skip to the next item, or, when the play queue of the session can be
    fetched and ends with the content of the session, a plain seek to the
    duration. *)
Theorem end_of_playback_dispatch (settings : Settings.t) (net : Remote) (r : ref)
    (s : Skipper) (p : PlexClient.t) :
  let w := objects s r in
  let duration := Media.duration (MediaWrapper.media w) in
  MediaWrapper.seeking w = false ->
  0 <= Settings.durationOffset settings ->
  MediaWrapper.viewOffset w >= duration - Settings.durationOffset settings ->
  shouldSkipNext settings w = Return true ->
  fst (checkMedia settings r s) = Return tt ->
  SeekThread r duration ∈ started (snd (checkMedia settings r s))
  /\ forall s1,
       MediaWrapper.media (objects s1 r) = MediaWrapper.media w ->
       MediaWrapper.playQueueID (objects s1 r) = MediaWrapper.playQueueID w ->
       MediaWrapper.player (objects s1 r) = Some p ->
       let s2 := snd (runThread settings net (SeekThread r duration) s1) in
       (queue_goes_on net w -> exists rest, wire s2 = wire s1 ++ CmdSkipNext p :: rest)
       /\ (queue_ends_here net w ->
           exists rest, wire s2 = wire s1 ++ CmdSeekTo p duration :: rest).
Proof.
  intros w duration Hseek Hoff Hpos Hnext Hret. split.
  - destruct (checkMedia_active settings r s Hseek) as [ths H]. fold w duration in H.
    destruct (checkMedia settings r s) as [[[]|e] s']; [|discriminate].
    destruct H as (atEnd & Hend & ->).
    rewrite Hnext in Hend. simpl in Hend.
    destruct (Z.geb_spec (MediaWrapper.viewOffset w)
                (duration - Settings.durationOffset settings)); [|lia].
    injection Hend as <-. simpl.
    destruct (Qgtb _ _); simpl; rewrite !elem_of_app; right; right; left.
  - intros s1 Hmedia Hqueue Hplayer s2. subst s2.
    rewrite runThread_seek_wire, Hplayer.
    destruct (seekPlayerTo_wire settings net p r duration s1) as (rest & -> & _).
    assert (Hclamp : clampTarget (objects s1 r) duration = duration).
    { unfold clampTarget. rewrite Hmedia. fold duration.
      rewrite Z.gtb_ltb, Z.ltb_irrefl. now rewrite andb_false_r. }
    rewrite Hclamp, (seekCommand_ext settings net w _ _ _ Hmedia Hqueue).
    unfold seekCommand. fold duration.
    rewrite (shouldSkipNext_enabled _ _ Hnext).
    destruct (Z.geb_spec duration (duration - Settings.durationOffset settings)); [|lia].
    simpl. split; intros Hq.
    + rewrite (queue_goes_on_skips net w Hq). simpl. eauto.
    + rewrite (queue_ends_here_seeks net w Hq). simpl. eauto.
Qed.

(** The session of the claim, five seconds from the end, with nothing after
    it in reach: the check starts the seek to 600000, which goes out as a
    skip to the next item. *)
Lemma end_of_playback_dispatch_witness :
  let s := Scenario.process true (Scenario.wrapper (Some Scenario.roku) 595000 false) 1%Q in
  let net := Scenario.network (Return tt) None in
  SeekThread 0%nat 600000 ∈ started (snd (checkMedia Scenario.settings 0%nat s))
  /\ exists rest,
       wire (snd (runThread Scenario.settings net (SeekThread 0%nat 600000) s))
       = wire s ++ CmdSkipNext Scenario.roku :: rest.
Proof.
  intros s net.
  destruct (end_of_playback_dispatch Scenario.settings net 0%nat s Scenario.roku)
    as [Hstart Hsend]; try reflexivity.
  - simpl. lia.
  - simpl. lia.
  - split; [exact Hstart|].
    apply (Hsend s eq_refl eq_refl eq_refl).
    right. left. exists OtherError. reflexivity.
Defined.

(** C1, as stated, fails: at 590000 of 600000 with an offset of 5000 the
    position has not reached 595000; the check of the session, for whose
    client skip-next is permitted, starts no thread at all. *)
Lemma no_dispatch_at_590000 :
  let w := Scenario.wrapper (Some Scenario.roku) 590000 false in
  let s := Scenario.process true w 1%Q in
  MediaWrapper.viewOffset w = 590000 /\
  Media.duration (MediaWrapper.media w) = 600000 /\
  Settings.durationOffset Scenario.settings = 5000 /\
  shouldSkipNext Scenario.settings w = Return true /\
  MediaWrapper.seeking w = false /\
  checkMedia Scenario.settings 0%nat s = (Return tt, s).
Proof. repeat split. Qed.

(** ** Staleness *)

Lemma stale_spec (now : Q) (w : MediaWrapper.t) :
  stale now w <-> Qgtb (MediaWrapper.sinceLastUpdate now w) (inject_Z TIMEOUT) = true.
Proof.
  unfold stale, Qgtb. rewrite negb_true_iff, <- not_true_iff_false, Qle_bool_iff.
  split; [apply Qlt_not_le | apply Qnot_le_lt].
Qed.

Section Staleness.
Variable settings : Settings.t.

(** A check changes no session and not the clock, and adds no entry to the
    registry. *)
Lemma checkMedia_frame (r : ref) (s : Skipper) :
  let s' := snd (checkMedia settings r s) in
  objects s' = objects s /\ now s' = now s /\
  forall k, k ∈ Dict.keys (media_sessions s') -> k ∈ Dict.keys (media_sessions s).
Proof.
  destruct (MediaWrapper.seeking (objects s r)) eqn:Hseek.
  - unfold checkMedia. munfold. rewrite Hseek. simpl. auto.
  - destruct (checkMedia_active settings r s Hseek) as [ths H].
    destruct (checkMedia settings r s) as [[[]|e] s']; simpl.
    + destruct H as (atEnd & _ & ->).
      destruct (Qgtb _ _); simpl; repeat split; auto.
      intros k Hk. now apply Dict_keys_del in Hk.
    + subst s'. simpl. auto.
Qed.

Lemma checkMedia_evicts_stale (r : ref) (s : Skipper) :
  MediaWrapper.seeking (objects s r) = false ->
  stale (now s) (objects s r) ->
  fst (checkMedia settings r s) = Return tt ->
  MediaWrapper.pasIdentifier (objects s r)
  ∉ Dict.keys (media_sessions (snd (checkMedia settings r s))).
Proof.
  intros Hseek Hstale Hret.
  destruct (checkMedia_active settings r s Hseek) as [ths H].
  destruct (checkMedia settings r s) as [[[]|e] s']; [|discriminate].
  destruct H as (atEnd & _ & ->). apply stale_spec in Hstale. rewrite Hstale.
  simpl. intros Hin. apply Dict_keys_del in Hin as [_ Hne]. now apply Hne.
Qed.

Lemma checkAll_frame (l : list ref) (s : Skipper) :
  let s' := snd (checkAll settings l s) in
  objects s' = objects s /\ now s' = now s /\
  forall k, k ∈ Dict.keys (media_sessions s') -> k ∈ Dict.keys (media_sessions s).
Proof.
  revert s. induction l as [|r l IH]; intros s; simpl; [auto|]. munfold.
  destruct (checkMedia_frame r s) as (Hobj & Hnow & Hkeys).
  destruct (checkMedia settings r s) as [[[]|e] s0]; simpl in *; [|auto].
  destruct (IH s0) as (Hobj' & Hnow' & Hkeys').
  repeat split; [congruence | congruence | auto].
Qed.

(** One pass over a snapshot evicts each of its sessions that is stale and
    not seeking. *)
Lemma checkAll_evicts_stale (l : list ref) (s : Skipper) (r : ref) :
  fst (checkAll settings l s) = Return tt ->
  r ∈ l ->
  MediaWrapper.seeking (objects s r) = false ->
  stale (now s) (objects s r) ->
  MediaWrapper.pasIdentifier (objects s r)
  ∉ Dict.keys (media_sessions (snd (checkAll settings l s))).
Proof.
  revert s. induction l as [|r0 l IH]; intros s Hret Hin Hseek Hstale.
  { inversion Hin. }
  simpl in *. munfold.
  destruct (checkMedia_frame r0 s) as (Hobj & Hnow & Hkeys).
  destruct (checkMedia settings r0 s) as [[[]|e] s0] eqn:E0; [|discriminate].
  simpl in *.
  destruct (decide (r = r0)) as [-> | Hne].
  - intros Hk. apply (checkAll_frame l s0) in Hk.
    pose proof (checkMedia_evicts_stale r0 s Hseek Hstale) as Hgone.
    rewrite E0 in Hgone. now apply Hgone.
  - apply elem_of_cons in Hin as [? | Hin]; [contradiction|].
    rewrite <- Hobj. apply IH; auto; now rewrite ?Hobj, ?Hnow.
Qed.

End Staleness.

(** C7, as amended: on a tick of the control loop that completes, every
    tracked session that is not seeking and whose last update is older than
    the timeout of 30 seconds is removed from the registry, whether events
    arrive for it or not. *)
Theorem tick_evicts_stale (settings : Settings.t) (s : Skipper) (k : PasId) (r : ref) :
  (k, r) ∈ media_sessions s ->
  MediaWrapper.pasIdentifier (objects s r) = k ->
  MediaWrapper.seeking (objects s r) = false ->
  stale (now s) (objects s r) ->
  fst (tick settings s) = Return tt ->
  k ∉ Dict.keys (media_sessions (snd (tick settings s))).
Proof.
  intros Hin Hid Hseek Hstale Hret. unfold tick in *. munfold. subst k.
  apply checkAll_evicts_stale; auto.
  unfold Dict.values. apply list_elem_of_fmap. now exists (MediaWrapper.pasIdentifier (objects s r), r).
Qed.

(** Forty seconds after its last update the session is evicted by the
    tick. *)
Lemma tick_evicts_stale_witness :
  let s := Scenario.process true (Scenario.wrapper (Some Scenario.roku) 1000 false) 40%Q in
  stale (now s) (objects s 0%nat) /\
  getSessionClientIdentifier 7 "client-1"
  ∉ Dict.keys (media_sessions (snd (tick Scenario.settings s))).
Proof.
  intros s.
  assert (Hstale : stale (now s) (objects s 0%nat)) by (apply stale_spec; reflexivity).
  split; [exact Hstale|].
  apply (tick_evicts_stale Scenario.settings s (getSessionClientIdentifier 7 "client-1")
           0%nat); try reflexivity; try exact Hstale. left.
Defined.

(** C7, as stated, fails: a session whose [seeking] flag is set and whose
    last update is a hundred seconds old is still in the registry after
    the tick. *)
Lemma seeking_session_outlives_timeout :
  let w := Scenario.wrapper (Some Scenario.roku) 1000 true in
  let s := Scenario.process true w 100%Q in
  stale (now s) w /\ tick Scenario.settings s = (Return tt, s) /\
  Dict.mem (MediaWrapper.pasIdentifier w) (media_sessions s) = true.
Proof.
  intros w s. split; [|split].
  - apply stale_spec. reflexivity.
  - reflexivity.
  - reflexivity.
Qed.

(** ** The volume check *)

Section Volume.
Variable settings : Settings.t.

Lemma checkMediaVolume_eq (r : ref) (leftOffset rightOffset : Z) (s : Skipper) :
  let w := objects s r in
  checkMediaVolume settings r leftOffset rightOffset s =
  match shouldLowerMediaVolume settings w leftOffset rightOffset with
  | Return shouldLower =>
      match MediaWrapper.loweringVolume w, shouldLower with
      | false, true =>
          (Return tt, with_thread (VolumeThread r (Settings.volumelow settings) true) s)
      | true, false =>
          match MediaWrapper.cachedVolume w with
          | Some cachedVolume =>
              (Return tt, with_thread (VolumeThread r cachedVolume false) s)
          | None => (Raise TypeError, s)
          end
      | _, _ => (Return tt, s)
      end
  | Raise e => (Raise e, s)
  end.
Proof.
  intros w. unfold checkMediaVolume, setVolume. munfold. fold w.
  destruct (shouldLowerMediaVolume _ _ _ _) as [[|]|e]; [| |reflexivity];
    destruct (MediaWrapper.loweringVolume w); simpl; try reflexivity.
  destruct (MediaWrapper.cachedVolume w); reflexivity.
Qed.

Variable net : Remote.






End Volume.


(** ** What the steps of the process leave alone *)


Section VolumeFrame.
Variable settings : Settings.t.


Lemma checkMedia_objects (r : ref) (s : Skipper) :
  objects (snd (checkMedia settings r s)) = objects s.
Proof. apply (checkMedia_frame settings r s). Qed.

Lemma purgeOldSessions_objects (r : ref) (s : Skipper) :
  objects (snd (purgeOldSessions r s)) = objects s.
Proof.
  unfold purgeOldSessions. munfold.
  generalize (Dict.values (media_sessions s)). intros l.
  induction l as [|r0 l IH]; simpl; [reflexivity|]. munfold.
  destruct (player_machineIdentifier (objects s r)); simpl; [|reflexivity].
  destruct (String.eqb _ _); [|exact IH].
  now rewrite removeSession_evicted.
Qed.

Lemma ignoreSession_objects (r : ref) (s : Skipper) :
  objects (snd (ignoreSession r s)) = objects s.
Proof.
  unfold ignoreSession. munfold.
  pose proof (purgeOldSessions_objects r s) as H.
  destruct (purgeOldSessions r s) as [[[]|e] s1]; simpl in *; exact H.
Qed.

Lemma addSession_objects (r : ref) (s : Skipper) :
  objects (snd (addSession settings r s)) = objects s.
Proof.
  unfold addSession. munfold.
  destruct (MediaWrapper.player (objects s r)) as [p|]; [|apply ignoreSession_objects].
  unfold lift. destruct (validPlayer p) as [[|]|e]; simpl;
    [| apply ignoreSession_objects | reflexivity].
  pose proof (purgeOldSessions_objects r s) as H1.
  destruct (purgeOldSessions r s) as [[[]|e] s1]; simpl in *; [|exact H1].
  pose proof (checkMedia_objects r s1) as H2.
  destruct (checkMedia settings r s1) as [[[]|e] s2]; simpl in *; congruence.
Qed.

End VolumeFrame.

Section StepFrame.
Variable settings : Settings.t.
Variable lower : string -> string.
Variable newMediaWrapper : PlexSession.t -> string -> string -> Z -> result MediaWrapper.t.


Lemma checkAll_objects (l : list ref) (s : Skipper) :
  objects (snd (checkAll settings l s)) = objects s.
Proof. apply (checkAll_frame settings l s). Qed.


End StepFrame.

(** ** Volume transitions *)



(** A whole cycle: lowered inside the range, with 80 cached, and restored
    to 80 once an event has moved the position out of the range. *)
Example volume_cycle :
  let s := Scenario.process true (Scenario.wrapper_quiet 1000) 1%Q in
  let net := Scenario.network (Return tt) None in
  let mk := fun _ _ _ _ => Raise OtherError in
  let moved := {| PlexSession.sessionKey := 7;
                  PlexSession.session := Some {| Session.location := "lan" |};
                  PlexSession.viewOffset := 3000;
                  PlexSession.usernames := ["ann"%string] |} in
  let event := {| Alert.type := "playing"; Alert.sessionKey := 7;
                  Alert.state := "playing"; Alert.clientIdentifier := "client-1";
                  Alert.playQueueID := 55 |} in
  let s' := snd (exec Scenario.settings ascii_lower mk
                   [Tick; Run 0 net; Notify event (Return [moved]); Tick; Run 0 net] s) in
  wire s' = [CmdSetVolume Scenario.roku 20; CmdSetVolume Scenario.roku 80]
  /\ volume_state (objects s' 0%nat) = (false, None).
Proof. vm_compute. split; reflexivity. Qed.


(* ===================================================================== *)
(** * Further properties of the engine *)

(** ** Lookup of the session of an event *)

(** X1: [getMediaSession] answers the first session of the server's list
    that has the session key, and [None] when no session has it or when
    the server's list cannot be fetched. *)
Theorem getMediaSession_first (sessions : result (list PlexSession.t)) (sessionKey : Z) :
  (forall mediaSession,
     getMediaSession sessions sessionKey = Some mediaSession <->
     exists before after,
       sessions = Return (before ++ mediaSession :: after) /\
       PlexSession.sessionKey mediaSession = sessionKey /\
       forall x, x ∈ before -> PlexSession.sessionKey x <> sessionKey)
  /\ (getMediaSession sessions sessionKey = None <->
      (exists e, sessions = Raise e) \/
      exists l, sessions = Return l /\
                forall x, x ∈ l -> PlexSession.sessionKey x <> sessionKey).
Proof.
  destruct sessions as [l|e]; simpl.
  - split.
    + intros m. induction l as [|x l IH]; simpl.
      * split; [discriminate|]. intros (b & a & H & _). injection H as H.
        destruct b; discriminate.
      * destruct (Z.eqb_spec (PlexSession.sessionKey x) sessionKey) as [Hx|Hx].
        -- split.
           ++ intros [= <-]. exists [], l. repeat split; auto. intros y Hy. inversion Hy.
           ++ intros (b & a & H & Hm & Hb). injection H as H.
              destruct b as [|y b]; simpl in H; injection H as Hy Hl; [congruence|].
              exfalso. apply (Hb y); [left|congruence].
        -- rewrite IH. split.
           ++ intros (b & a & [= ->] & Hm & Hb). exists (x :: b), a. repeat split; auto.
              intros y Hy. apply elem_of_cons in Hy as [->|Hy]; auto.
           ++ intros (b & a & H & Hm & Hb). injection H as H.
              destruct b as [|y b]; simpl in H; injection H as Hy Hl; [congruence|].
              exists b, a. subst l. repeat split; auto. intros z Hz. apply Hb. now right.
    + split.
      * intros H. right. exists l. split; auto. intros x Hx.
        apply list_elem_of_In in Hx. intros Hk.
        pose proof (find_none _ _ H x Hx) as Hf. simpl in Hf.
        apply Z.eqb_neq in Hf. contradiction.
      * intros [[e He]|(l' & [= <-] & Hl)]; [discriminate|].
        apply find_absent. intros x Hx. apply Z.eqb_neq, Hl, list_elem_of_In, Hx.
  - split.
    + intros m. split; [discriminate|]. intros (b & a & H & _). discriminate.
    + split; eauto.
Qed.


Section AdmissionFilter.
Variable settings : Settings.t.
Variable lower : string -> string.
Variable w : MediaWrapper.t.
Let media := MediaWrapper.media w.
Let allowedKeys := CustomEntries.allowedKeys (Settings.customEntries settings).
Let blockedKeys := CustomEntries.blockedKeys (Settings.customEntries settings).

Lemma rule_passes_spec (rule : SKIP_TYPES.t) :
  rule_passes rule media <->
  isNEVER rule || (isWATCHED rule && negb (Media.isWatched media)) = false.
Proof.
  unfold rule_passes. destruct rule, (Media.isWatched media); simpl;
    split; try congruence; try (intros [H1 H2]; congruence);
    try (intros _; split; congruence).
  intros [_ H]. symmetry. now apply H.
Qed.

Lemma shouldAdd_conjunction :
  shouldAdd settings lower w =
  inS (Media.type media) (Settings.types settings)
  && negb (truthyS (Media.librarySectionTitle media)
           && inS (lower (Media.librarySectionTitle media))
                  (Settings.ignoredlibraries settings))
  && match Media.episodeNumber media with
     | Some episodeNumber =>
         negb ((episodeNumber =? 1)
               && (isNEVER (Settings.skipE01 settings)
                   || (isWATCHED (Settings.skipE01 settings)
                       && negb (Media.isWatched media))))
         && negb (match Media.seasonNumber media with
                  | Some seasonNumber => (seasonNumber =? 1) && (episodeNumber =? 1)
                  | None => false
                  end
                  && (isNEVER (Settings.skipS01E01 settings)
                      || (isWATCHED (Settings.skipS01E01 settings)
                          && negb (Media.isWatched media))))
     | None => true
     end
  && negb (inZ (Media.ratingKey media) blockedKeys
           || hasKeyIn (Media.parentRatingKey media) blockedKeys
           || hasKeyIn (Media.grandparentRatingKey media) blockedKeys)
  && (match allowedKeys with [] => true | _ => false end
      || inZ (Media.ratingKey media) allowedKeys
      || hasKeyIn (Media.parentRatingKey media) allowedKeys
      || hasKeyIn (Media.grandparentRatingKey media) allowedKeys)
  && (Settings.skipunwatched settings || Media.isWatched media).
Proof.
  unfold shouldAdd, customEntries. fold media allowedKeys blockedKeys.
  destruct (inS (Media.type media) _); simpl; [|reflexivity].
  destruct (truthyS _ && inS (lower _) _); simpl; [reflexivity|].
  destruct (Media.episodeNumber media) as [e|]; simpl.
  - destruct ((e =? 1) && _) eqn:E1; simpl; [reflexivity|].
    destruct (match Media.seasonNumber media with Some _ => _ | None => _ end && _);
      simpl; [reflexivity|].
    destruct (inZ _ blockedKeys); simpl; [reflexivity|].
    destruct (hasKeyIn (Media.parentRatingKey media) blockedKeys); simpl; [reflexivity|].
    destruct (hasKeyIn (Media.grandparentRatingKey media) blockedKeys); simpl; [reflexivity|].
    destruct allowedKeys; simpl.
    + destruct (Settings.skipunwatched settings), (Media.isWatched media); reflexivity.
    + destruct (inZ _ _), (hasKeyIn (Media.parentRatingKey media) _),
        (hasKeyIn (Media.grandparentRatingKey media) _),
        (Settings.skipunwatched settings), (Media.isWatched media); reflexivity.
  - destruct (inZ _ blockedKeys); simpl; [reflexivity|].
    destruct (hasKeyIn (Media.parentRatingKey media) blockedKeys); simpl; [reflexivity|].
    destruct (hasKeyIn (Media.grandparentRatingKey media) blockedKeys); simpl; [reflexivity|].
    destruct allowedKeys; simpl.
    + destruct (Settings.skipunwatched settings), (Media.isWatched media); reflexivity.
    + destruct (inZ _ _), (hasKeyIn (Media.parentRatingKey media) _),
        (hasKeyIn (Media.grandparentRatingKey media) _),
        (Settings.skipunwatched settings), (Media.isWatched media); reflexivity.
Qed.
End AdmissionFilter.

Lemma truthyS_false (x : string) : truthyS x = false <-> x = ""%string.
Proof. destruct x; simpl; split; congruence. Qed.

(** X2: [shouldAdd] admits a session exactly when its content type is
    on the list of types, its library (lower-cased by [str.lower], whatever
    that function does to the title) is not ignored, the first-episode
    rules that apply to it pass (the rule for the first episode of a
    season, and also the rule for the first episode of the series when it
    is both), none of its three keys is blocked, one of them is allowed
    when an allow list is configured, and it was watched unless unwatched
    content may be skipped. *)
Theorem shouldAdd_admits_iff (settings : Settings.t) (lower : string -> string)
    (w : MediaWrapper.t) :
  let media := MediaWrapper.media w in
  let entries := Settings.customEntries settings in
  shouldAdd settings lower w = true <->
  Media.type media ∈ Settings.types settings
  /\ (Media.librarySectionTitle media = ""%string \/
      lower (Media.librarySectionTitle media) ∉ Settings.ignoredlibraries settings)
  /\ (Media.episodeNumber media = Some 1 ->
      rule_passes (Settings.skipE01 settings) media)
  /\ (Media.episodeNumber media = Some 1 -> Media.seasonNumber media = Some 1 ->
      rule_passes (Settings.skipS01E01 settings) media)
  /\ ~ keyHit media (CustomEntries.blockedKeys entries)
  /\ (CustomEntries.allowedKeys entries = [] \/
      keyHit media (CustomEntries.allowedKeys entries))
  /\ (Settings.skipunwatched settings = true \/ Media.isWatched media = true).
Proof.
  intros media entries. rewrite shouldAdd_conjunction. subst media entries.
  rewrite !andb_true_iff, !(keyHit_spec w), !(rule_passes_spec w).
  set (media := MediaWrapper.media w). set (entries := Settings.customEntries settings).
  assert (Htype : inS (Media.type media) (Settings.types settings) = true
                  <-> Media.type media ∈ Settings.types settings)
    by (unfold inS; apply bool_decide_eq_true).
  assert (Hlib : negb (truthyS (Media.librarySectionTitle media)
                       && inS (lower (Media.librarySectionTitle media))
                              (Settings.ignoredlibraries settings)) = true
                 <-> (Media.librarySectionTitle media = ""%string \/
                      lower (Media.librarySectionTitle media)
                      ∉ Settings.ignoredlibraries settings)).
  { rewrite negb_true_iff, andb_false_iff, truthyS_false. unfold inS.
    rewrite bool_decide_eq_false. tauto. }
  assert (Hfirst :
    match Media.episodeNumber media with
    | Some episodeNumber =>
        negb ((episodeNumber =? 1)
              && (isNEVER (Settings.skipE01 settings)
                  || (isWATCHED (Settings.skipE01 settings)
                      && negb (Media.isWatched media))))
        && negb (match Media.seasonNumber media with
                 | Some seasonNumber => (seasonNumber =? 1) && (episodeNumber =? 1)
                 | None => false
                 end
                 && (isNEVER (Settings.skipS01E01 settings)
                     || (isWATCHED (Settings.skipS01E01 settings)
                         && negb (Media.isWatched media))))
    | None => true
    end = true
    <-> (Media.episodeNumber media = Some 1 ->
         isNEVER (Settings.skipE01 settings)
         || (isWATCHED (Settings.skipE01 settings) && negb (Media.isWatched media)) = false)
        /\ (Media.episodeNumber media = Some 1 -> Media.seasonNumber media = Some 1 ->
            isNEVER (Settings.skipS01E01 settings)
            || (isWATCHED (Settings.skipS01E01 settings) && negb (Media.isWatched media))
            = false)).
  { destruct (Media.episodeNumber media) as [e|]; [|split; [split; discriminate|auto]].
    destruct (Z.eqb_spec e 1) as [->|He]; simpl.
    - destruct (Media.seasonNumber media) as [sn|]; simpl.
      + destruct (Z.eqb_spec sn 1) as [->|Hsn]; simpl.
        * rewrite andb_true_iff, !negb_true_iff. tauto.
        * rewrite andb_true_r, negb_true_iff. split; [|tauto].
          intros H; split; auto. intros _ [= ?]. contradiction.
      + rewrite andb_true_r, negb_true_iff. split; [|tauto].
        intros H; split; auto. discriminate.
    - destruct (Media.seasonNumber media) as [sn|]; simpl;
        rewrite ?andb_false_r; simpl;
        (split; [intros _; split; intros [= ?]; contradiction | auto]). }
  assert (Hallowed :
    match CustomEntries.allowedKeys entries with [] => true | _ => false end
    || inZ (Media.ratingKey media) (CustomEntries.allowedKeys entries)
    || hasKeyIn (Media.parentRatingKey media) (CustomEntries.allowedKeys entries)
    || hasKeyIn (Media.grandparentRatingKey media) (CustomEntries.allowedKeys entries)
    = true
    <-> CustomEntries.allowedKeys entries = [] \/
        inZ (Media.ratingKey media) (CustomEntries.allowedKeys entries)
        || hasKeyIn (Media.parentRatingKey media) (CustomEntries.allowedKeys entries)
        || hasKeyIn (Media.grandparentRatingKey media) (CustomEntries.allowedKeys entries)
        = true).
  { destruct (CustomEntries.allowedKeys entries); simpl; [tauto|].
    split; [auto|]. intros [?|?]; [discriminate|auto]. }
  rewrite Htype, Hlib, Hfirst, Hallowed, negb_true_iff, not_true_iff_false,
    (orb_true_iff (Settings.skipunwatched settings)).
  tauto.
Qed.

(** X3: a session that is admitted is still admitted when its content is
    marked as watched: the watched flag only ever lifts a rejection. *)
Theorem shouldAdd_watched (settings : Settings.t) (lower : string -> string) (w : MediaWrapper.t) :
  shouldAdd settings lower w = true -> shouldAdd settings lower (watched w) = true.
Proof.
  rewrite !shouldAdd_conjunction. simpl.
  rewrite !andb_true_iff. intros (((((? & ?) & Hfirst) & ?) & ?) & ?).
  repeat split; auto.
  - destruct (Media.episodeNumber (MediaWrapper.media w)) as [e|]; auto.
    destruct (e =? 1), (Media.seasonNumber (MediaWrapper.media w)) as [sn|];
      try destruct (sn =? 1);
      destruct (isNEVER (Settings.skipE01 settings)),
        (isNEVER (Settings.skipS01E01 settings)),
        (isWATCHED (Settings.skipE01 settings)),
        (isWATCHED (Settings.skipS01E01 settings)),
        (Media.isWatched (MediaWrapper.media w)); simpl in *; congruence.
  - apply orb_true_r.
Qed.

(** A film that was not watched, admitted because unwatched content may be
    skipped, is admitted once it was watched. *)
Lemma shouldAdd_watched_witness :
  Media.isWatched (MediaWrapper.media Cases.premiere) = false
  /\ shouldAdd Scenario.settings ascii_lower Cases.premiere = true
  /\ shouldAdd Scenario.settings ascii_lower (watched Cases.premiere) = true.
Proof.
  split; [reflexivity|]. split; [reflexivity|].
  apply (shouldAdd_watched Scenario.settings ascii_lower Cases.premiere).
  reflexivity.
Defined.

Lemma truthyS_true (x : string) : truthyS x = true <-> x <> ""%string.
Proof. destruct x; simpl; split; congruence. Qed.

Lemma shared_name_spec (l1 l2 : list string) :
  existsb (fun x => inS x l2 && truthyS x) l1 = true <-> shared_name l1 l2.
Proof.
  unfold shared_name. rewrite existsb_exists. split.
  - intros (u & Hin & H). apply andb_true_iff in H as [H1 H2].
    exists u. rewrite list_elem_of_In. repeat split; auto.
    + now apply bool_decide_eq_true in H1.
    + now apply truthyS_true.
  - intros (u & H1 & H2 & H3). exists u. rewrite <- list_elem_of_In. split; auto.
    apply andb_true_iff. split; [now apply bool_decide_eq_true | now apply truthyS_true].
Qed.

Lemma shared_name_sym (l1 l2 : list string) : shared_name l1 l2 <-> shared_name l2 l1.
Proof. unfold shared_name. split; intros (u & ? & ? & ?); eauto. Qed.

Lemma client_on_spec (w : MediaWrapper.t) (p : PlexClient.t) (l : list string) :
  inS (PlexClient.title p) l || inS (MediaWrapper.clientIdentifier w) l = true
  <-> client_on w p l.
Proof.
  unfold client_on, inS. rewrite orb_true_iff, !bool_decide_eq_true. tauto.
Qed.

Lemma client_off_spec (w : MediaWrapper.t) (p : PlexClient.t) (l : list string) :
  negb (inS (PlexClient.title p) l) && negb (inS (MediaWrapper.clientIdentifier w) l) = true
  <-> ~ client_on w p l.
Proof.
  rewrite <- negb_orb, negb_true_iff, <- not_true_iff_false, client_on_spec. tauto.
Qed.

Lemma nonempty_spec {A} (l : list A) :
  match l with [] => false | _ => true end = false <-> l = [].
Proof. destruct l; split; congruence. Qed.

Lemma blockedClientUser_disjunction (settings : Settings.t) (w : MediaWrapper.t)
    (p : PlexClient.t) :
  let entries := Settings.customEntries settings in
  let usernames := PlexSession.usernames (MediaWrapper.session w) in
  let on l := inS (PlexClient.title p) l || inS (MediaWrapper.clientIdentifier w) l in
  MediaWrapper.player w = Some p ->
  blockedClientUser settings w =
  Return (existsb (fun b => inS b usernames && truthyS b) (CustomEntries.blockedUsers entries)
          || (match CustomEntries.allowedUsers entries with [] => false | _ => true end
              && negb (existsb (fun u => inS u (CustomEntries.allowedUsers entries)
                                         && truthyS u) usernames))
          || (match CustomEntries.allowedClients entries with [] => false | _ => true end
              && negb (on (CustomEntries.allowedClients entries)))
          || on (CustomEntries.blockedClients entries)).
Proof.
  intros entries usernames on Hp. unfold blockedClientUser, customEntries, player_title.
  fold entries usernames. rewrite Hp. subst on. cbv beta.
  destruct (existsb _ (CustomEntries.blockedUsers entries)); simpl; [reflexivity|].
  destruct (match CustomEntries.allowedUsers entries with [] => false | _ => true end
            && negb _); simpl; [reflexivity|].
  destruct (CustomEntries.allowedClients entries) as [|ac acs]; simpl.
  - destruct (CustomEntries.blockedClients entries) as [|bc bcs]; reflexivity.
  - rewrite <- negb_orb.
    destruct (inS _ (ac :: acs) || inS _ (ac :: acs)); simpl; [|reflexivity].
    destruct (CustomEntries.blockedClients entries) as [|bc bcs]; reflexivity.
Qed.

(** X4: for a session with a player, [blockedClientUser] raises nothing,
    and it lets the session through exactly when no user of the session is
    blocked, a user is allowed when an allow list of users is configured,
    the client is allowed (by the title of its player or by its
    identifier) when an allow list of clients is configured, and the client
    is not blocked: a block hit rejects also what an allow list names. *)
Theorem blockedClientUser_lets_through (settings : Settings.t) (w : MediaWrapper.t)
    (p : PlexClient.t) :
  let entries := Settings.customEntries settings in
  let usernames := PlexSession.usernames (MediaWrapper.session w) in
  MediaWrapper.player w = Some p ->
  (exists blocked, blockedClientUser settings w = Return blocked)
  /\ (blockedClientUser settings w = Return false <->
      ~ shared_name usernames (CustomEntries.blockedUsers entries)
      /\ (CustomEntries.allowedUsers entries = [] \/
          shared_name usernames (CustomEntries.allowedUsers entries))
      /\ (CustomEntries.allowedClients entries = [] \/
          client_on w p (CustomEntries.allowedClients entries))
      /\ ~ client_on w p (CustomEntries.blockedClients entries)).
Proof.
  intros entries usernames Hp.
  rewrite (blockedClientUser_disjunction settings w p Hp). fold entries usernames.
  split; [eauto|].
  rewrite <- (shared_name_sym (CustomEntries.blockedUsers entries) usernames).
  rewrite <- !shared_name_spec, <- !client_on_spec, <- !nonempty_spec.
  rewrite !not_true_iff_false.
  generalize (existsb (fun x => inS x usernames && truthyS x)
                (CustomEntries.blockedUsers entries)),
    (existsb (fun x => inS x (CustomEntries.allowedUsers entries) && truthyS x) usernames),
    (match CustomEntries.allowedUsers entries with [] => false | _ => true end),
    (match CustomEntries.allowedClients entries with [] => false | _ => true end),
    (inS (PlexClient.title p) (CustomEntries.allowedClients entries)
     || inS (MediaWrapper.clientIdentifier w) (CustomEntries.allowedClients entries)),
    (inS (PlexClient.title p) (CustomEntries.blockedClients entries)
     || inS (MediaWrapper.clientIdentifier w) (CustomEntries.blockedClients entries)).
  intros [] [] [] [] [] []; simpl; intuition congruence.
Qed.

Lemma blockedClientUser_lets_through_witness :
  blockedClientUser Scenario.settings (Scenario.wrapper (Some Scenario.roku) 0 false)
  = Return false.
Proof.
  apply (proj2 (blockedClientUser_lets_through Scenario.settings
                  (Scenario.wrapper (Some Scenario.roku) 0 false) Scenario.roku eq_refl)).
  split; [|split; [now left|split; [now left|]]].
  - intros (u & _ & H & _). inversion H.
  - intros [H|H]; inversion H.
Defined.

(** X5: for a session with a player, [shouldSkipNext] raises nothing,
    and it permits skip-next exactly when the setting is on, the client is
    on the allow list of skip-next when there is one, and the client is not
    on its block list. *)
Theorem shouldSkipNext_permits (settings : Settings.t) (w : MediaWrapper.t)
    (p : PlexClient.t) :
  let entries := Settings.customEntries settings in
  MediaWrapper.player w = Some p ->
  (exists permitted, shouldSkipNext settings w = Return permitted)
  /\ (shouldSkipNext settings w = Return true <->
      Settings.skipnext settings = true
      /\ (CustomEntries.allowedSkipNext entries = [] \/
          client_on w p (CustomEntries.allowedSkipNext entries))
      /\ ~ client_on w p (CustomEntries.blockedSkipNext entries)).
Proof.
  intros entries Hp.
  assert (Heq : shouldSkipNext settings w =
    Return (negb (match CustomEntries.allowedSkipNext entries with
                  | [] => false | _ => true end
                  && negb (inS (PlexClient.title p) (CustomEntries.allowedSkipNext entries)
                           || inS (MediaWrapper.clientIdentifier w)
                                  (CustomEntries.allowedSkipNext entries)))
            && negb (inS (PlexClient.title p) (CustomEntries.blockedSkipNext entries)
                     || inS (MediaWrapper.clientIdentifier w)
                            (CustomEntries.blockedSkipNext entries))
            && Settings.skipnext settings)).
  { unfold shouldSkipNext, customEntries, player_title. fold entries. rewrite Hp.
    destruct (CustomEntries.allowedSkipNext entries) as [|a l]; simpl.
    - destruct (CustomEntries.blockedSkipNext entries) as [|b l']; simpl; [reflexivity|].
      destruct (inS _ (b :: l') || inS _ (b :: l')); reflexivity.
    - rewrite <- negb_orb.
      destruct (inS _ (a :: l) || inS _ (a :: l)); simpl; [|reflexivity].
      destruct (CustomEntries.blockedSkipNext entries) as [|b l']; simpl; [reflexivity|].
      destruct (inS _ (b :: l') || inS _ (b :: l')); reflexivity. }
  rewrite Heq. split; [eauto|].
  rewrite <- !client_on_spec, <- !nonempty_spec, !not_true_iff_false.
  generalize (match CustomEntries.allowedSkipNext entries with [] => false | _ => true end),
    (inS (PlexClient.title p) (CustomEntries.allowedSkipNext entries)
     || inS (MediaWrapper.clientIdentifier w) (CustomEntries.allowedSkipNext entries)),
    (inS (PlexClient.title p) (CustomEntries.blockedSkipNext entries)
     || inS (MediaWrapper.clientIdentifier w) (CustomEntries.blockedSkipNext entries)),
    (Settings.skipnext settings).
  intros [] [] [] []; simpl; intuition congruence.
Qed.

Lemma shouldSkipNext_permits_witness :
  shouldSkipNext Scenario.settings (Scenario.wrapper (Some Scenario.roku) 0 false)
  = Return true.
Proof.
  apply (proj2 (shouldSkipNext_permits Scenario.settings
                  (Scenario.wrapper (Some Scenario.roku) 0 false) Scenario.roku eq_refl)).
  split; [reflexivity|]. split; [now left|]. intros [H|H]; inversion H.
Defined.

(** ** Versions *)

Lemma Version_compare_ge_trans (a b c : list N) :
  Version.compare a b <> Lt -> Version.compare b c <> Lt -> Version.compare a c <> Lt.
Proof.
  revert b c. induction a as [|x a IH]; intros [|y b] [|z c]; simpl; try congruence.
  destruct (N.compare_spec x y) as [->|Hxy|Hxy]; try congruence.
  - destruct (N.compare_spec y z) as [->|Hyz|Hyz]; try congruence. apply IH.
  - intros _. destruct (N.compare_spec y z) as [->|Hyz|Hyz]; try congruence.
    + intros _. destruct (N.compare_spec x z); try congruence; lia.
    + intros _. destruct (N.compare_spec x z); try congruence; lia.
Qed.

Lemma Version_geb_trans (a b c : Version.t) :
  Version.geb a b = true -> Version.geb b c = true -> Version.geb a c = true.
Proof.
  unfold Version.geb. intros Hab Hbc.
  pose proof (Version_compare_ge_trans (Version.strip a) (Version.strip b) (Version.strip c)).
  destruct (Version.compare (Version.strip a) (Version.strip b)),
    (Version.compare (Version.strip b) (Version.strip c)),
    (Version.compare (Version.strip a) (Version.strip c)); try congruence;
    exfalso; apply H; congruence.
Qed.

Lemma parse_version_nonempty (s : string) (v : Version.t) :
  parse_version s = Return v -> truthyS s = true.
Proof. destruct s; [discriminate|reflexivity]. Qed.

(** X6: [validPlayer] accepts every product that is not in the table of
    broken clients and every client that reports no version; and when it
    rejects a version of a product, it rejects every version of that
    product that is at or above it. *)
Theorem validPlayer_versions :
  (forall p, BROKEN_CLIENTS !! PlexClient.product p = None -> validPlayer p = Return true)
  /\ (forall p, PlexClient.version p = ""%string -> validPlayer p = Return true)
  /\ (forall p p' v v',
        PlexClient.product p' = PlexClient.product p ->
        parse_version (PlexClient.version p) = Return v ->
        parse_version (PlexClient.version p') = Return v' ->
        Version.geb v' v = true ->
        validPlayer p = Return false -> validPlayer p' = Return false).
Proof.
  split; [|split].
  - intros p H. unfold validPlayer. now rewrite H.
  - intros p H. unfold validPlayer. rewrite H.
    destruct (BROKEN_CLIENTS !! PlexClient.product p); [|reflexivity].
    now rewrite andb_false_r.
  - intros p p' v v' Hprod Hv Hv' Hge. unfold validPlayer. rewrite Hprod, Hv, Hv'.
    destruct (BROKEN_CLIENTS !! PlexClient.product p) as [bad|]; [|discriminate].
    rewrite (parse_version_nonempty _ _ Hv), (parse_version_nonempty _ _ Hv').
    destruct (truthyS bad); simpl; [|discriminate].
    destruct (parse_version bad) as [threshold|e]; simpl; [|auto].
    intros [= H]. f_equal. apply negb_false_iff in H. apply negb_false_iff.
    eapply Version_geb_trans; eauto.
Qed.

Lemma validPlayer_versions_witness :
  validPlayer (Scenario.client "Plex for Roku" "7.0" true) = Return true
  /\ validPlayer (Scenario.client "Plex for Mac" "" true) = Return true
  /\ validPlayer (Scenario.client "Plex for Mac" "2.0.1" true) = Return false.
Proof.
  destruct validPlayer_versions as (H1 & H2 & H3). split; [|split].
  - apply H1. reflexivity.
  - apply H2. reflexivity.
  - apply (H3 (Scenario.client "Plex for Mac" "1.46.1" true) _ [1; 46; 1]%N [2; 0; 1]%N);
      reflexivity.
Defined.


Section VolumeSources.
Variable settings : Settings.t.
Variable w : MediaWrapper.t.
Variables leftOffset rightOffset : Z.

Lemma custom_volume_spec :
  existsb (fun marker => within (CustomMarker.start marker) (MediaWrapper.viewOffset w)
                                (CustomMarker.end_ marker))
          (List.filter (fun m => MODE_TYPES.eqb (CustomMarker.mode m) MODE_TYPES.VOLUME)
                       (MediaWrapper.customMarkers w)) = true
  <-> exists m, covers_custom_volume w m.
Proof.
  rewrite existsb_exists. unfold covers_custom_volume.
  split; intros (m & H1 & H2); exists m.
  - apply filter_In in H1 as [Hin Hm]. apply mode_eqb_spec in Hm.
    apply within_spec in H2. auto.
  - destruct H2 as [Hm Hr]. split; [|now apply within_spec].
    apply filter_In. split; auto. now apply mode_eqb_spec.
Qed.

Lemma chapter_spec :
  existsb (fun chapter => within (Chapter.start chapter) (MediaWrapper.viewOffset w)
                                 (Chapter.end_ chapter)) (MediaWrapper.chapters w) = true
  <-> exists c, covers_chapter w c.
Proof.
  rewrite existsb_exists. unfold covers_chapter.
  split; intros (c & H1 & H2); exists c; split; auto; now apply within_spec.
Qed.

Lemma marker_padded_spec :
  existsb (fun marker => within (Marker.start marker + leftOffset)
                                (MediaWrapper.viewOffset w)
                                (Marker.end_ marker + rightOffset))
          (MediaWrapper.markers w) = true
  <-> exists m, covers_marker_padded w leftOffset rightOffset m.
Proof.
  rewrite existsb_exists. unfold covers_marker_padded.
  split; intros (c & H1 & H2); exists c; split; auto; now apply within_spec.
Qed.
End VolumeSources.

(** X7: [shouldLowerMediaVolume] is true whenever a custom lower-volume
    range covers the position, in any mode; without one it is false outside
    the lower-volume mode; in that mode it raises what the last-chapter
    guard raises, and otherwise it is true exactly when the last-chapter
    shortcut applies, or a chapter covers the position, or a server marker
    padded by the left and the right offset does. *)
Theorem shouldLowerMediaVolume_sources (settings : Settings.t) (w : MediaWrapper.t)
    (leftOffset rightOffset : Z) :
  let shouldLower := shouldLowerMediaVolume settings w leftOffset rightOffset in
  let standard :=
    (forall m, ~ covers_custom_volume w m) /\ MediaWrapper.mode w = MODE_TYPES.VOLUME in
  ((exists m, covers_custom_volume w m) -> shouldLower = Return true)
  /\ ((forall m, ~ covers_custom_volume w m) ->
      MediaWrapper.mode w <> MODE_TYPES.VOLUME -> shouldLower = Return false)
  /\ (standard -> forall e, lastchapter_enabled settings w = Raise e -> shouldLower = Raise e)
  /\ (standard -> forall enabled, lastchapter_enabled settings w = Return enabled ->
      exists lower, shouldLower = Return lower /\
        (lower = true <->
         (enabled = true /\ in_lastchapter w = true)
         \/ (exists c, covers_chapter w c)
         \/ (exists m, covers_marker_padded w leftOffset rightOffset m))).
Proof.
  intros shouldLower standard. subst shouldLower standard.
  unfold shouldLowerMediaVolume.
  pose proof (custom_volume_spec w) as Hc.
  destruct (existsb _ (List.filter _ _)).
  { split; [auto|]. destruct Hc as [Hc _]. specialize (Hc eq_refl) as (m & Hm).
    split; [|split]; [intros H | intros [H _]..]; now destruct (H m). }
  assert (Hno : ~ exists m, covers_custom_volume w m) by (rewrite <- Hc; discriminate).
  split; [tauto|].
  destruct (MODE_TYPES.eqb (MediaWrapper.mode w) MODE_TYPES.VOLUME) eqn:Em; simpl.
  - apply mode_eqb_spec in Em. split; [congruence|]. split.
    + intros _ e ->. reflexivity.
    + intros _ enabled ->. simpl.
      pose proof (chapter_spec w) as Hch.
      pose proof (marker_padded_spec w leftOffset rightOffset) as Hm.
      destruct (enabled && in_lastchapter w) eqn:El.
      { eexists; split; [reflexivity|]. apply andb_true_iff in El. tauto. }
      destruct (existsb _ (MediaWrapper.chapters w)).
      { eexists; split; [reflexivity|]. tauto. }
      eexists; split; [reflexivity|]. rewrite Hm.
      apply andb_false_iff in El. split; [tauto|].
      intros [[-> Hl]|[H|H]]; auto.
      * destruct El; congruence.
      * apply Hch in H. discriminate.
  - assert (MediaWrapper.mode w <> MODE_TYPES.VOLUME).
    { intros H. apply mode_eqb_spec in H. congruence. }
    split; [auto|]. split; intros [_ ?]; contradiction.
Qed.

(** X8: a skip check starts at most one thread, a seek on the session it
    checks, and nothing else; it starts none for a session outside the skip
    mode that no custom skip range covers; and with a right offset that is
    not negative and a last chapter that ends within the duration, the
    target of the seek is not before the position. *)
Theorem checkMediaSkip_outcome (settings : Settings.t) (r : ref)
    (leftOffset rightOffset : Z) (s : Skipper) :
  let w := objects s r in
  exists ths,
    snd (checkMediaSkip settings r leftOffset rightOffset s) = with_threads ths s
    /\ (length ths <= 1)%nat
    /\ ((forall m, ~ covers_custom w m) ->
        MediaWrapper.mode w <> MODE_TYPES.SKIP -> ths = [])
    /\ forall th, th ∈ ths ->
         exists targetOffset, th = SeekThread r targetOffset /\
           (0 <= rightOffset ->
            (forall lastchapter, MediaWrapper.lastchapter w = Some lastchapter ->
               Chapter.end_ lastchapter <= Media.duration (MediaWrapper.media w)) ->
            MediaWrapper.viewOffset w <= targetOffset).
Proof.
  intros w. rewrite checkMediaSkip_unfold. fold w.
  assert (Hnil : exists ths : list thread,
            s = with_threads ths s /\ (length ths <= 1)%nat
            /\ ((forall m, ~ covers_custom w m) ->
                MediaWrapper.mode w <> MODE_TYPES.SKIP -> ths = [])
            /\ forall th, th ∈ ths ->
                 exists targetOffset, th = SeekThread r targetOffset /\
                   (0 <= rightOffset ->
                    (forall lastchapter, MediaWrapper.lastchapter w = Some lastchapter ->
                       Chapter.end_ lastchapter <= Media.duration (MediaWrapper.media w)) ->
                    MediaWrapper.viewOffset w <= targetOffset)).
  { exists []. rewrite with_threads_nil. repeat split; auto.
    intros th Hth. inversion Hth. }
  assert (Hone : forall t,
            (0 <= rightOffset ->
             (forall lastchapter, MediaWrapper.lastchapter w = Some lastchapter ->
                Chapter.end_ lastchapter <= Media.duration (MediaWrapper.media w)) ->
             MediaWrapper.viewOffset w <= t) ->
            ((forall m, ~ covers_custom w m) -> MediaWrapper.mode w <> MODE_TYPES.SKIP -> False) ->
            exists ths : list thread,
              with_thread (SeekThread r t) s = with_threads ths s /\ (length ths <= 1)%nat
              /\ ((forall m, ~ covers_custom w m) ->
                  MediaWrapper.mode w <> MODE_TYPES.SKIP -> ths = [])
              /\ forall th, th ∈ ths ->
                   exists targetOffset, th = SeekThread r targetOffset /\
                     (0 <= rightOffset ->
                      (forall lastchapter, MediaWrapper.lastchapter w = Some lastchapter ->
                         Chapter.end_ lastchapter <= Media.duration (MediaWrapper.media w)) ->
                      MediaWrapper.viewOffset w <= targetOffset)).
  { intros t Ht Hmode. exists [SeekThread r t]. repeat split; auto.
    - intros H1 H2. destruct (Hmode H1 H2).
    - intros th Hth. apply list_elem_of_singleton in Hth as ->. eauto. }
  destruct (List.find (customRange w) (skipMarkers w)) as [m|] eqn:Ec; simpl.
  { apply custom_found in Ec. apply Hone.
    - intros _ _. destruct Ec as (_ & _ & ?). unfold w in *. lia.
    - intros H _. exact (H m Ec). }
  destruct (MODE_TYPES.eqb (MediaWrapper.mode w) MODE_TYPES.SKIP) eqn:Em; simpl; [|exact Hnil].
  apply mode_eqb_spec in Em.
  destruct (lastchapter_enabled settings w) as [enabled|e]; simpl; [|exact Hnil].
  destruct (enabled && in_lastchapter w) eqn:El; simpl.
  { apply Hone; [|congruence]. intros _ Hd.
    apply andb_true_iff in El as [_ El]. unfold in_lastchapter in El.
    destruct (MediaWrapper.lastchapter w) as [lc|] eqn:Elc; [|discriminate].
    apply within_spec in El. specialize (Hd lc eq_refl). unfold w in *. lia. }
  destruct (List.find (chapterRange w) (MediaWrapper.chapters w)) as [c|] eqn:Ech; simpl.
  { apply chapter_found in Ech. apply Hone; [|congruence].
    intros _ _. destruct Ech as (_ & ?). unfold w in *. lia. }
  destruct (List.find (markerRange w leftOffset) (MediaWrapper.markers w)) as [m|] eqn:Ema;
    simpl; [|exact Hnil].
  apply marker_found in Ema. apply Hone; [|congruence].
  intros Hr _. destruct Ema as (_ & ?). unfold w in *. lia.
Qed.

(** X9: when [recoverPlayer] yields a client, the client was proxied
    through the server and its product is not proxy-only; the client it
    yields is the same one with a direct base URL (protocol, address and
    the port of the account's table, of the product table or the default
    one), it is what the session holds from then on, the registry is
    untouched, and a further recovery of that client yields nothing. *)
Theorem recoverPlayer_one_shot (net : Remote) (r : ref) (p q : PlexClient.t)
    (protocol : string) (s s' : Skipper) :
  recoverPlayer net r p protocol s = (Return (Some q), s') ->
  (PlexClient.product p ∉ PROXY_ONLY)
  /\ PlexClient._proxyThroughServer p = true
  /\ (exists ports, clientPorts_reply net = Return ports /\ q = direct ports protocol p)
  /\ MediaWrapper.player (objects s' r) = Some q
  /\ media_sessions s' = media_sessions s
  /\ forall (net' : Remote) (protocol' : string) (s'' : Skipper),
       fst (recoverPlayer net' r q protocol' s'') = Return None.
Proof.
  rewrite recoverPlayer_eq. cbv zeta.
  destruct (inS (PlexClient.product p) PROXY_ONLY) eqn:Eproxy; simpl; [discriminate|].
  destruct (PlexClient._proxyThroughServer p) eqn:Ethrough; simpl; [|discriminate].
  destruct (clientPorts_reply net) as [ports|e]; [|discriminate].
  intros [= <- <-]. repeat split.
  - unfold inS in Eproxy. now apply bool_decide_eq_false in Eproxy.
  - eauto.
  - simpl. now rewrite fn_lookup_insert.
  - intros net' protocol' s''. rewrite recoverPlayer_eq. cbv zeta. simpl.
    now rewrite orb_true_r.
Qed.

Lemma recoverPlayer_one_shot_witness :
  let s := Scenario.process true (Scenario.wrapper (Some Scenario.roku) 1000 false) 1%Q in
  let net := Scenario.network (Raise BadRequest) None in
  PlexClient._baseurl (direct ∅ "http://" Scenario.roku) = "http://10.0.0.7:8324"%string
  /\ forall s'', fst (recoverPlayer net 0%nat (direct ∅ "http://" Scenario.roku)
                                    "http://" s'') = Return None.
Proof.
  intros s net. split; [reflexivity|].
  intros s''.
  refine (proj2 (proj2 (proj2 (proj2 (proj2
    (recoverPlayer_one_shot net 0%nat Scenario.roku (direct ∅ "http://" Scenario.roku)
       "http://" s _ _))))) net "http://" s'').
  rewrite recoverPlayer_eq. reflexivity.
Defined.


Lemma prefix_refl (x : string) : String.prefix x x = true.
Proof.
  induction x as [|c x IH]; simpl; auto. destruct (ascii_dec c c); [auto|contradiction].
Qed.

Lemma contains_suffix (needle before : string) :
  contains needle (before ++ needle) = true.
Proof.
  induction before as [|c before IH]; simpl.
  - destruct needle; [reflexivity|].
    change (String.prefix (String a needle) (String a needle) || contains (String a needle) needle
            = true).
    now rewrite prefix_refl.
  - rewrite IH. apply orb_true_r.
Qed.

Lemma append_assoc (a b c : string) : ((a ++ b) ++ c = a ++ (b ++ c))%string.
Proof.
  induction a as [|x a IH]; [reflexivity|].
  change (String x ((a ++ b) ++ c) = String x (a ++ (b ++ c)))%string. now rewrite IH.
Qed.

(** X10: [logErrorMessage] logs one line, and the line always carries the
    troubleshooting URL: the BadRequest hint when the message of the
    exception contains the player-not-found text (also when it contains the
    other text as well), the Forbidden hint when it only contains the 403
    text, and otherwise the default text; an exception without arguments
    makes it raise [IndexError]. *)
Theorem logErrorMessage_line (message : string) (rest : list string) (default : string) :
  let badRequest := "FrameworkException: Unable to find player with identifier"%string in
  let forbidden := "HTTPError: HTTP Error 403: Forbidden"%string in
  (exists line, logErrorMessage (message :: rest) default = Return line
                /\ contains TROUBLESHOOT_URL (logged_text line) = true)
  /\ (contains badRequest message = true ->
      logErrorMessage (message :: rest) default
      = Return (LogError ("BadRequest Error, see " ++ TROUBLESHOOT_URL ++ "#badrequest-error")))
  /\ (contains badRequest message = false -> contains forbidden message = true ->
      logErrorMessage (message :: rest) default
      = Return (LogError ("Forbidden Error, see " ++ TROUBLESHOOT_URL ++ "#forbidden-error")))
  /\ (contains badRequest message = false -> contains forbidden message = false ->
      logErrorMessage (message :: rest) default
      = Return (LogException (default ++ ", see " ++ TROUBLESHOOT_URL)))
  /\ logErrorMessage [] default = Raise IndexError.
Proof.
  intros badRequest forbidden. unfold logErrorMessage, ERRORS. cbn [List.find fst snd].
  fold badRequest forbidden.
  destruct (contains badRequest message) eqn:E1; [|destruct (contains forbidden message) eqn:E2].
  - repeat split; try discriminate; auto. eexists; split; [reflexivity|]. vm_compute. reflexivity.
  - repeat split; try discriminate; auto. eexists; split; [reflexivity|]. vm_compute. reflexivity.
  - repeat split; try discriminate; auto. eexists; split; [reflexivity|].
    cbn [logged_text]. rewrite <- append_assoc. apply contains_suffix.
Qed.


(** ** Steps without admission *)

Lemma evolves_refl (s : Skipper) : evolves s s.
Proof. repeat split; reflexivity. Qed.

Lemma evolves_trans (s1 s2 s3 : Skipper) : evolves s1 s2 -> evolves s2 s3 -> evolves s1 s3.
Proof.
  intros (H1 & H2 & H3 & H4) (K1 & K2 & K3 & K4). repeat split; try congruence.
  now transitivity (media_sessions s2).
Qed.

Lemma Dict_del_sublist {V} (k : PasId) (d : Dict.t V) : Dict.del k d `sublist_of` d.
Proof.
  unfold Dict.del. induction d as [|kv d IH]; simpl; [constructor|].
  destruct (negb _); now constructor.
Qed.

Lemma sublist_keys {V} (d' d : Dict.t V) :
  d' `sublist_of` d -> Dict.keys d' `sublist_of` Dict.keys d.
Proof. induction 1; simpl; now constructor. Qed.

Lemma evolves_evicted (id : PasId) (s : Skipper) : evolves s (evicted id s).
Proof. repeat split; try reflexivity. apply Dict_del_sublist. Qed.

Lemma evolves_with_threads (ths : list thread) (s : Skipper) : evolves s (with_threads ths s).
Proof. repeat split; reflexivity. Qed.

Lemma evolves_set_wire (evs : list event) (s : Skipper) : evolves s (set_wire evs s).
Proof. repeat split; reflexivity. Qed.

Lemma evolves_set_object (r : ref) (w : MediaWrapper.t) (s : Skipper) :
  MediaWrapper.pasIdentifier w = MediaWrapper.pasIdentifier (objects s r) ->
  evolves s (set_object r w s).
Proof.
  intros H. repeat split; try reflexivity. intros r'. simpl.
  destruct (decide (r' = r)) as [->|Hne].
  - now rewrite fn_lookup_insert.
  - now rewrite fn_lookup_insert_ne.
Qed.

Lemma registry_ok_evolves (s s' : Skipper) : registry_ok s -> evolves s s' -> registry_ok s'.
Proof.
  intros [Hnd Hok] (Hsub & _ & Hfresh & Hid). split.
  - eapply sublist_NoDup; [exact Hnd|]. now apply sublist_keys.
  - intros k r Hin. rewrite Hid, Hfresh. apply Hok. eapply elem_of_sublist; eauto.
Qed.

Section Evolution.
Variable settings : Settings.t.

Lemma removeSession_evolves (r : ref) (s : Skipper) : evolves s (snd (removeSession r s)).
Proof. rewrite removeSession_evicted. apply evolves_evicted. Qed.

Lemma checkMedia_evolves (r : ref) (s : Skipper) : evolves s (snd (checkMedia settings r s)).
Proof.
  destruct (MediaWrapper.seeking (objects s r)) eqn:Hseek.
  - unfold checkMedia. munfold. rewrite Hseek. apply evolves_refl.
  - destruct (checkMedia_active settings r s Hseek) as [ths H].
    destruct (checkMedia settings r s) as [[[]|e] s']; simpl.
    + destruct H as (atEnd & _ & ->). destruct (Qgtb _ _).
      * eapply evolves_trans; [apply evolves_with_threads | apply evolves_evicted].
      * apply evolves_with_threads.
    + subst s'. apply evolves_with_threads.
Qed.

Lemma checkAll_evolves (l : list ref) (s : Skipper) : evolves s (snd (checkAll settings l s)).
Proof.
  revert s. induction l as [|r l IH]; intros s; simpl; [apply evolves_refl|]. munfold.
  pose proof (checkMedia_evolves r s) as H.
  destruct (checkMedia settings r s) as [[[]|e] s1]; simpl in *; [|exact H].
  eapply evolves_trans; [exact H | apply IH].
Qed.

Lemma tick_evolves (s : Skipper) : evolves s (snd (tick settings s)).
Proof. unfold tick. munfold. apply checkAll_evolves. Qed.

Lemma purgeOldSessions_evolves (r : ref) (s : Skipper) :
  evolves s (snd (purgeOldSessions r s)).
Proof.
  unfold purgeOldSessions. munfold.
  generalize (Dict.values (media_sessions s)). intros l.
  induction l as [|r0 l IH]; simpl; [apply evolves_refl|]. munfold.
  destruct (player_machineIdentifier (objects s r)); simpl; [|apply evolves_refl].
  destruct (String.eqb _ _); [|exact IH].
  rewrite removeSession_evicted. apply evolves_evicted.
Qed.

Variable net : Remote.

Lemma attempt_evolves (th : thread) (s0 : Skipper) (q : PlexClient.t) (s : Skipper) :
  evolves s (snd (attempt settings net th s0 q s)).
Proof.
  destruct th as [r t | r v l]; simpl.
  - rewrite seekPlayerTo_try_eq. cbv zeta.
    destruct (seekCommand _ _ _ _ _); simpl.
    + eapply evolves_trans; [|apply evolves_set_wire]. now apply evolves_set_object.
    + now apply evolves_set_object.
  - rewrite setPlayerVolume_try_eq.
    destruct (timeline_reply net q); simpl; [|apply evolves_refl].
    eapply evolves_trans; [|apply evolves_set_wire]. now apply evolves_set_object.
Qed.

Lemma recoverPlayer_evolves (r : ref) (p : PlexClient.t) (protocol : string) (s : Skipper) :
  evolves s (snd (recoverPlayer net r p protocol s)).
Proof.
  rewrite recoverPlayer_eq. cbv zeta.
  destruct (_ || _); simpl; [apply evolves_set_wire|].
  destruct (clientPorts_reply net); simpl; [|apply evolves_set_wire].
  eapply evolves_trans; [apply evolves_set_wire|]. now apply evolves_set_object.
Qed.

Lemma runThread_evolves (th : thread) (s : Skipper) :
  evolves s (snd (runThread settings net th s)).
Proof.
  apply runThread_preserves.
  - apply evolves_refl.
  - apply evolves_trans.
  - intros q s1. apply attempt_evolves.
  - intros p s1. apply recoverPlayer_evolves.
  - intros e s1. apply evolves_set_wire.
  - intros id s1. apply evolves_evicted.
Qed.
End Evolution.


(** ** What a pass of the control loop does *)

Lemma spawns_refl (r : ref) (s : Skipper) : spawns r 0 s s.
Proof.
  split; [|repeat split; reflexivity]. exists []. rewrite app_nil_r.
  repeat split; auto. intros th H. inversion H.
Qed.

Lemma spawns_weaken (r : ref) (n m : nat) (s s' : Skipper) :
  (n <= m)%nat -> spawns r n s s' -> spawns r m s s'.
Proof.
  intros Hnm ((ths & H1 & H2 & H3) & H). split; [|exact H].
  exists ths. repeat split; auto. lia.
Qed.

Lemma spawns_trans (r : ref) (n m : nat) (s1 s2 s3 : Skipper) :
  spawns r n s1 s2 -> spawns r m s2 s3 -> spawns r (n + m) s1 s3.
Proof.
  intros ((ths & H1 & H2 & H3) & Hw & Ho & Hi & Hn & Hf)
         ((ths' & K1 & K2 & K3) & Kw & Ko & Ki & Kn & Kf).
  split; [|repeat split; congruence].
  exists (ths ++ ths'). repeat split.
  - now rewrite K1, H1, app_assoc.
  - rewrite length_app. lia.
  - intros th Hth. apply elem_of_app in Hth as [?|?]; auto.
Qed.

Lemma spawns_with_thread (r : ref) (th : thread) (s : Skipper) :
  thread_ref th = r -> spawns r 1 s (with_thread th s).
Proof.
  intros Hr. split; [|repeat split; reflexivity]. exists [th]. repeat split; auto.
  intros th' H. apply list_elem_of_singleton in H. now subst.
Qed.

Lemma spawns_evicted (r : ref) (id : PasId) (s : Skipper) : spawns r 0 s (evicted id s).
Proof.
  split; [|repeat split; reflexivity]. exists []. simpl. rewrite app_nil_r.
  repeat split; auto. intros th H. inversion H.
Qed.

Section Pass.
Variable settings : Settings.t.

Lemma checkMediaSkip_spawns (r : ref) (leftOffset rightOffset : Z) (s : Skipper) :
  spawns r 1 s (snd (checkMediaSkip settings r leftOffset rightOffset s)).
Proof.
  rewrite checkMediaSkip_unfold.
  pose proof (spawns_weaken r 0 1 s s (le_S _ _ (le_n 0)) (spawns_refl r s)) as Hnil.
  destruct (List.find _ (skipMarkers _)); [now apply spawns_with_thread|].
  destruct (negb _); [exact Hnil|].
  destruct (lastchapter_enabled _ _) as [enabled|e]; [|exact Hnil].
  destruct (enabled && _); [now apply spawns_with_thread|].
  destruct (List.find _ (MediaWrapper.chapters _)); [now apply spawns_with_thread|].
  destruct (List.find _ (MediaWrapper.markers _)); [now apply spawns_with_thread|exact Hnil].
Qed.

Lemma checkMediaVolume_spawns (r : ref) (leftOffset rightOffset : Z) (s : Skipper) :
  spawns r 1 s (snd (checkMediaVolume settings r leftOffset rightOffset s)).
Proof.
  rewrite checkMediaVolume_eq.
  pose proof (spawns_weaken r 0 1 s s (le_S _ _ (le_n 0)) (spawns_refl r s)) as Hnil.
  destruct (shouldLowerMediaVolume _ _ _ _) as [[|]|e]; [| |exact Hnil].
  - destruct (MediaWrapper.loweringVolume _); [exact Hnil|now apply spawns_with_thread].
  - destruct (MediaWrapper.loweringVolume _); [|exact Hnil].
    destruct (MediaWrapper.cachedVolume _); [now apply spawns_with_thread|exact Hnil].
Qed.

Lemma staleness_check_spawns (active : Prop) (r : ref) (s s3 : Skipper) :
  spawns r 3 s s3 -> media_sessions s3 = media_sessions s ->
  active ->
  let s' := snd ((if Qgtb (MediaWrapper.sinceLastUpdate (now s3) (objects s r))
                          (inject_Z TIMEOUT)
                  then removeSession r else ret tt) s3) in
  spawns r 3 s s' /\
  (media_sessions s' = media_sessions s \/
   (active /\ stale (now s) (objects s r) /\
    media_sessions s'
    = Dict.del (MediaWrapper.pasIdentifier (objects s r)) (media_sessions s))).
Proof.
  intros H123 Hreg Hseek s'. subst s'.
  pose proof H123 as (_ & _ & Hobj & _ & Hnow & _).
  destruct (Qgtb _ _) eqn:Estale.
  - rewrite removeSession_evicted. cbn [snd]. split.
    + apply (spawns_trans r 3 0 s s3 _ H123 (spawns_evicted r _ s3)).
    + right. split; [exact Hseek|]. split.
      * apply stale_spec. now rewrite Hnow in Estale.
      * simpl. now rewrite Hobj, Hreg.
  - cbn [snd ret]. split; [exact H123|]. left. exact Hreg.
Qed.

(** A check of the session [r] starts at most three threads, all on [r],
    and evicts at most the identity of [r], when [r] is not seeking and
    stale. *)
Lemma checkMedia_spawns (r : ref) (s : Skipper) :
  let s' := snd (checkMedia settings r s) in
  spawns r 3 s s' /\
  (media_sessions s' = media_sessions s \/
   (MediaWrapper.seeking (objects s r) = false /\ stale (now s) (objects s r) /\
    media_sessions s'
    = Dict.del (MediaWrapper.pasIdentifier (objects s r)) (media_sessions s))).
Proof.
  intros s'. subst s'. unfold checkMedia. munfold.
  destruct (MediaWrapper.seeking (objects s r)) eqn:Hseek.
  { split; [apply (spawns_weaken r 0); [lia|apply spawns_refl] | now left]. }
  set (lo := orZ _ _). set (ro := orZ _ _).
  pose proof (checkMediaSkip_spawns r lo ro s) as H1.
  pose proof (checkMediaSkip_starts settings r lo ro s) as [ths1 E1].
  destruct (checkMediaSkip settings r lo ro s) as [[[]|e] s1]; cbn [snd] in *;
    [|split; [apply (spawns_weaken r 1); [lia|exact H1] | left; now rewrite E1]].
  pose proof (checkMediaVolume_spawns r lo ro s1) as H2.
  pose proof (checkMediaVolume_starts settings r lo ro s1) as [ths2 E2].
  destruct (checkMediaVolume settings r lo ro s1) as [[[]|e] s2]; cbn [snd] in *;
    [|split; [apply (spawns_weaken r 2); [lia|apply (spawns_trans r 1 1 s s1 s2); auto]
             | left; now rewrite E2, E1]].
  pose proof (spawns_trans r 1 1 s s1 s2 H1 H2) as H12.
  assert (Hreg : media_sessions s2 = media_sessions s) by (now rewrite E2, E1).
  destruct (rand _ _) as [atEnd|e];
    [|split; [apply (spawns_weaken r 2); [lia|exact H12] | now left]].
  destruct atEnd.
  - unfold seekTo, start_thread, modify.
    change (set_started (started s2 ++ [SeekThread r (Media.duration
              (MediaWrapper.media (objects s r)))]) s2)
      with (with_thread (SeekThread r (Media.duration (MediaWrapper.media (objects s r)))) s2).
    apply (staleness_check_spawns (false = false) r s); auto.
    apply (spawns_trans r 2 1 s s2 _ H12). now apply spawns_with_thread.
  - apply (staleness_check_spawns (false = false) r s); auto.
    apply (spawns_weaken r 2); [lia|exact H12].
Qed.
End Pass.


Lemma spawns_nothing (r : ref) (s : Skipper) : spawns r 3 s s.
Proof. apply (spawns_weaken r 0); [lia | apply spawns_refl]. Qed.

Lemma purgeOldSessions_spawns (r : ref) (s : Skipper) :
  spawns r 3 s (snd (purgeOldSessions r s)).
Proof.
  apply (spawns_weaken r 0); [lia|].
  assert (Hnil : spawns r 0 s s) by apply spawns_refl.
  unfold purgeOldSessions. munfold.
  generalize (Dict.values (media_sessions s)). intros l.
  induction l as [|r0 l IH]; simpl; [exact Hnil|]. munfold.
  destruct (player_machineIdentifier (objects s r)); simpl; [|exact Hnil].
  destruct (String.eqb _ _); [|exact IH].
  rewrite removeSession_evicted. apply spawns_evicted.
Qed.

Lemma purgeOldSessions_quiet (r : ref) (s : Skipper) :
  spawns r 0 s (snd (purgeOldSessions r s)).
Proof.
  assert (Hnil : spawns r 0 s s) by apply spawns_refl.
  unfold purgeOldSessions. munfold.
  generalize (Dict.values (media_sessions s)). intros l.
  induction l as [|r0 l IH]; simpl; [exact Hnil|]. munfold.
  destruct (player_machineIdentifier (objects s r)); simpl; [|exact Hnil].
  destruct (String.eqb _ _); [|exact IH].
  rewrite removeSession_evicted. apply spawns_evicted.
Qed.

Lemma Dict_get_elem {V} (k : PasId) (v : V) (d : Dict.t V) :
  Dict.get k d = Some v -> (k, v) ∈ d.
Proof.
  induction d as [|[k0 v0] d IH]; simpl; [discriminate|].
  destruct (decide (k0 = k)) as [->|Hne].
  - rewrite bool_decide_eq_true_2 by reflexivity. intros [= ->]. left.
  - rewrite bool_decide_eq_false_2 by exact Hne. intros H. right. auto.
Qed.

Section Admissions.
Variable settings : Settings.t.
Variable lower : string -> string.

Lemma ignoreSession_admission (r : ref) (s : Skipper) :
  admission r s (snd (ignoreSession r s)).
Proof.
  unfold ignoreSession. munfold.
  pose proof (purgeOldSessions_evolves r s) as H1.
  pose proof (purgeOldSessions_spawns r s) as H2.
  destruct (purgeOldSessions r s) as [[[]|e] s1]; simpl in *.
  - exists s1. split; [exact H1|]. split; [exact H2|].
    right. right. unfold put_aside. destruct H2 as (_ & _ & -> & _). reflexivity.
  - exists s1. split; [exact H1|]. split; [exact H2|]. now left.
Qed.

Lemma addSession_admission (r : ref) (s : Skipper) :
  admission r s (snd (addSession settings r s)).
Proof.
  unfold addSession. munfold.
  destruct (MediaWrapper.player (objects s r)) as [p|]; [|apply ignoreSession_admission].
  unfold lift. destruct (validPlayer p) as [[|]|e]; simpl;
    [| apply ignoreSession_admission
     | exists s; split; [apply evolves_refl|]; split; [apply spawns_nothing|]; now left].
  pose proof (purgeOldSessions_evolves r s) as H1.
  pose proof (purgeOldSessions_spawns r s) as H2.
  destruct (purgeOldSessions r s) as [[[]|e] s1] eqn:E; simpl in *;
    [|exists s1; split; [exact H1|]; split; [exact H2|]; now left].
  pose proof (checkMedia_evolves settings r s1) as H3.
  destruct (checkMedia_spawns settings r s1) as [H4 _].
  pose proof (purgeOldSessions_quiet r s) as H2'. rewrite E in H2'. cbn [snd] in H2'.
  pose proof (spawns_trans r 0 3 s s1 _ H2' H4) as H5. cbn [Nat.add] in H5.
  destruct (checkMedia settings r s1) as [[[]|e] s2]; simpl in *.
  - exists s2. split; [eapply evolves_trans; eauto|]. split; [exact H5|].
    right. left. unfold filed. destruct H5 as (_ & _ & -> & _). reflexivity.
  - exists s2. split; [eapply evolves_trans; eauto|]. split; [exact H5|]. now left.
Qed.

Variable newMediaWrapper : PlexSession.t -> string -> string -> Z -> result MediaWrapper.t.

(** An event changes nothing, or refreshes the tracked session of its
    identity, or leads to the admission of a new object for an identity that
    is neither tracked nor ignored. *)
Lemma processAlert_cases (data : Alert.t) (sessions : result (list PlexSession.t))
    (s : Skipper) :
  let s' := snd (processAlert settings lower newMediaWrapper data sessions s) in
  let id := getSessionClientIdentifier (Alert.sessionKey data) (Alert.clientIdentifier data) in
  s' = s \/
  (exists tracked mediaSession,
     (id, tracked) ∈ media_sessions s /\
     getMediaSession sessions (Alert.sessionKey data) = Some mediaSession /\
     s' = set_object tracked
            (MediaWrapper.updateOffset (now s) (PlexSession.viewOffset mediaSession) false
                                       (Some (Alert.state data)) (objects s tracked)) s) \/
  ((id ∉ ignored s) /\ (id ∉ Dict.keys (media_sessions s)) /\
   exists mediaSession w s0,
     getMediaSession sessions (Alert.sessionKey data) = Some mediaSession /\
     newMediaWrapper mediaSession (Alert.clientIdentifier data) (Alert.state data)
                     (Alert.playQueueID data) = Return w /\
     allocated w s s0 /\ admission (fresh_ref s) s0 s').
Proof.
  intros s' id. subst s'. unfold processAlert.
  destruct (String.eqb (Alert.type data) "playing"); [|now left].
  munfold. fold id.
  destruct (bool_decide (id ∈ ignored s)) eqn:Eign; [now left|].
  apply bool_decide_eq_false in Eign.
  destruct (getMediaSession sessions (Alert.sessionKey data)) as [mediaSession|] eqn:Ems;
    [|now left].
  destruct (PlexSession.session mediaSession) as [session|]; [|now left].
  destruct (String.eqb (Session.location session) "lan"); [|now left].
  destruct (Dict.mem id (media_sessions s)) eqn:Emem; cbn [negb].
  - destruct (Dict.get id (media_sessions s)) as [tracked|] eqn:Eget; [|now left].
    right. left. exists tracked, mediaSession. split; [now apply Dict_get_elem|].
    split; reflexivity.
  - unfold Dict.mem in Emem. apply bool_decide_eq_false in Emem.
    destruct (newMediaWrapper _ _ _ _) as [w|e] eqn:Enew; [|now left].
    unfold new_object.
    set (s1 := set_fresh_ref (S (fresh_ref s)) (set_object (fresh_ref s) w s)).
    assert (Hs1 : allocated w s s1).
    { subst s1. repeat split; simpl; auto.
      - intros r Hr. now rewrite fn_lookup_insert_ne.
      - now rewrite fn_lookup_insert. }
    assert (Hstay : admission (fresh_ref s) s1 s1).
    { exists s1. split; [apply evolves_refl|]. split; [apply spawns_nothing|]. now left. }
    right. right. split; [exact Eign|]. split; [exact Emem|]. exists mediaSession, w.
    destruct (blockedClientUser settings w) as [[|]|e]; cbn [snd negb];
      try (exists s1; split; [reflexivity|]; split; [exact Enew|]; split; [exact Hs1|exact Hstay]).
    destruct (shouldAdd settings lower w).
    + exists s1. split; [reflexivity|]. split; [exact Enew|]. split; [exact Hs1|].
      pose proof (addSession_admission (fresh_ref s) s1) as H.
      destruct (addSession settings (fresh_ref s) s1) as [[[]|e] s2]; exact H.
    + destruct (0 <? _)%nat.
      * set (s2 := set_object _ _ s1).
        exists s2. split; [reflexivity|]. split; [exact Enew|]. split.
        { subst s2 s1. repeat split; simpl; auto.
          - intros r Hr. now rewrite !fn_lookup_insert_ne.
          - now rewrite !fn_lookup_insert. }
        pose proof (addSession_admission (fresh_ref s) s2) as H.
        destruct (addSession settings (fresh_ref s) s2) as [[[]|e] s3]; exact H.
      * exists s1. split; [reflexivity|]. split; [exact Enew|]. split; [exact Hs1|].
        pose proof (ignoreSession_admission (fresh_ref s) s1) as H.
        destruct (ignoreSession (fresh_ref s) s1) as [[[]|e] s2]; exact H.
Qed.

Lemma processAlert_effect (data : Alert.t) (sessions : result (list PlexSession.t))
    (s : Skipper) :
  let s' := snd (processAlert settings lower newMediaWrapper data sessions s) in
  let id := getSessionClientIdentifier (Alert.sessionKey data) (Alert.clientIdentifier data) in
  evolves s s' \/
  ((id ∉ ignored s) /\ (id ∉ Dict.keys (media_sessions s)) /\
   exists mediaSession w s0,
     getMediaSession sessions (Alert.sessionKey data) = Some mediaSession /\
     newMediaWrapper mediaSession (Alert.clientIdentifier data) (Alert.state data)
                     (Alert.playQueueID data) = Return w /\
     allocated w s s0 /\ admission (fresh_ref s) s0 s').
Proof.
  intros s' id.
  destruct (processAlert_cases data sessions s) as [H | [(tr & ms & _ & _ & H) | H]].
  - left. subst s'. rewrite H. apply evolves_refl.
  - left. subst s'. rewrite H. now apply evolves_set_object.
  - now right.
Qed.
End Admissions.


(** ** The registry stays well formed *)

Lemma Dict_set_elem {V} (k k' : PasId) (v v' : V) (d : Dict.t V) :
  (k', v') ∈ Dict.set k v d -> (k' = k /\ v' = v) \/ (k', v') ∈ d.
Proof.
  induction d as [|[k0 v0] d IH]; simpl.
  - intros H. apply list_elem_of_singleton in H. injection H as -> ->. now left.
  - destruct (bool_decide (k0 = k)).
    + intros H. apply elem_of_cons in H as [[= -> ->]|H]; [now left|]. right. now right.
    + intros H. apply elem_of_cons in H as [[= -> ->]|H]; [right; now left|].
      destruct (IH H) as [?|?]; [now left|]. right. now right.
Qed.

Lemma Dict_set_keys {V} (k : PasId) (v : V) (d : Dict.t V) :
  Dict.keys (Dict.set k v d) = if Dict.mem k d then Dict.keys d else Dict.keys d ++ [k].
Proof.
  unfold Dict.mem. induction d as [|[k0 v0] d IH]; simpl; [reflexivity|].
  destruct (decide (k0 = k)) as [->|Hne].
  - rewrite !bool_decide_eq_true_2; [reflexivity| |reflexivity]. left.
  - rewrite (bool_decide_eq_false_2 (k0 = k)) by exact Hne. simpl. rewrite IH.
    destruct (bool_decide (k ∈ Dict.keys d)) eqn:E.
    + apply bool_decide_eq_true in E. rewrite bool_decide_eq_true_2; [reflexivity|].
      now right.
    + apply bool_decide_eq_false in E. rewrite bool_decide_eq_false_2; [reflexivity|].
      intros H. apply elem_of_cons in H as [?|?]; congruence.
Qed.

Lemma Dict_set_NoDup {V} (k : PasId) (v : V) (d : Dict.t V) :
  NoDup (Dict.keys d) -> NoDup (Dict.keys (Dict.set k v d)).
Proof.
  intros H. rewrite Dict_set_keys. unfold Dict.mem.
  destruct (bool_decide (k ∈ Dict.keys d)) eqn:E; [exact H|].
  apply bool_decide_eq_false in E. apply NoDup_app. repeat split; auto.
  - intros x Hx Hk. apply list_elem_of_singleton in Hk. congruence.
  - apply NoDup_singleton.
Qed.

Lemma registry_ok_allocated (w : MediaWrapper.t) (s s0 : Skipper) :
  registry_ok s -> allocated w s s0 -> registry_ok s0.
Proof.
  intros [Hnd Hok] (Hreg & _ & _ & _ & _ & Hfresh & Hobj & _). split.
  - now rewrite Hreg.
  - intros k r Hin. rewrite Hreg in Hin. destruct (Hok k r Hin) as [Hk Hr].
    rewrite Hfresh, Hobj by lia. split; [exact Hk | lia].
Qed.

Lemma registry_ok_admitted (r : ref) (s : Skipper) :
  registry_ok s -> (r < fresh_ref s)%nat -> registry_ok (filed r s).
Proof.
  intros [Hnd Hok] Hr. split; simpl.
  - now apply Dict_set_NoDup.
  - intros k r' Hin. apply Dict_set_elem in Hin as [[-> ->]|Hin]; auto.
Qed.

Lemma registry_ok_admission (r : ref) (s0 s' : Skipper) :
  registry_ok s0 -> (r < fresh_ref s0)%nat -> admission r s0 s' -> registry_ok s'.
Proof.
  intros Hok Hr (s1 & Hev & Hobj & Hs').
  pose proof (registry_ok_evolves _ _ Hok Hev) as Hok1.
  destruct Hs' as [->| [->| ->]]; auto.
  apply registry_ok_admitted; auto. destruct Hev as (_ & _ & -> & _). exact Hr.
Qed.

Section RegistryInvariant.
Variable settings : Settings.t.
Variable lower : string -> string.
Variable newMediaWrapper : PlexSession.t -> string -> string -> Z -> result MediaWrapper.t.

Lemma step_evolves (l : label) (s : Skipper) :
  (forall data sessions, l <> Notify data sessions) ->
  evolves s (snd (step settings lower newMediaWrapper l s)).
Proof.
  intros Hl. destruct l as [data sessions | | i net | seconds]; simpl.
  - now destruct (Hl data sessions).
  - apply tick_evolves.
  - munfold. destruct (started s !! i) as [th|]; [|apply evolves_refl].
    set (s1 := set_started _ s).
    eapply evolves_trans; [|apply runThread_evolves]. repeat split; reflexivity.
  - repeat split; reflexivity.
Qed.

Lemma step_registry_ok (l : label) (s : Skipper) :
  registry_ok s -> registry_ok (snd (step settings lower newMediaWrapper l s)).
Proof.
  intros Hok. destruct l as [data sessions | | i net | seconds].
  - destruct (processAlert_effect settings lower newMediaWrapper data sessions s)
      as [Hev | (_ & _ & ms & w & s0 & _ & _ & Halloc & Hadm)].
    + eapply registry_ok_evolves; eauto.
    + eapply registry_ok_admission; [| |exact Hadm].
      * eapply registry_ok_allocated; eauto.
      * destruct Halloc as (_ & _ & _ & _ & _ & -> & _). lia.
  - eapply registry_ok_evolves; [exact Hok|]. now apply step_evolves.
  - eapply registry_ok_evolves; [exact Hok|]. now apply step_evolves.
  - eapply registry_ok_evolves; [exact Hok|]. now apply step_evolves.
Qed.

Lemma exec_preserves (P : Skipper -> Prop) (ls : list label) (s : Skipper) :
  (forall l s1, P s1 -> P (snd (step settings lower newMediaWrapper l s1))) ->
  P s -> P (snd (exec settings lower newMediaWrapper ls s)).
Proof.
  intros Hstep. revert s. induction ls as [|l ls IH]; intros s Hs; simpl; [exact Hs|].
  munfold. pose proof (Hstep l s Hs) as H.
  destruct (step settings lower newMediaWrapper l s) as [[[]|e] s1]; simpl in *; auto.
Qed.
End RegistryInvariant.

(** X11: the registry stays well formed along every run of the process
    (events, passes of the loop, threads, time): no identity is filed twice
    and every entry is filed under the identity of the session it refers
    to. *)
Theorem registry_stays_ok (settings : Settings.t) (lower : string -> string)
    (newMediaWrapper : PlexSession.t -> string -> string -> Z -> result MediaWrapper.t)
    (ls : list label) (s : Skipper) :
  registry_ok s -> registry_ok (snd (exec settings lower newMediaWrapper ls s)).
Proof. intros H. apply exec_preserves; auto. intros l s1. apply step_registry_ok. Qed.

Lemma registry_ok_empty (s : Skipper) : media_sessions s = [] -> registry_ok s.
Proof.
  intros H. split; rewrite H; [constructor|]. intros k r Hin. inversion Hin.
Qed.

Lemma registry_stays_ok_witness :
  let net := Scenario.network (Return tt) None in
  let run := [Notify Cases.playing (Return [Scenario.plexSession "lan"]); Tick; Run 0 net] in
  let s' := snd (exec Scenario.settings ascii_lower Cases.newMediaWrapper run Cases.idle) in
  registry_ok s'.
Proof.
  intros net run s'.
  apply (registry_stays_ok Scenario.settings ascii_lower Cases.newMediaWrapper run Cases.idle).
  apply registry_ok_empty. reflexivity.
Defined.

(** ** The ignore list *)

Lemma lastn_length {A} (n : nat) (l : list A) : (length (lastn n l) <= n)%nat.
Proof. unfold lastn. rewrite length_drop. lia. Qed.

Lemma lastn_elem_of {A} (n : nat) (l : list A) (x : A) : x ∈ lastn n l -> x ∈ l.
Proof. unfold lastn. intros H. eapply elem_of_sublist; [exact H | apply sublist_drop]. Qed.

Section IgnoreList.
Variable settings : Settings.t.
Variable lower : string -> string.
Variable newMediaWrapper : PlexSession.t -> string -> string -> Z -> result MediaWrapper.t.

(** A step leaves the ignore list as it is or appends one identity and
    cuts the list to its last [IGNORED_CAP] entries. *)
Lemma step_ignored (l : label) (s : Skipper) :
  let s' := snd (step settings lower newMediaWrapper l s) in
  ignored s' = ignored s \/
  exists id, ignored s' = lastn IGNORED_CAP (ignored s ++ [id]).
Proof.
  intros s'. subst s'. destruct l as [data sessions | | i net | seconds];
    try (left; apply (step_evolves settings lower newMediaWrapper); intros; discriminate).
  destruct (processAlert_effect settings lower newMediaWrapper data sessions s)
    as [Hev | (_ & _ & ms & w & s0 & _ & _ & Halloc & s1 & Hev & _ & Hs')].
  - left. apply Hev.
  - destruct Halloc as (_ & Hign & _). destruct Hev as (_ & Hign1 & _). simpl.
    destruct Hs' as [->| [->| ->]]; simpl; try (left; congruence).
    right. eexists. rewrite Hign1, Hign. reflexivity.
Qed.
End IgnoreList.

(** X12: along every run of the process the ignore list never grows
    beyond [IGNORED_CAP] entries. *)
Theorem ignored_stays_capped (settings : Settings.t) (lower : string -> string)
    (newMediaWrapper : PlexSession.t -> string -> string -> Z -> result MediaWrapper.t)
    (ls : list label) (s : Skipper) :
  (length (ignored s) <= IGNORED_CAP)%nat ->
  (length (ignored (snd (exec settings lower newMediaWrapper ls s))) <= IGNORED_CAP)%nat.
Proof.
  intros H.
  apply (exec_preserves settings lower newMediaWrapper
           (fun s => (length (ignored s) <= IGNORED_CAP)%nat)); auto.
  intros l s1 Hs1.
  destruct (step_ignored settings lower newMediaWrapper l s1) as [-> | [id ->]]; auto.
  apply lastn_length.
Qed.

Lemma ignored_stays_capped_witness :
  let net := Scenario.network (Return tt) None in
  let run := [Notify Cases.playing (Return [Scenario.plexSession "lan"]); Tick; Run 0 net] in
  (length (ignored (snd (exec Scenario.settings ascii_lower Cases.newMediaWrapper run Cases.idle)))
   <= IGNORED_CAP)%nat.
Proof.
  intros net run.
  apply (ignored_stays_capped Scenario.settings ascii_lower Cases.newMediaWrapper run Cases.idle).
  simpl. unfold IGNORED_CAP. lia.
Defined.


Lemma getMediaSession_key (sessions : result (list PlexSession.t)) (sessionKey : Z)
    (mediaSession : PlexSession.t) :
  getMediaSession sessions sessionKey = Some mediaSession ->
  PlexSession.sessionKey mediaSession = sessionKey.
Proof.
  destruct sessions as [l|e]; simpl; [|discriminate].
  intros H. apply find_some in H as [_ H]. now apply Z.eqb_eq in H.
Qed.

Lemma Dict_set_key_elem {V} (k k' : PasId) (v : V) (d : Dict.t V) :
  k' ∈ Dict.keys (Dict.set k v d) -> k' = k \/ k' ∈ Dict.keys d.
Proof.
  rewrite Dict_set_keys. destruct (Dict.mem k d); [now right|].
  intros H. apply elem_of_app in H as [H|H]; [now right|].
  apply list_elem_of_singleton in H. now left.
Qed.

Section Apart.
Variable settings : Settings.t.
Variable lower : string -> string.
Variable newMediaWrapper : PlexSession.t -> string -> string -> Z -> result MediaWrapper.t.
Hypothesis Hnames : names_sessions newMediaWrapper.

Lemma step_tracked_apart (l : label) (s : Skipper) :
  tracked_apart s -> tracked_apart (snd (step settings lower newMediaWrapper l s)).
Proof.
  intros Hs.
  assert (Hev : forall s', evolves s s' -> tracked_apart s').
  { intros s' (Hsub & Hign & _) k Hk. rewrite Hign. apply Hs.
    eapply elem_of_sublist; [exact Hk | now apply sublist_keys]. }
  destruct l as [data sessions | | i net | seconds];
    try (apply Hev, (step_evolves settings lower newMediaWrapper); intros; discriminate).
  destruct (processAlert_effect settings lower newMediaWrapper data sessions s)
    as [H | (Hign & Hreg & ms & w & s0 & Hms & Hnew & Halloc & s1 & Hs1 & Hsp & Hs')];
    [now apply Hev|].
  destruct Hsp as (_ & _ & Hobj & _).
  simpl. apply Hnames in Hnew. rewrite (getMediaSession_key _ _ _ Hms) in Hnew.
  destruct Halloc as (Hreg0 & Hign0 & _ & _ & _ & _ & _ & Hid).
  destruct Hs1 as (Hsub & Hign1 & _).
  assert (Hkeys : forall k, k ∈ Dict.keys (media_sessions s1) ->
                            k ∈ Dict.keys (media_sessions s)).
  { intros k Hk. rewrite <- Hreg0. eapply elem_of_sublist; [exact Hk|].
    now apply sublist_keys. }
  assert (Hnew' : MediaWrapper.pasIdentifier (objects s1 (fresh_ref s))
                  = getSessionClientIdentifier (Alert.sessionKey data)
                                               (Alert.clientIdentifier data))
    by (rewrite Hobj; congruence).
  destruct Hs' as [->| [->| ->]]; intros k Hk; simpl in *.
  - rewrite Hign1, Hign0. auto.
  - rewrite Hign1, Hign0. apply Dict_set_key_elem in Hk as [->|Hk]; [|auto].
    now rewrite Hnew'.
  - intros Hin. apply lastn_elem_of, elem_of_app in Hin as [Hin|Hin].
    + rewrite Hign1, Hign0 in Hin. now apply (Hs k (Hkeys k Hk)).
    + apply list_elem_of_singleton in Hin. rewrite Hnew' in Hin. subst k.
      now apply Hreg, Hkeys.
Qed.
End Apart.

(** X13: when the constructor names a wrapper after the session and the
    client of its notification, no identity is ever both tracked and on the
    ignore list, along every run of the process. *)
Theorem tracked_stays_apart (settings : Settings.t) (lower : string -> string)
    (newMediaWrapper : PlexSession.t -> string -> string -> Z -> result MediaWrapper.t)
    (ls : list label) (s : Skipper) :
  names_sessions newMediaWrapper ->
  tracked_apart s ->
  tracked_apart (snd (exec settings lower newMediaWrapper ls s)).
Proof.
  intros Hnames H. apply exec_preserves; auto.
  intros l s1. now apply step_tracked_apart.
Qed.

Lemma tracked_stays_apart_witness :
  let net := Scenario.network (Return tt) None in
  let run := [Notify Cases.playing (Return [Scenario.plexSession "lan"]); Tick; Run 0 net] in
  tracked_apart (snd (exec Scenario.settings ascii_lower Cases.newMediaWrapper run Cases.idle)).
Proof.
  intros net run.
  apply (tracked_stays_apart Scenario.settings ascii_lower Cases.newMediaWrapper run Cases.idle).
  - intros ms c st q w [= <-]. reflexivity.
  - intros k Hk. inversion Hk.
Defined.


(** ** Passes of the control loop *)

Section Passes.
Variable settings : Settings.t.

Lemma checkAll_pass (l : list ref) (s : Skipper) :
  pass l 3 s (snd (checkAll settings l s)).
Proof.
  revert s. induction l as [|r l IH]; intros s; simpl.
  { split; [|repeat split; reflexivity]. exists []. rewrite app_nil_r.
    repeat split; auto. intros th H. inversion H. }
  munfold. destruct (checkMedia_spawns settings r s) as [Hr _].
  assert (Hone : forall s1, spawns r 3 s s1 -> pass (r :: l) 3 s s1).
  { intros s1 ((ths & H1 & H2 & H3) & H). split; [|exact H].
    exists ths. repeat split; auto.
    - simpl. lia.
    - intros th Hth. rewrite (H3 th Hth). left. }
  destruct (checkMedia settings r s) as [[[]|e] s1]; cbn [snd] in *; [|now apply Hone].
  destruct Hr as ((ths & H1 & H2 & H3) & Hw & Ho & Hi & Hn & Hf).
  destruct (IH s1) as ((ths' & K1 & K2 & K3) & Kw & Ko & Ki & Kn & Kf).
  split; [|repeat split; congruence].
  exists (ths ++ ths'). repeat split.
  - now rewrite K1, H1, app_assoc.
  - rewrite length_app. simpl. lia.
  - intros th Hth. apply elem_of_app in Hth as [Hth|Hth].
    + rewrite (H3 th Hth). left.
    + right. auto.
Qed.

Lemma checkAll_evicts_expired (l : list ref) (s : Skipper) (k : PasId) :
  k ∈ Dict.keys (media_sessions s) ->
  k ∉ Dict.keys (media_sessions (snd (checkAll settings l s))) ->
  exists r, r ∈ l /\ MediaWrapper.pasIdentifier (objects s r) = k /\ expired s r.
Proof.
  revert s. induction l as [|r l IH]; intros s Hin Hout; simpl in Hout; [contradiction|].
  munfold. destruct (checkMedia_spawns settings r s) as [Hsp Hreg].
  destruct Hsp as (_ & _ & Hobj & _ & Hnow & _).
  assert (Hhere : forall s1, snd (checkMedia settings r s) = s1 ->
            k ∉ Dict.keys (media_sessions s1) ->
            exists r0, r0 ∈ r :: l /\ MediaWrapper.pasIdentifier (objects s r0) = k
                       /\ expired s r0).
  { intros s1 <- Hk. destruct Hreg as [Hreg | (Hseek & Hstale & Hreg)].
    - rewrite Hreg in Hk. contradiction.
    - exists r. split; [left|]. split; [|split; auto].
      rewrite Hreg in Hk. destruct (decide (k = MediaWrapper.pasIdentifier (objects s r)));
        [congruence|]. exfalso. apply Hk. now apply Dict_keys_del. }
  destruct (checkMedia settings r s) as [[[]|e] s1]; cbn [snd] in *;
    [|exact (Hhere s1 eq_refl Hout)].
  destruct (decide (k ∈ Dict.keys (media_sessions s1))) as [Hk1|Hk1];
    [|exact (Hhere s1 eq_refl Hk1)].
  destruct (IH s1 Hk1 Hout) as (r0 & Hr0 & Hid & Hseek & Hstale).
  exists r0. split; [now right|]. unfold expired. rewrite <- Hobj, <- Hnow. auto.
Qed.
End Passes.

Lemma NoDup_keys_functional {V} (d : Dict.t V) (k : PasId) (v v' : V) :
  NoDup (Dict.keys d) -> (k, v) ∈ d -> (k, v') ∈ d -> v = v'.
Proof.
  induction d as [|[k0 v0] d IH]; simpl; intros Hnd H1 H2; [inversion H1|].
  apply NoDup_cons in Hnd as [Hk0 Hnd].
  assert (Hkey : forall x, (k0, x) ∈ d -> False).
  { intros x Hx. apply Hk0. apply list_elem_of_In, in_map_iff. exists (k0, x).
    split; [reflexivity|]. now apply list_elem_of_In. }
  apply elem_of_cons in H1 as [E1|H1]; apply elem_of_cons in H2 as [E2|H2].
  - congruence.
  - injection E1 as -> ->. exfalso. eauto.
  - injection E2 as -> ->. exfalso. eauto.
  - auto.
Qed.

Lemma keys_elem {V} (d : Dict.t V) (k : PasId) :
  k ∈ Dict.keys d <-> exists v, (k, v) ∈ d.
Proof.
  unfold Dict.keys. rewrite list_elem_of_In, in_map_iff. split.
  - intros ([k' v] & <- & H). exists v. now apply list_elem_of_In.
  - intros (v & H). exists (k, v). split; [reflexivity|]. now apply list_elem_of_In.
Qed.

Lemma values_elem {V} (d : Dict.t V) (v : V) :
  v ∈ Dict.values d <-> exists k, (k, v) ∈ d.
Proof.
  unfold Dict.values. rewrite list_elem_of_In, in_map_iff. split.
  - intros ([k v'] & <- & H). exists k. now apply list_elem_of_In.
  - intros (k & H). exists (k, v). split; [reflexivity|]. now apply list_elem_of_In.
Qed.

Lemma tick_starts_threads_only_frame (settings : Settings.t) (s : Skipper) :
  wire (snd (tick settings s)) = wire s.
Proof. unfold tick. munfold. apply (checkAll_pass settings). Qed.

(** X14: a pass of the control loop sends nothing and changes no session
    object, nor the ignore list, nor the clock: it only starts threads, at
    most three times as many as its snapshot has sessions and none for
    another session, and it only takes sessions out of the registry. *)
Theorem tick_starts_threads_only (settings : Settings.t) (s : Skipper) :
  let s' := snd (tick settings s) in
  pass (Dict.values (media_sessions s)) 3 s s'
  /\ media_sessions s' `sublist_of` media_sessions s.
Proof.
  intros s'. subst s'. split.
  - unfold tick. munfold. apply checkAll_pass.
  - apply tick_evolves.
Qed.

Lemma tick_keeps_unexpired (settings : Settings.t) (s : Skipper) (k : PasId) (r : ref) :
  registry_ok s ->
  (k, r) ∈ media_sessions s ->
  ~ expired s r ->
  (k, r) ∈ media_sessions (snd (tick settings s)).
Proof.
  intros Hok Hin Hlive.
  destruct (decide (k ∈ Dict.keys (media_sessions (snd (tick settings s))))) as [Hk|Hk].
  - apply keys_elem in Hk as [r' Hr'].
    assert (Hr : (k, r') ∈ media_sessions s).
    { eapply elem_of_sublist; [exact Hr' | apply tick_evolves]. }
    destruct Hok as [Hnd _]. now rewrite (NoDup_keys_functional _ _ _ _ Hnd Hin Hr).
  - exfalso. unfold tick in Hk. munfold.
    destruct (checkAll_evicts_expired settings (Dict.values (media_sessions s)) s k)
      as (r0 & Hr0 & Hid & Hexp); auto.
    { apply keys_elem. eauto. }
    apply values_elem in Hr0 as [k0 Hk0].
    destruct Hok as [Hnd Hok]. destruct (Hok k0 r0 Hk0) as [Hid0 _].
    assert (Hk0' : (k, r0) ∈ media_sessions s) by (rewrite <- Hid, Hid0; exact Hk0).
    rewrite (NoDup_keys_functional _ _ _ _ Hnd Hin Hk0') in Hlive. contradiction.
Qed.


(** X15: in a well-formed registry, a pass of the control loop keeps every
    session that is seeking or whose last update is not older than the
    timeout: it evicts only sessions that are not seeking and stale. *)
Theorem tick_evicts_only_expired (settings : Settings.t) (s : Skipper) (k : PasId) (r : ref) :
  registry_ok s ->
  (k, r) ∈ media_sessions s ->
  ~ expired s r ->
  (k, r) ∈ media_sessions (snd (tick settings s)).
Proof. apply tick_keeps_unexpired. Qed.

(** ** What an action thread leaves alone *)

Section Commands.
Variable settings : Settings.t.
Variable net : Remote.

(** A relation between states that holds across every attempt and every
    recovery holds across the command of a thread. *)
Lemma thread_command_preserves (R : Skipper -> Skipper -> Prop) (th : thread) (s : Skipper) :
  (forall s1, R s1 s1) ->
  (forall s1 s2 s3, R s1 s2 -> R s2 s3 -> R s1 s3) ->
  (forall q s1, R s1 (snd (attempt settings net th s q s1))) ->
  (forall p s1, R s1 (snd (recoverPlayer net (thread_ref th) p "http://" s1))) ->
  (forall e s1, R s1 (set_wire (wire s1 ++ [e]) s1)) ->
  R s (snd (thread_command settings net th s)).
Proof.
  intros Hrefl Htrans Hattempt Hrecover Hemit.
  set (r := thread_ref th).
  set (cmd := fun player s1 =>
         match th with
         | SeekThread r t =>
             seekPlayerTo settings net player r (clampTarget (objects s r) t) s1
         | VolumeThread r v l => setPlayerVolume settings net player r v l s1
         end).
  assert (Hcmd : thread_command settings net th s = cmd (MediaWrapper.player (objects s r)) s).
  { subst cmd r. unfold thread_command. destruct th as [r t | r v l]; cbn [thread_ref]; auto.
    destruct (MediaWrapper.player (objects s r)) as [p|].
    - rewrite !seekPlayerTo_Some, clampTarget_idem by reflexivity. reflexivity.
    - now rewrite !seekPlayerTo_None. }
  rewrite Hcmd.
  destruct (MediaWrapper.player (objects s r)) as [p|].
  2:{ subst cmd. cbv beta.
      destruct th; rewrite ?seekPlayerTo_None, ?setPlayerVolume_None; apply Hrefl. }
  assert (Hunroll : cmd (Some p) s =
            match attempt settings net th s p s with
            | (Return b, s1) => (Return b, s1)
            | (Raise ParseError, s1) => (Return true, s1)
            | (Raise BadRequest, s1) =>
                match recoverPlayer net r p "http://" s1 with
                | (Return recovered, s2) => cmd recovered s2
                | (Raise e, s2) => (Raise e, s2)
                end
            | (Raise e, s1) => (Raise e, s1)
            end).
  { subst cmd r. destruct th as [r t | r v l]; cbn [attempt thread_ref].
    - rewrite seekPlayerTo_Some, clampTarget_idem by reflexivity. reflexivity.
    - apply setPlayerVolume_Some. }
  rewrite Hunroll.
  pose proof (Hattempt p s) as H1.
  pose proof (attempt_spec settings net th s p s) as Hspec1.
  destruct (attempt settings net th s p s) as [[b|[]] s1]; cbn [snd] in H1 |- *;
    try exact H1.
  destruct (Hspec1 s1 _ eq_refl) as (_ & _ & Hmedia1 & _). fold r in Hmedia1.
  pose proof (Hrecover p s1) as H2. fold r in H2.
  pose proof (recoverPlayer_spec net r p "http://" s1) as Hspec2.
  destruct (recoverPlayer net r p "http://" s1) as [[[q|]|e] s2]; cbn [snd] in H2 |- *.
  - destruct (Hspec2 s2 _ eq_refl) as (_ & _ & Hq & _ & Hmedia2).
    eapply Htrans; [exact H1|]. eapply Htrans; [exact H2|].
    subst cmd. cbv beta.
    assert (Hm : MediaWrapper.media (objects s2 (thread_ref th))
                 = MediaWrapper.media (objects s (thread_ref th))).
    { fold r. now rewrite Hmedia2. }
    rewrite (command_direct settings net th s q s2 (Hq q eq_refl) Hm).
    pose proof (Hattempt q s2) as H3.
    destruct (attempt settings net th s q s2) as [[b|[]] s3]; cbn [snd] in H3 |- *;
      try exact H3.
    eapply Htrans; [exact H3 | apply Hemit].
  - subst cmd. cbv beta.
    destruct th; rewrite ?seekPlayerTo_None, ?setPlayerVolume_None;
      (eapply Htrans; [exact H1 | exact H2]).
  - eapply Htrans; [exact H1 | exact H2].
Qed.

Lemma runThread_thread_command (th : thread) (s : Skipper) :
  runThread settings net th s =
  match thread_command settings net th s with
  | (Return _, s') => (Return tt, s')
  | (Raise _, s') => removeSession (thread_ref th) s'
  end.
Proof. rewrite runThread_eq. unfold thread_command. now destruct th. Qed.

Lemma touches_only_refl (r : ref) (s : Skipper) : touches_only r s s.
Proof. repeat split; reflexivity. Qed.

Lemma touches_only_trans (r : ref) (s1 s2 s3 : Skipper) :
  touches_only r s1 s2 -> touches_only r s2 s3 -> touches_only r s1 s3.
Proof.
  intros (H1 & H2 & H3 & H4 & H5 & H6 & H7) (K1 & K2 & K3 & K4 & K5 & K6 & K7).
  repeat split; try congruence. intros r' Hr'. now rewrite K1, H1.
Qed.

Lemma touches_only_set_object (r : ref) (w : MediaWrapper.t) (s : Skipper) :
  MediaWrapper.pasIdentifier w = MediaWrapper.pasIdentifier (objects s r) ->
  touches_only r s (set_object r w s).
Proof.
  intros H. repeat split; simpl.
  - intros r' Hr'. now rewrite fn_lookup_insert_ne.
  - now rewrite fn_lookup_insert.
Qed.

Lemma touches_only_set_wire (r : ref) (evs : list event) (s : Skipper) :
  touches_only r s (set_wire evs s).
Proof. repeat split; reflexivity. Qed.

Lemma thread_command_touches_only (th : thread) (s : Skipper) :
  touches_only (thread_ref th) s (snd (thread_command settings net th s)).
Proof.
  apply thread_command_preserves.
  - apply touches_only_refl.
  - apply touches_only_trans.
  - intros q s1. destruct th as [r t | r v l]; simpl.
    + rewrite seekPlayerTo_try_eq. cbv zeta.
      destruct (seekCommand _ _ _ _ _); simpl.
      * eapply touches_only_trans; [|apply touches_only_set_wire].
        now apply touches_only_set_object.
      * now apply touches_only_set_object.
    + rewrite setPlayerVolume_try_eq.
      destruct (timeline_reply net q); simpl; [|apply touches_only_refl].
      eapply touches_only_trans; [|apply touches_only_set_wire].
      now apply touches_only_set_object.
  - intros p s1. rewrite recoverPlayer_eq. cbv zeta.
    destruct (_ || _); simpl; [apply touches_only_set_wire|].
    destruct (clientPorts_reply net); simpl; [|apply touches_only_set_wire].
    eapply touches_only_trans; [apply touches_only_set_wire|].
    now apply touches_only_set_object.
  - intros e s1. apply touches_only_set_wire.
Qed.
End Commands.

(** X16: an action thread never ends with an exception; it changes no
    session object but its own, whose identity it keeps; it starts no
    thread and leaves the ignore list and the clock alone; and it leaves
    the registry as it is or takes out the entry filed under the identity
    of its session, never another one. *)
Theorem runThread_frame (settings : Settings.t) (net : Remote) (th : thread) (s : Skipper) :
  let r := thread_ref th in
  let s' := snd (runThread settings net th s) in
  fst (runThread settings net th s) = Return tt
  /\ (forall r', r' <> r -> objects s' r' = objects s r')
  /\ MediaWrapper.pasIdentifier (objects s' r) = MediaWrapper.pasIdentifier (objects s r)
  /\ ignored s' = ignored s /\ started s' = started s
  /\ now s' = now s /\ fresh_ref s' = fresh_ref s
  /\ (media_sessions s' = media_sessions s \/
      media_sessions s'
      = Dict.del (MediaWrapper.pasIdentifier (objects s r)) (media_sessions s)).
Proof.
  intros r s'. subst s'. rewrite runThread_thread_command.
  pose proof (thread_command_touches_only settings net th s) as (H1 & H2 & H3 & H4 & H5 & H6 & H7).
  fold r in H1, H2.
  destruct (thread_command settings net th s) as [[b|e] s1]; cbn [fst snd] in *.
  - repeat split; auto.
  - rewrite removeSession_evicted. cbn [fst snd]. repeat split; auto.
    right. simpl. fold r. now rewrite H2, H3.
Qed.

(** ** Events *)

(** X17: once the fields of a notification are read, whatever goes wrong
    while it is handled (the list of the server, the constructor of the
    wrapper, the filters, the admission), no exception of [exn] escapes
    [processAlert]. [KeyboardInterrupt], which the code raises again, is
    not an [Exception] and has no constructor in [exn]. *)
Theorem processAlert_never_raises (settings : Settings.t) (lower : string -> string)
    (newMediaWrapper : PlexSession.t -> string -> string -> Z -> result MediaWrapper.t)
    (data : Alert.t) (sessions : result (list PlexSession.t)) (s : Skipper) :
  fst (processAlert settings lower newMediaWrapper data sessions s) = Return tt.
Proof.
  unfold processAlert.
  destruct (String.eqb (Alert.type data) "playing"); [|reflexivity].
  unfold bind at 1, gets at 1. cbv beta iota.
  destruct (bool_decide _); [reflexivity|].
  unfold try_except.
  match goal with
  | |- fst (match ?x with _ => _ end) = _ => destruct x as [[[]|e] s1]
  end; reflexivity.
Qed.

(** X18: an event sends nothing and leaves the clock alone; the threads it
    starts are on the session object it has just created; it changes no
    existing session object but the one tracked under its identity; and,
    when the constructor names the wrapper after the notification, the only
    identity it can add to the registry or to the ignore list is the one of
    the notification. *)
Theorem processAlert_scope (settings : Settings.t) (lower : string -> string)
    (newMediaWrapper : PlexSession.t -> string -> string -> Z -> result MediaWrapper.t)
    (data : Alert.t) (sessions : result (list PlexSession.t)) (s : Skipper) :
  let id := getSessionClientIdentifier (Alert.sessionKey data) (Alert.clientIdentifier data) in
  let s' := snd (processAlert settings lower newMediaWrapper data sessions s) in
  wire s' = wire s
  /\ now s' = now s
  /\ (forall th, th ∈ started s' -> th ∈ started s \/ thread_ref th = fresh_ref s)
  /\ (forall r, (r < fresh_ref s)%nat -> (id, r) ∉ media_sessions s ->
                objects s' r = objects s r)
  /\ (names_sessions newMediaWrapper ->
      (forall k, k ∈ Dict.keys (media_sessions s') ->
                 k ∈ Dict.keys (media_sessions s) \/ k = id)
      /\ (forall k, k ∈ ignored s' -> k ∈ ignored s \/ k = id)).
Proof.
  intros id s'.
  destruct (processAlert_cases settings lower newMediaWrapper data sessions s)
    as [H | [(tracked & ms & Hin & _ & H)
            | (_ & _ & ms & w & s0 & Hms & Hnew & Halloc & s1 & Hev & Hsp & H)]];
    fold s' in H.
  - rewrite H. repeat split; auto.
  - rewrite H. repeat split; auto. intros r _ Hr. simpl.
    apply fn_lookup_insert_ne. intros ->. contradiction.
  - destruct Halloc as (Hreg0 & Hign0 & Hst0 & Hw0 & Hn0 & Hf0 & Hobj0 & Hid0).
    destruct Hsp as ((ths & Hst1 & _ & Hths) & Hw1 & Hobj1 & Hign1 & Hn1 & _).
    destruct Hev as (Hsub & _).
    assert (Hkeys : forall k, k ∈ Dict.keys (media_sessions s1) ->
                              k ∈ Dict.keys (media_sessions s)).
    { intros k Hk. rewrite <- Hreg0. eapply elem_of_sublist; [exact Hk|].
      now apply sublist_keys. }
    assert (Hcommon : wire s1 = wire s /\ now s1 = now s
              /\ (forall th, th ∈ started s1 -> th ∈ started s \/ thread_ref th = fresh_ref s)
              /\ (forall r, (r < fresh_ref s)%nat -> objects s1 r = objects s r)).
    { repeat split; try congruence.
      - intros th Hth. rewrite Hst1, Hst0 in Hth.
        apply elem_of_app in Hth as [?|?]; auto.
      - intros r Hr. rewrite Hobj1. apply Hobj0. lia. }
    destruct Hcommon as (C1 & C2 & C3 & C4).
    assert (Hid : names_sessions newMediaWrapper ->
                  MediaWrapper.pasIdentifier (objects s1 (fresh_ref s)) = id).
    { intros Hnames. apply Hnames in Hnew.
      rewrite (getMediaSession_key _ _ _ Hms) in Hnew. rewrite Hobj1. unfold id. congruence. }
    destruct H as [->| [->| ->]]; simpl; repeat split; auto.
    + intros k Hk. simpl. rewrite Hign1, Hign0 in Hk. now left.
    + intros k Hk. apply Dict_set_key_elem in Hk as [->|Hk]; auto.
    + intros k Hk. simpl. rewrite Hign1, Hign0 in Hk. now left.
    + intros k Hk. apply lastn_elem_of, elem_of_app in Hk as [Hk|Hk].
      * rewrite Hign1, Hign0 in Hk. now left.
      * apply list_elem_of_singleton in Hk. right. rewrite Hk. auto.
Qed.

(** ** Sessions without a player *)

Lemma purgeOldSessions_without_player (r : ref) (s : Skipper) :
  MediaWrapper.player (objects s r) = None ->
  purgeOldSessions r s
  = (match media_sessions s with [] => Return tt | _ => Raise AttributeError end, s).
Proof.
  intros Hp. unfold purgeOldSessions. munfold.
  destruct (media_sessions s) as [|[k r0] d]; simpl; [reflexivity|]. munfold.
  unfold player_machineIdentifier. now rewrite Hp.
Qed.

(** X19: for a session without a player, [addSession] is [ignoreSession];
    it puts the identity on the ignore list when no session is tracked, and
    it raises [AttributeError] and changes nothing as soon as a session is
    tracked, because the purge reads the machine identifier of the missing
    player. *)
Theorem addSession_without_player (settings : Settings.t) (r : ref) (s : Skipper) :
  MediaWrapper.player (objects s r) = None ->
  addSession settings r s = ignoreSession r s
  /\ (media_sessions s = [] -> ignoreSession r s = (Return tt, put_aside r s))
  /\ (media_sessions s <> [] -> ignoreSession r s = (Raise AttributeError, s)).
Proof.
  intros Hp. split; [|split].
  - unfold addSession. munfold. now rewrite Hp.
  - intros Hreg. unfold ignoreSession. munfold.
    rewrite (purgeOldSessions_without_player r s Hp), Hreg. reflexivity.
  - intros Hreg. unfold ignoreSession. munfold.
    rewrite (purgeOldSessions_without_player r s Hp).
    destruct (media_sessions s); [contradiction|reflexivity].
Qed.

Lemma addSession_without_player_witness :
  let s := Scenario.process false (Scenario.wrapper None 0 false) 1%Q in
  let tracking := Scenario.process true (Scenario.wrapper None 0 false) 1%Q in
  ignored (snd (addSession Scenario.settings 0%nat s)) = [getSessionClientIdentifier 7 "client-1"]
  /\ addSession Scenario.settings 0%nat tracking = (Raise AttributeError, tracking).
Proof.
  intros s tracking. split.
  - destruct (addSession_without_player Scenario.settings 0%nat s eq_refl) as (-> & -> & _);
      reflexivity.
  - destruct (addSession_without_player Scenario.settings 0%nat tracking eq_refl)
      as (-> & _ & ->); [reflexivity | discriminate].
Defined.

(** ** The ignore list is a queue *)

(** X20: [ignoreSession] on a session with a player appends the identity
    to the ignore list; a list that is full ([IGNORED_CAP] entries) loses
    its oldest entry, a shorter one is kept whole, and the identity just
    ignored is always the last entry. *)
Theorem ignoreSession_queue (r : ref) (p : PlexClient.t) (s : Skipper) :
  let id := MediaWrapper.pasIdentifier (objects s r) in
  let s' := snd (ignoreSession r s) in
  MediaWrapper.player (objects s r) = Some p ->
  fst (ignoreSession r s) = Return tt
  /\ last (ignored s') = Some id
  /\ ((length (ignored s) < IGNORED_CAP)%nat -> ignored s' = ignored s ++ [id])
  /\ (length (ignored s) = IGNORED_CAP -> ignored s' = tail (ignored s) ++ [id])
  /\ (length (ignored s') <= IGNORED_CAP)%nat.
Proof.
  intros id s' Hp. subst s'.
  destruct (ignoreSession_spec r p s Hp) as (s1 & _ & ->). cbn [fst snd ignored set_ignored].
  fold id. split; [reflexivity|]. unfold lastn. rewrite length_app. simpl.
  split; [|split; [|split]].
  - rewrite drop_app_le by (unfold IGNORED_CAP; lia). apply last_snoc.
  - intros H. replace (length (ignored s) + 1 - IGNORED_CAP)%nat with 0%nat by lia.
    reflexivity.
  - intros H. replace (length (ignored s) + 1 - IGNORED_CAP)%nat with 1%nat by lia.
    destruct (ignored s); [discriminate H|reflexivity].
  - rewrite length_drop, length_app. simpl. lia.
Qed.

Lemma ignoreSession_queue_witness :
  let s := Scenario.process false (Scenario.wrapper (Some Scenario.roku) 0 false) 1%Q in
  last (ignored (snd (ignoreSession 0%nat s))) = Some (getSessionClientIdentifier 7 "client-1").
Proof.
  intros s. apply (ignoreSession_queue 0%nat Scenario.roku s). reflexivity.
Defined.

(** ** Content without a duration *)

Lemma lastchapter_enabled_zero (settings : Settings.t) (w : MediaWrapper.t) :
  divides_by_zero settings w -> lastchapter_enabled settings w = Raise ZeroDivisionError.
Proof.
  intros (Hf & (lc & Hlc) & Hd). unfold lastchapter_enabled, int_truediv.
  now rewrite Hf, Hlc, Hd.
Qed.

Lemma checkMedia_zero_duration (settings : Settings.t) (r : ref) (s : Skipper) :
  let w := objects s r in
  MediaWrapper.seeking w = false ->
  MediaWrapper.customMarkers w = [] ->
  divides_by_zero settings w ->
  checkMedia settings r s = (Raise ZeroDivisionError, s).
Proof.
  intros w Hseek Hcustom Hzero. unfold checkMedia. munfold. fold w. rewrite Hseek.
  rewrite checkMediaSkip_unfold. fold w. unfold skipMarkers. rewrite Hcustom. simpl.
  rewrite (lastchapter_enabled_zero settings w Hzero).
  destruct (MediaWrapper.mode w) eqn:Hmode; simpl; [reflexivity|].
  rewrite checkMediaVolume_eq. fold w.
  unfold shouldLowerMediaVolume. rewrite Hcustom, Hmode. simpl.
  now rewrite (lastchapter_enabled_zero settings w Hzero).
Qed.

(** X21: with the last-chapter shortcut configured, the check of a
    session that has a last chapter, no custom marker and a content of
    duration 0 raises [ZeroDivisionError] and does nothing else, and a pass
    of the control loop over a registry that holds such a session (not
    seeking) ends with an exception. *)
Theorem tick_zero_duration (settings : Settings.t) (s : Skipper) (r : ref) :
  let w := objects s r in
  r ∈ Dict.values (media_sessions s) ->
  MediaWrapper.seeking w = false ->
  MediaWrapper.customMarkers w = [] ->
  divides_by_zero settings w ->
  checkMedia settings r s = (Raise ZeroDivisionError, s)
  /\ exists e, fst (tick settings s) = Raise e.
Proof.
  intros w Hin Hseek Hcustom Hzero. split; [now apply checkMedia_zero_duration|].
  unfold tick. munfold. revert Hin. generalize (Dict.values (media_sessions s)). intros l.
  assert (Hgen : forall s1, objects s1 = objects s -> r ∈ l ->
                            exists e, fst (checkAll settings l s1) = Raise e).
  { induction l as [|r0 l IH]; intros s1 Hobj Hin; [inversion Hin|]. simpl. munfold.
    destruct (decide (r0 = r)) as [->|Hne].
    - rewrite checkMedia_zero_duration; [eauto| | |]; rewrite Hobj; auto.
    - pose proof (checkMedia_objects settings r0 s1) as Ho.
      destruct (checkMedia settings r0 s1) as [[[]|e] s2]; cbn [fst snd] in *; [|eauto].
      apply IH; [congruence|]. apply elem_of_cons in Hin as [?|?]; [congruence|auto]. }
  intros Hin. now apply Hgen.
Qed.

Lemma tick_zero_duration_witness :
  let s := Scenario.process true Cases.untimed 1%Q in
  exists e, fst (tick Scenario.settings_lastchapter s) = Raise e.
Proof.
  intros s.
  refine (proj2 (tick_zero_duration Scenario.settings_lastchapter s 0%nat _ _ _ _)).
  - left.
  - reflexivity.
  - reflexivity.
  - split; [reflexivity|]. split; [eexists; reflexivity | reflexivity].
Defined.

Lemma tick_evicts_only_expired_witness :
  let w := Scenario.wrapper (Some Scenario.roku) 1000 false in
  let s := Scenario.process true w 10%Q in
  (MediaWrapper.pasIdentifier w, 0%nat) ∈ media_sessions (snd (tick Scenario.settings s)).
Proof.
  intros w s. apply (tick_evicts_only_expired Scenario.settings s).
  - split; [apply NoDup_singleton|]. intros k r H.
    apply list_elem_of_singleton in H. injection H as -> ->. split; [reflexivity|].
    simpl. lia.
  - left.
  - intros [_ H]. vm_compute in H. discriminate H.
Defined.

(** ** A session that is seeking *)

(** X22: from a well-formed registry, passes of the control loop and the
    passing of time, however many, never evict a session whose [seeking]
    flag is set; they change no session object and send nothing. *)
Theorem seeking_session_waits (settings : Settings.t) (lower : string -> string)
    (newMediaWrapper : PlexSession.t -> string -> string -> Z -> result MediaWrapper.t)
    (ls : list label) (s : Skipper) (k : PasId) (r : ref) :
  let s' := snd (exec settings lower newMediaWrapper ls s) in
  registry_ok s ->
  (k, r) ∈ media_sessions s ->
  MediaWrapper.seeking (objects s r) = true ->
  Forall loop_step ls ->
  (k, r) ∈ media_sessions s' /\ objects s' = objects s /\ wire s' = wire s.
Proof.
  intros s' Hok Hin Hseek Hls. subst s'. revert s Hok Hin Hseek.
  induction Hls as [|l ls Hl Hls IH]; intros s Hok Hin Hseek; simpl; [auto|].
  munfold.
  assert (Hstep : let s1 := snd (step settings lower newMediaWrapper l s) in
            registry_ok s1 /\ (k, r) ∈ media_sessions s1 /\ objects s1 = objects s
            /\ wire s1 = wire s).
  { destruct l as [data sessions | | i net | seconds]; try contradiction; simpl.
    - split; [eapply registry_ok_evolves; [exact Hok | apply tick_evolves]|].
      split; [|split].
      + apply tick_keeps_unexpired; auto. intros [H _]. congruence.
      + unfold tick. munfold. apply checkAll_objects.
      + apply (tick_starts_threads_only_frame settings s).
    - split; [exact Hok|]. repeat split; auto. }
  destruct (step settings lower newMediaWrapper l s) as [[[]|e] s1]; cbn [snd] in *.
  - destruct Hstep as (Hok1 & Hin1 & Hobj1 & Hw1).
    destruct (IH s1 Hok1 Hin1) as (H1 & H2 & H3); [now rewrite Hobj1|].
    repeat split; congruence.
  - destruct Hstep as (_ & ? & ? & ?). auto.
Qed.

Lemma seeking_session_waits_witness :
  let w := Scenario.wrapper (Some Scenario.roku) 1000 true in
  let s := Scenario.process true w 100%Q in
  let s' :=
    snd (exec Scenario.settings ascii_lower Cases.newMediaWrapper [Tick; Wait 50; Tick] s) in
  (MediaWrapper.pasIdentifier w, 0%nat) ∈ media_sessions s'
  /\ objects s' = objects s /\ wire s' = wire s.
Proof.
  intros w s.
  apply (seeking_session_waits Scenario.settings ascii_lower Cases.newMediaWrapper
           [Tick; Wait 50; Tick] s).
  - split; [apply NoDup_singleton|]. intros k r H.
    apply list_elem_of_singleton in H. injection H as -> ->. split; [reflexivity|].
    simpl. lia.
  - left.
  - reflexivity.
  - repeat constructor.
Defined.

(** ** Events of tracked sessions *)

Lemma Dict_get_mem {V} (k : PasId) (v : V) (d : Dict.t V) :
  Dict.get k d = Some v -> Dict.mem k d = true.
Proof.
  intros H. apply bool_decide_eq_true. apply keys_elem. exists v. now apply Dict_get_elem.
Qed.

(** X23: a playing notification of an identity that is tracked and not
    ignored, whose session the server reports on the local network, calls
    [updateOffset] on the tracked wrapper with the position of the server,
    [seeking=False] and the state of the notification, and does nothing
    else: no wrapper is built and no filter is asked again. *)
Theorem processAlert_refreshes (settings : Settings.t) (lower : string -> string)
    (newMediaWrapper : PlexSession.t -> string -> string -> Z -> result MediaWrapper.t)
    (data : Alert.t) (sessions : result (list PlexSession.t)) (s : Skipper)
    (tracked : ref) (mediaSession : PlexSession.t) (session : Session.t) :
  let id := getSessionClientIdentifier (Alert.sessionKey data) (Alert.clientIdentifier data) in
  Alert.type data = "playing"%string ->
  id ∉ ignored s ->
  Dict.get id (media_sessions s) = Some tracked ->
  getMediaSession sessions (Alert.sessionKey data) = Some mediaSession ->
  PlexSession.session mediaSession = Some session ->
  Session.location session = "lan"%string ->
  processAlert settings lower newMediaWrapper data sessions s
  = (Return tt,
     set_object tracked
       (MediaWrapper.updateOffset (now s) (PlexSession.viewOffset mediaSession) false
                                  (Some (Alert.state data)) (objects s tracked)) s).
Proof.
  intros id Htype Hign Hget Hms Hsession Hlan. subst id. unfold processAlert.
  rewrite Htype, String.eqb_refl. munfold.
  rewrite (bool_decide_eq_false_2 _ Hign), Hms, Hsession, Hlan, String.eqb_refl.
  rewrite (Dict_get_mem _ _ _ Hget). cbn [negb]. rewrite Hget. reflexivity.
Qed.

Lemma processAlert_refreshes_witness :
  let w := Scenario.wrapper (Some Scenario.roku) 1000 true in
  let s := Scenario.process true w 100%Q in
  let s' := snd (processAlert Scenario.settings ascii_lower Cases.newMediaWrapper Cases.playing
                              (Return [Scenario.plexSession "lan"]) s) in
  MediaWrapper.seeking (objects s' 0%nat) = false
  /\ MediaWrapper.viewOffset (objects s' 0%nat) = 590000
  /\ media_sessions s' = media_sessions s.
Proof.
  intros w s.
  rewrite (processAlert_refreshes Scenario.settings ascii_lower Cases.newMediaWrapper Cases.playing
             (Return [Scenario.plexSession "lan"]) s 0%nat (Scenario.plexSession "lan")
             {| Session.location := "lan" |}); try reflexivity.
  - repeat split.
  - intros H. inversion H.
Defined.

(** ** One session per client *)

Lemma NoDup_map_inj_on {A B} (f : A -> B) (l : list A) (x y : A) :
  NoDup (map f l) -> x ∈ l -> y ∈ l -> f x = f y -> x = y.
Proof.
  induction l as [|a l IH]; simpl; intros Hnd Hx Hy Hf; [inversion Hx|].
  apply NoDup_cons in Hnd as [Ha Hnd].
  assert (Hin : forall z, z ∈ l -> f z ∈ map f l).
  { intros z Hz. apply list_elem_of_In, in_map, list_elem_of_In, Hz. }
  apply elem_of_cons in Hx as [->|Hx]; apply elem_of_cons in Hy as [->|Hy]; auto.
  - exfalso. apply Ha. rewrite Hf. auto.
  - exfalso. apply Ha. rewrite <- Hf. auto.
Qed.

Lemma sublist_values {V} (d' d : Dict.t V) :
  d' `sublist_of` d -> Dict.values d' `sublist_of` Dict.values d.
Proof. induction 1; simpl; now constructor. Qed.

Lemma sublist_map {A B} (f : A -> B) (l' l : list A) :
  l' `sublist_of` l -> map f l' `sublist_of` map f l.
Proof. induction 1; simpl; now constructor. Qed.

Lemma Dict_del_elem {V} (k k' : PasId) (v : V) (d : Dict.t V) :
  (k', v) ∈ Dict.del k d <-> (k', v) ∈ d /\ k' <> k.
Proof.
  unfold Dict.del. rewrite !list_elem_of_In, filter_In. simpl.
  rewrite negb_true_iff, bool_decide_eq_false. tauto.
Qed.

Lemma Dict_get_set {V} (k : PasId) (v : V) (d : Dict.t V) :
  Dict.get k (Dict.set k v d) = Some v.
Proof.
  induction d as [|[k0 v0] d IH]; simpl.
  - now rewrite bool_decide_eq_true_2.
  - destruct (decide (k0 = k)) as [->|Hne].
    + rewrite bool_decide_eq_true_2 by reflexivity. simpl.
      now rewrite bool_decide_eq_true_2.
    + rewrite bool_decide_eq_false_2 by exact Hne. simpl.
      now rewrite bool_decide_eq_false_2.
Qed.

Lemma Dict_set_values_elem {V} (k : PasId) (v v' : V) (d : Dict.t V) :
  v' ∈ Dict.values (Dict.set k v d) -> v' = v \/ v' ∈ Dict.values d.
Proof.
  intros H. apply values_elem in H as [k' H]. apply Dict_set_elem in H as [[_ ->]|H]; auto.
  right. apply values_elem. eauto.
Qed.

Lemma Dict_set_values_NoDup {V B} (f : V -> B) (k : PasId) (v : V) (d : Dict.t V) :
  NoDup (map f (Dict.values d)) ->
  (forall v', v' ∈ Dict.values d -> f v' <> f v) ->
  NoDup (map f (Dict.values (Dict.set k v d))).
Proof.
  induction d as [|[k0 v0] d IH]; simpl; intros Hnd Hne.
  - apply NoDup_singleton.
  - apply NoDup_cons in Hnd as [H0 Hnd].
    assert (Hne' : forall v', v' ∈ Dict.values d -> f v' <> f v).
    { intros v' Hv'. apply Hne. now right. }
    destruct (bool_decide (k0 = k)); simpl; apply NoDup_cons; split; auto.
    + intros Hin. apply list_elem_of_In, in_map_iff in Hin as (v' & Hf & Hv').
      apply (Hne' v'); [now apply list_elem_of_In | exact Hf].
    + intros Hin. apply list_elem_of_In, in_map_iff in Hin as (v' & Hf & Hv').
      apply list_elem_of_In, Dict_set_values_elem in Hv' as [->|Hv'].
      * apply (Hne v0); [left | congruence].
      * apply H0. rewrite <- Hf. apply list_elem_of_In, in_map, list_elem_of_In, Hv'.
Qed.

Lemma purgeOldSessions_eq (r : ref) (p : PlexClient.t) (s : Skipper) :
  MediaWrapper.player (objects s r) = Some p ->
  purgeOldSessions r s =
  (Return tt,
   match List.find (fun r0 => String.eqb (MediaWrapper.clientIdentifier (objects s r0))
                                         (PlexClient.machineIdentifier p))
                   (Dict.values (media_sessions s)) with
   | Some r0 => evicted (MediaWrapper.pasIdentifier (objects s r0)) s
   | None => s
   end).
Proof.
  intros Hp. unfold purgeOldSessions. munfold.
  generalize (Dict.values (media_sessions s)). intros l.
  induction l as [|r0 l IH]; simpl; [reflexivity|]. munfold.
  unfold player_machineIdentifier. rewrite Hp.
  destruct (String.eqb _ _); [|exact IH]. now rewrite removeSession_evicted.
Qed.

Section OnePerClient.
Variable settings : Settings.t.
Variables (r : ref) (p : PlexClient.t) (s : Skipper).
Hypothesis Hready : admissible s r p.
Hypothesis Hok : registry_ok s.
Hypothesis Hdistinct : clients_distinct s.

Let cid (r0 : ref) : string := MediaWrapper.clientIdentifier (objects s r0).

(** After the purge no tracked session is on the client of the new one. *)
Lemma purgeOldSessions_frees_client :
  let s1 := snd (purgeOldSessions r s) in
  fst (purgeOldSessions r s) = Return tt
  /\ evolves s s1 /\ objects s1 = objects s
  /\ forall r', r' ∈ Dict.values (media_sessions s1) -> cid r' <> cid r.
Proof.
  destruct Hready as (_ & Hp & _ & Hcid).
  pose proof (purgeOldSessions_evolves r s) as Hev.
  pose proof (purgeOldSessions_objects r s) as Hobj.
  rewrite (purgeOldSessions_eq r p s Hp) in *. cbn [fst snd] in *.
  split; [reflexivity|]. split; [exact Hev|]. split; [exact Hobj|].
  intros r' Hr' Heq. unfold cid in Heq. rewrite Hcid in Heq.
  destruct (List.find _ _) as [r0|] eqn:Efind.
  - apply find_some in Efind as [Hr0 E0]. apply String.eqb_eq in E0.
    apply list_elem_of_In in Hr0.
    apply values_elem in Hr' as [k' Hk']. simpl in Hk'.
    apply Dict_del_elem in Hk' as [Hk' Hne].
    assert (Hv' : r' ∈ Dict.values (media_sessions s)) by (apply values_elem; eauto).
    assert (r' = r0).
    { apply (NoDup_map_inj_on _ _ r' r0 Hdistinct Hv' Hr0). congruence. }
    subst r0. destruct Hok as [_ Hkeys]. destruct (Hkeys k' r' Hk') as [Hid _]. congruence.
  - apply list_elem_of_In in Hr'.
    pose proof (find_none _ _ Efind r' Hr') as Hf. simpl in Hf.
    apply String.eqb_neq in Hf. contradiction.
Qed.
End OnePerClient.

(** X24: when no two tracked sessions are on the same client, an
    [addSession] that returns, for a session with a usable player of which
    it is the session, files the session under its identity and leaves the
    registry well formed with again no two sessions on the same client; the
    ignore list and the session objects are untouched. *)
Theorem addSession_one_per_client (settings : Settings.t) (r : ref) (p : PlexClient.t)
    (s : Skipper) :
  let id := MediaWrapper.pasIdentifier (objects s r) in
  let s' := snd (addSession settings r s) in
  admissible s r p ->
  registry_ok s ->
  clients_distinct s ->
  fst (addSession settings r s) = Return tt ->
  Dict.get id (media_sessions s') = Some r
  /\ registry_ok s' /\ clients_distinct s'
  /\ ignored s' = ignored s /\ objects s' = objects s.
Proof.
  intros id s' Hready Hok Hdistinct Hret. subst s'.
  pose proof (addSession_objects settings r s) as Hobjs.
  destruct (purgeOldSessions_frees_client r p s Hready Hok Hdistinct)
    as (Hpurge & Hev1 & Hobj1 & Hfree).
  pose proof Hready as (Hr & Hp & Hvalid & Hcid).
  revert Hret Hobjs. unfold addSession. munfold. rewrite Hp. unfold lift. rewrite Hvalid.
  cbv beta iota.
  destruct (purgeOldSessions r s) as [[[]|e] s1]; cbn [fst snd] in *; [|discriminate].
  pose proof (checkMedia_evolves settings r s1) as Hev2.
  pose proof (checkMedia_objects settings r s1) as Hobj2.
  destruct (checkMedia settings r s1) as [[[]|e] s2]; cbn [fst snd] in *; [|discriminate].
  intros _ _.
  assert (Hev : evolves s s2) by (eapply evolves_trans; eauto).
  assert (Hobj : objects s2 = objects s) by congruence.
  pose proof (registry_ok_evolves _ _ Hok Hev) as Hok2.
  rewrite Hobj. fold id. split; [apply Dict_get_set|]. split; [|split].
  - assert (Hadm : registry_ok (filed r s2)).
    { apply registry_ok_admitted; auto. destruct Hev as (_ & _ & -> & _). exact Hr. }
    unfold filed in Hadm. now rewrite Hobj in Hadm.
  - unfold clients_distinct. simpl. rewrite Hobj.
    destruct Hev2 as (Hsub2 & _).
    apply Dict_set_values_NoDup.
    + eapply sublist_NoDup; [|apply sublist_map, sublist_values, Hev]. exact Hdistinct.
    + intros r' Hr'. apply Hfree. eapply elem_of_sublist; [exact Hr'|].
      now apply sublist_values.
  - destruct Hev as (_ & Hign & _). simpl. auto.
Qed.

Lemma addSession_one_per_client_witness :
  let s' := snd (addSession Scenario.settings 1%nat Cases.replay) in
  Dict.get (getSessionClientIdentifier 8 "client-1") (media_sessions s') = Some 1%nat
  /\ registry_ok s' /\ clients_distinct s'
  /\ ignored s' = ignored Cases.replay /\ objects s' = objects Cases.replay.
Proof.
  apply (addSession_one_per_client Scenario.settings 1%nat Scenario.roku Cases.replay).
  - repeat split. simpl. lia.
  - split; [apply NoDup_singleton|]. intros k r H.
    apply list_elem_of_singleton in H. injection H as -> ->. split; [reflexivity|].
    simpl. lia.
  - apply NoDup_singleton.
  - reflexivity.
Defined.

Example addSession_replaces_session_of_client :
  media_sessions (snd (addSession Scenario.settings 1%nat Cases.replay))
  = [(getSessionClientIdentifier 8 "client-1", 1%nat)].
Proof. reflexivity. Qed.

(** ** Removing sessions *)

Lemma Dict_del_NoDup_length {V} (k : PasId) (d : Dict.t V) :
  NoDup (Dict.keys d) -> k ∈ Dict.keys d -> S (length (Dict.del k d)) = length d.
Proof.
  unfold Dict.del. induction d as [|[k0 v0] d IH]; simpl; intros Hnd Hin; [inversion Hin|].
  apply NoDup_cons in Hnd as [H0 Hnd].
  destruct (decide (k0 = k)) as [->|Hne].
  - rewrite bool_decide_eq_true_2 by reflexivity. simpl. f_equal.
    fold (Dict.del k d). rewrite Dict_del_absent; [reflexivity|].
    now apply bool_decide_eq_false.
  - rewrite bool_decide_eq_false_2 by exact Hne. simpl. f_equal. apply IH; auto.
    apply elem_of_cons in Hin as [?|?]; [congruence|auto].
Qed.

Lemma Dict_del_set {V} (k : PasId) (v : V) (d : Dict.t V) :
  Dict.del k (Dict.set k v d) = Dict.del k d.
Proof.
  unfold Dict.del. induction d as [|[k0 v0] d IH]; simpl.
  - now rewrite bool_decide_eq_true_2.
  - destruct (decide (k0 = k)) as [->|Hne].
    + rewrite bool_decide_eq_true_2 by reflexivity. simpl.
      now rewrite bool_decide_eq_true_2.
    + rewrite bool_decide_eq_false_2 by exact Hne. simpl.
      rewrite bool_decide_eq_false_2 by exact Hne. simpl. now rewrite IH.
Qed.

(** X25: [removeSession] never raises and removes what is filed under the
    identity of its argument, whichever object that is, and nothing else:
    the other entries stay, in their order; removing again changes
    nothing, and removing a session just filed undoes the filing. *)
Theorem removeSession_by_identity (r : ref) (s : Skipper) :
  let id := MediaWrapper.pasIdentifier (objects s r) in
  let s' := snd (removeSession r s) in
  removeSession r s = (Return tt, evicted id s)
  /\ (id ∉ Dict.keys (media_sessions s'))
  /\ (forall k r', k <> id -> ((k, r') ∈ media_sessions s' <-> (k, r') ∈ media_sessions s))
  /\ media_sessions s' `sublist_of` media_sessions s
  /\ removeSession r s' = (Return tt, s')
  /\ snd (removeSession r (filed r s)) = evicted id s.
Proof.
  intros id s'. subst s'. rewrite removeSession_evicted. fold id. cbn [snd].
  split; [reflexivity|]. split; [|split; [|split; [|split]]].
  - simpl. intros H. apply Dict_keys_del in H as [_ H]. contradiction.
  - intros k r' Hk. simpl. rewrite Dict_del_elem. tauto.
  - apply Dict_del_sublist.
  - rewrite removeSession_evicted. f_equal. unfold evicted, set_media_sessions. simpl.
    fold id. f_equal. apply Dict_del_absent.
    apply bool_decide_eq_false. intros H. apply Dict_keys_del in H as [_ H]. contradiction.
  - rewrite removeSession_evicted. unfold filed, evicted, set_media_sessions. simpl.
    fold id. f_equal. apply Dict_del_set.
Qed.

(** X26: for a new session with a player, in a well-formed registry,
    [purgeOldSessions] raises nothing, changes nothing when no tracked
    session is on the client of the player, and otherwise evicts exactly
    one session: the first one, in the order of the registry, that is on
    that client. *)
Theorem purgeOldSessions_first (r : ref) (p : PlexClient.t) (s : Skipper) :
  let on_client r0 :=
    String.eqb (MediaWrapper.clientIdentifier (objects s r0)) (PlexClient.machineIdentifier p) in
  let s' := snd (purgeOldSessions r s) in
  MediaWrapper.player (objects s r) = Some p ->
  registry_ok s ->
  fst (purgeOldSessions r s) = Return tt
  /\ (List.find on_client (Dict.values (media_sessions s)) = None -> s' = s)
  /\ (forall r0, List.find on_client (Dict.values (media_sessions s)) = Some r0 ->
        s' = evicted (MediaWrapper.pasIdentifier (objects s r0)) s
        /\ (r0 ∉ Dict.values (media_sessions s'))
        /\ S (length (media_sessions s')) = length (media_sessions s)).
Proof.
  intros on_client s' Hp [Hnd Hok]. subst s'. rewrite (purgeOldSessions_eq r p s Hp).
  cbn [fst snd]. fold on_client. split; [reflexivity|]. split.
  - now intros ->.
  - intros r0 Hfind. rewrite Hfind. split; [reflexivity|].
    apply find_some in Hfind as [Hr0 _]. apply list_elem_of_In, values_elem in Hr0 as [k0 Hk0].
    destruct (Hok k0 r0 Hk0) as [Hid _]. split.
    + simpl. intros H. apply values_elem in H as [k H]. apply Dict_del_elem in H as [H Hne].
      destruct (Hok k r0 H) as [Hid' _]. congruence.
    + simpl. apply Dict_del_NoDup_length; auto. rewrite Hid. apply keys_elem. eauto.
Qed.

Lemma purgeOldSessions_first_witness :
  let s' := snd (purgeOldSessions 1%nat Cases.replay) in
  s' = evicted (getSessionClientIdentifier 7 "client-1") Cases.replay
  /\ (0%nat ∉ Dict.values (media_sessions s'))
  /\ S (length (media_sessions s')) = length (media_sessions Cases.replay).
Proof.
  assert (Hok : registry_ok Cases.replay).
  { split; [apply NoDup_singleton|]. intros k r H.
    apply list_elem_of_singleton in H. injection H as -> ->. split; [reflexivity|].
    simpl. lia. }
  exact (proj2 (proj2 (purgeOldSessions_first 1%nat Scenario.roku Cases.replay eq_refl Hok))
               0%nat eq_refl).
Defined.
